(** * Handle discovery: a shallow embedding of [extract_instagram_enhanced.py]

    The development follows the class [AdvancedInstagramExtractor]:
    the username validator, the URL and text pattern extractors, the URL
    normaliser, the page scanner, the bounded breadth-first site crawler
    and the top-level entry point [extract_instagram_info].

    Conventions of the embedding.
    - A Python [str] is a Rocq [string]; a character is read as the code
      point 0..255 it denotes, and [len] is [String.length]. Texts with
      a code point above 255 are outside the development: [str.lower]
      and case-insensitive matching are given for the code points
      0..255, on which they are exact, and every statement about them
      is a statement about texts of these code points.
    - Python [int] is [Z].
    - [re] patterns are values of the type [Re.regex] below and are run by
      a backtracking matcher with Python's leftmost, greedy semantics.
    - The network, the HTML parser and [urllib.parse] are collaborators
      of the program; they are the fields of the class [Platform]. *)

From Stdlib Require Import String Ascii List ZArith Lia Bool Arith.
From Stdlib Require DecimalString Sorted.
From stdpp Require Import base strings gmap.
From Equations Require Import Equations.
From Equations.Prop Require Import Logic.
Import ListNotations.

#[local] Arguments String.append !_ _ : simpl nomatch.

(** ** Python string operations *)

Module PyStr.

Definition code (c : ascii) : nat := nat_of_ascii c.

Definition between (lo hi : nat) (c : ascii) : bool :=
  Nat.leb lo (code c) && Nat.leb (code c) hi.

(** [str.isspace] on one character, which is also the class [\s] of
    [re] on [str] patterns: TAB..CR, FS..US, space, NEL and NBSP. *)
Definition isspace (c : ascii) : bool :=
  between 9 13 c || between 28 32 c
  || Nat.eqb (code c) 133 || Nat.eqb (code c) 160.

(** [str.lower] on one character: A-Z and the accented capitals
    U+00C0..U+00DE (the multiplication sign U+00D7 has no case).
    Beyond the code points 0..255 [str.lower] also yields ASCII
    letters, as [k] for U+212A. *)
Definition lower_char (c : ascii) : ascii :=
  if between 65 90 c || (between 192 222 c && negb (Nat.eqb (code c) 215))
  then ascii_of_nat (code c + 32) else c.

(** Simple upper-casing, as used by case-insensitive matching. The
    upper-case forms of U+00B5 and U+00FF lie beyond U+00FF and
    belong to no character set of this program; they stay as they
    are. *)
Definition upper_char (c : ascii) : ascii :=
  if between 97 122 c || (between 224 254 c && negb (Nat.eqb (code c) 247))
  then ascii_of_nat (code c - 32) else c.

Fixpoint lower (s : string) : string :=
  match s with
  | EmptyString => EmptyString
  | String c s' => String (lower_char c) (lower s')
  end.

(** [s.startswith(p)] *)
Fixpoint startswith (s p : string) {struct p} : bool :=
  match p, s with
  | EmptyString, _ => true
  | String a p', String b s' => Ascii.eqb b a && startswith s' p'
  | String _ _, EmptyString => false
  end.

(** [s.endswith(p)] *)
Fixpoint endswith (s p : string) : bool :=
  String.eqb s p ||
  match s with
  | EmptyString => false
  | String _ s' => endswith s' p
  end.

(** [p in s] *)
Fixpoint contains (p s : string) : bool :=
  startswith s p ||
  match s with
  | EmptyString => false
  | String _ s' => contains p s'
  end.

Fixpoint lstrip (s : string) : string :=
  match s with
  | EmptyString => EmptyString
  | String c s' => if isspace c then lstrip s' else s
  end.

(** Removes the longest suffix made of characters in [p]:
    [s.rstrip()] for [p := isspace], [s.rstrip('/')] for one
    character. *)
Fixpoint rstrip_by (p : ascii -> bool) (s : string) : string :=
  match s with
  | EmptyString => EmptyString
  | String c s' =>
      match rstrip_by p s' with
      | EmptyString => if p c then EmptyString else String c EmptyString
      | t => String c t
      end
  end.

(** [s.strip()] *)
Definition strip (s : string) : string := lstrip (rstrip_by isspace s).

(** [s.rstrip('/')] *)
Definition rstrip_slash (s : string) : string :=
  rstrip_by (Ascii.eqb "/") s.

(** [s.split(d)[0]]: the part of [s] before the first [d]. *)
Fixpoint split_head (d : ascii) (s : string) : string :=
  match s with
  | EmptyString => EmptyString
  | String c s' =>
      if Ascii.eqb c d then EmptyString else String c (split_head d s')
  end.

Fixpoint take_nonspace (s : string) : string :=
  match s with
  | EmptyString => EmptyString
  | String c s' =>
      if isspace c then EmptyString else String c (take_nonspace s')
  end.

(** [s.split()[0]]: the first whitespace-delimited word; [None] is
    the [IndexError] raised when [s] has no word. *)
Definition first_word (s : string) : option string :=
  match lstrip s with
  | EmptyString => None
  | t => Some (take_nonspace t)
  end.

(** [re.sub(r'\s+', '', s)]: every run of whitespace is deleted. *)
Fixpoint remove_spaces (s : string) : string :=
  match s with
  | EmptyString => EmptyString
  | String c s' =>
      if isspace c then remove_spaces s' else String c (remove_spaces s')
  end.

Fixpoint drop (n : nat) (s : string) : string :=
  match n, s with
  | O, _ => s
  | S n', String _ s' => drop n' s'
  | S _, EmptyString => EmptyString
  end.

Fixpoint take (n : nat) (s : string) : string :=
  match n, s with
  | S n', String c s' => String c (take n' s')
  | _, _ => EmptyString
  end.

(** The character U+0022, which a string literal cannot hold. *)
Definition dquote : string := String (ascii_of_nat 34) EmptyString.

(** [str(n)] for an [int]. *)
Definition str_of_int (n : Z) : string :=
  DecimalString.NilZero.string_of_int (Z.to_int n).

End PyStr.

(** ** Regular expressions: the fragment of [re] the program uses *)

Module Re.
Import PyStr.

Inductive regex : Type :=
| Eps                                   (* the empty pattern *)
| Chr (c : ascii)                       (* a literal character *)
| Seq (r1 r2 : regex)                   (* r1 r2 *)
| Opt (r : regex)                       (* r? *)
| Rep (set : ascii -> bool) (lo : nat) (hi : option nat)
                                        (* [set]{lo,hi}, [set]+, [set]* *)
| Grp (r : regex)                       (* (r), the group 1 *)
| Bol                                   (* ^ *)
| Eol                                   (* $ *)
| NotAhead (set : ascii -> bool).       (* (?![set]) *)

(** A literal word. *)
Fixpoint lit (p : string) : regex :=
  match p with
  | EmptyString => Eps
  | String c p' => Seq (Chr c) (lit p')
  end.

(** [.] without [re.DOTALL] *)
Definition dot (c : ascii) : bool := negb (Ascii.eqb c "010").

(** [[a-zA-Z0-9_.]] *)
Definition handle_char (c : ascii) : bool :=
  between 97 122 c || between 65 90 c || between 48 57 c
  || Ascii.eqb c "_" || Ascii.eqb c ".".

(** Membership in a set, under [re.IGNORECASE] when [ic] is set. Among
    the code points 0..255 the flag adds nothing to [[a-zA-Z0-9_.]];
    beyond them Python lets the class match U+0130, U+0131, U+017F and
    U+212A as well, whose other case is an ASCII letter. *)
Definition in_set (ic : bool) (set : ascii -> bool) (c : ascii) : bool :=
  set c || (ic && (set (lower_char c) || set (upper_char c))).

Definition chr_eq (ic : bool) (c a : ascii) : bool :=
  if ic then Ascii.eqb (lower_char a) (lower_char c) else Ascii.eqb a c.

Definition below (n : nat) (hi : option nat) : bool :=
  match hi with
  | None => true
  | Some h => Nat.ltb n h
  end.

(** The state of a match attempt is the index reached, the text left
    and the text of group 1; [K] is what remains to be matched. *)
Definition K : Type := nat -> string -> string -> option (nat * string).

(** Greedy repetition of one set: take one more character when the
    set and the upper bound allow it, and on failure of what follows
    give the characters back one at a time down to [lo]. *)
Fixpoint rep (ic : bool) (set : ascii -> bool) (lo : nat) (hi : option nat)
    (taken pos : nat) (s g : string) (k : K) : option (nat * string) :=
  let stop := if Nat.leb lo taken then k pos s g else None in
  match s with
  | EmptyString => stop
  | String a s' =>
      if in_set ic set a && below taken hi then
        match rep ic set lo hi (S taken) (S pos) s' g k with
        | Some m => Some m
        | None => stop
        end
      else stop
  end.

Fixpoint run (ic : bool) (r : regex) (pos : nat) (s g : string) (k : K)
    : option (nat * string) :=
  match r with
  | Eps => k pos s g
  | Chr c =>
      match s with
      | String a s' => if chr_eq ic c a then k (S pos) s' g else None
      | EmptyString => None
      end
  | Seq r1 r2 => run ic r1 pos s g (fun pos' s' g' => run ic r2 pos' s' g' k)
  | Opt r1 =>
      match run ic r1 pos s g k with
      | Some m => Some m
      | None => k pos s g
      end
  | Rep set lo hi => rep ic set lo hi 0 pos s g k
  | Grp r1 =>
      run ic r1 pos s g (fun pos' s' _ => k pos' s' (take (pos' - pos) s))
  | Bol => if Nat.eqb pos 0 then k pos s g else None
  | Eol =>
      match s with
      | EmptyString => k pos s g
      | String a EmptyString => if Ascii.eqb a "010" then k pos s g else None
      | _ => None
      end
  | NotAhead set =>
      match s with
      | String a _ => if in_set ic set a then None else k pos s g
      | EmptyString => k pos s g
      end
  end.

(** A match object: its span and [group(1)]. *)
Record Match : Type := { m_start : nat; m_end : nat; group1 : string }.

(** One attempt at index [pos], where [s] is the text from [pos] on. *)
Definition match_at (ic : bool) (r : regex) (pos : nat) (s : string)
    : option Match :=
  match run ic r pos s EmptyString (fun e _ g => Some (e, g)) with
  | Some (e, g) => Some {| m_start := pos; m_end := e; group1 := g |}
  | None => None
  end.

(** [re.match(r, s)] *)
Definition re_match (ic : bool) (r : regex) (s : string) : option Match :=
  match_at ic r 0 s.

Fixpoint search_from (ic : bool) (r : regex) (pos : nat) (s : string)
    : option Match :=
  match match_at ic r pos s with
  | Some m => Some m
  | None =>
      match s with
      | EmptyString => None
      | String _ s' => search_from ic r (S pos) s'
      end
  end.

(** [re.search(r, s)]: the leftmost match. *)
Definition re_search (ic : bool) (r : regex) (s : string) : option Match :=
  search_from ic r 0 s.

(** [re.findall(r, s)] for a pattern with one group: [group(1)] of the
    successive non-overlapping matches, from left to right. [next] is
    the index where the next attempt may start. No pattern of the
    program matches the empty text; after an empty match the scan
    moves on by one character. *)
Fixpoint findall_from (ic : bool) (r : regex) (pos next : nat) (s : string)
    : list string :=
  let found := if Nat.leb next pos then match_at ic r pos s else None in
  let here :=
    match found with
    | Some m => [group1 m]
    | None => []
    end in
  let next' :=
    match found with
    | Some m => Nat.max (m_end m) (S pos)
    | None => next
    end in
  match s with
  | EmptyString => here
  | String _ s' => here ++ findall_from ic r (S pos) next' s'
  end.

Definition re_findall (ic : bool) (r : regex) (s : string) : list string :=
  findall_from ic r 0 0 s.

(** Truth value of a match result. *)
Definition matched (m : option Match) : bool :=
  match m with
  | Some _ => true
  | None => false
  end.

End Re.

(** ** Exceptions *)

(** The result of a call that may raise; [Raise e] carries [str(e)]. *)
Inductive Exc (A : Type) : Type :=
| Ok (a : A)
| Raise (e : string).
Arguments Ok {A} a.
Arguments Raise {A} e.

(** ** The extractor: patterns, validator, normaliser, extractors *)

Import PyStr Re.

Definition cat (rs : list regex) : regex := fold_right Seq Eps rs.

(** [[a-zA-Z0-9_.]{1,30}] *)
Definition handle : regex := Rep handle_char 1 (Some 30).

(** [self.instagram_patterns] *)
Definition instagram_patterns : list regex :=
  [ cat [lit "instagram.com/"; Grp handle];
    cat [lit "instagr.am/"; Grp handle];
    cat [lit "http"; Opt (Chr "s"); lit "://"; Opt (lit "www.");
         lit "instagram.com/"; Grp handle; Opt (Chr "/")];
    cat [Chr "/"; Grp handle; Opt (Chr "/");
         Opt (Seq (Chr "?") (Rep dot 0 None)); Eol] ].

(** [self.invalid_patterns] *)
Definition invalid_patterns : list regex :=
  [ cat [lit ".com"; Opt (lit ".br")];
    lit "gmail";
    lit "google";
    lit "outlook";
    lit "hotmail";
    lit "yahoo";
    lit "email";
    lit "contact";
    lit "contato";
    lit "info";
    lit "admin";
    lit "web";
    lit "site";
    lit "www";
    lit "http";
    lit "https";
    lit "mailto:";
    lit "@gmail.com";
    lit "@hotmail.com";
    lit "@outlook.com";
    lit "@yahoo.com";
    Chr "?";
    Chr "&";
    Chr "=";
    Chr "%";
    Rep isspace 1 None ].

(** Truth value of an [Optional[str]]. *)
Definition truthy (o : option string) : bool :=
  match o with
  | Some (String _ _) => true
  | _ => false
  end.

Definition _is_valid_instagram_username (username : string) : bool :=
  let username_lower := lower username in
  if existsb (fun pattern => matched (re_search false pattern username_lower))
       invalid_patterns
  then false
  else if contains "@" username
          && (endswith username ".com" || endswith username ".com.br"
              || endswith username ".org" || endswith username ".net")
  then false
  else if startswith username "http://" || startswith username "https://"
          || startswith username "www."
  then false
  else if Nat.ltb 30 (String.length username)
  then false
  else if negb (matched (re_match false
                  (cat [Bol; Rep handle_char 1 None; Eol]) username))
  then false
  else true.

Definition _is_direct_instagram_url (url : string) : bool :=
  let patterns :=
    [ lit "instagram.com";
      lit "instagr.am";
      cat [Bol; Chr "@"; Rep handle_char 1 None; Eol] ] in
  let url_lower := lower url in
  existsb (fun pattern => matched (re_search false pattern url_lower)) patterns.

Definition _normalize_instagram_url (url : string) : Exc string :=
  let url_lower := lower url in
  if startswith url_lower "@" then
    match first_word (drop 1 url_lower) with
    | None => Raise "list index out of range"
    | Some username => Ok ("https://www.instagram.com/" +:+ username +:+ "/")
    end
  else
    let url :=
      if startswith url_lower "//" then "https:" +:+ url
      else if startswith url_lower "/" then "https://www.instagram.com" +:+ url
      else if negb (startswith url_lower "http") then "https://" +:+ url
      else url in
    let url :=
      if contains "?" url then
        let base_url := split_head "?" url in
        rstrip_slash base_url
      else url in
    Ok url.

Definition reserved_pages : list string :=
  ["p"; "explore"; "directory"; "accounts"; "reels"; "stories"].

Fixpoint username_from_patterns (patterns : list regex) (url : string)
    : option string :=
  match patterns with
  | [] => None
  | pattern :: rest =>
      match re_search true pattern url with
      | Some m =>
          let username := group1 m in
          let username := split_head "?" username in
          let username := split_head "#" username in
          let username := rstrip_slash username in
          if existsb (String.eqb (lower username)) reserved_pages
          then username_from_patterns rest url
          else Some username
      | None => username_from_patterns rest url
      end
  end.

Definition _extract_username_from_url (url : string) : option string :=
  username_from_patterns instagram_patterns url.

(** The patterns of [_extract_username_from_text]. *)
Definition text_patterns : list regex :=
  [ cat [Chr "@"; Grp handle; NotAhead handle_char];
    cat [lit "instagram.com/"; Grp handle];
    cat [lit "instagr.am/"; Grp handle];
    cat [lit "ig: "; Opt (Chr "@"); Grp handle];
    cat [lit "instagram: "; Opt (Chr "@"); Grp handle];
    cat [lit "insta: "; Opt (Chr "@"); Grp handle] ].

(** The inner loop [for match in matches]. *)
Fixpoint first_wellformed (matches : list string) : option string :=
  match matches with
  | [] => None
  | m :: rest =>
      let username := strip m in
      if matched (re_match false (cat [Bol; handle; Eol]) username)
      then Some username
      else first_wellformed rest
  end.

Fixpoint text_from_patterns (patterns : list regex) (text : string)
    : option string :=
  match patterns with
  | [] => None
  | pattern :: rest =>
      match first_wellformed (re_findall true pattern text) with
      | Some username => Some username
      | None => text_from_patterns rest text
      end
  end.

Definition _extract_username_from_text (text : string) : option string :=
  text_from_patterns text_patterns text.

(** ** Collaborators *)

(** What the program reads of a [requests.Response]. *)
Record Response : Type :=
  { status_code : Z; resp_url : string; resp_text : string }.

(** An [<a href=...>] element: [link['href']] and
    [link.get_text(strip=True)]. *)
Record Anchor : Type := { href : string; link_text : string }.

(** A [<meta>] element: [meta.get('content', '')] and
    [meta.get("property", "")]. *)
Record MetaTag : Type := { content : string; property : string }.

(** What the program reads of a parsed document:
    [soup.find_all('a', href=True)], [soup.get_text()],
    [soup.find_all('meta')], and for a CSS selector the [get_text()] of
    each element of [soup.select(selector)], in document order. *)
Record Soup : Type :=
  { find_all_a : list Anchor;
    get_text : string;
    find_all_meta : list MetaTag;
    select : string -> list string }.

(** What the program reads of an [urlparse] result. *)
Record ParseResult : Type := { scheme : string; netloc : string }.

(** The world outside the program. [session_get url timeout] is
    [self.session.get(url, timeout=..., allow_redirects=True,
    verify=False)]: it answers or raises, and the world moves on.
    [list_of_set] is the order in which [list(links)] enumerates a
    set, which Python leaves unspecified. *)
Class Platform : Type :=
  { World : Type;
    session_get : string -> Z -> World -> World * Exc Response;
    BeautifulSoup : string -> Soup;
    urlparse : string -> Exc ParseResult;
    urljoin : string -> string -> Exc string;
    list_of_set : gset string -> list string;
    list_of_set_spec : forall (s : gset string) (x : string),
        x ∈ list_of_set s <-> x ∈ s }.

(** The fields [__init__] sets from its arguments. *)
Record AdvancedInstagramExtractor : Type :=
  { max_depth : Z; timeout : Z; max_pages : Z }.

(** The dictionary a page scan returns, to which the crawler adds the
    keys [pages_scanned] and [found_on_page]. *)
Record Info : Type :=
  { i_url : string;
    i_username : string;
    i_status : string;
    i_notes : string;
    i_pages_scanned : option Z;
    i_found_on_page : option string }.

(** [d.get(key, default)] *)
Definition dict_get {A : Type} (v : option A) (default : A) : A :=
  match v with
  | Some a => a
  | None => default
  end.

(** The dictionary [extract_instagram_info] returns. *)
Record Outcome : Type :=
  { original_url : string;
    instagram_url : string;
    instagram_username : string;
    status : string;
    notes : string;
    pages_scanned : Z;
    found_on_page : string }.

(** One character given by its code point. *)
Definition chr (n : nat) : string := String (ascii_of_nat n) EmptyString.

(** [f'https://www.instagram.com/{username}/'] *)
Definition profile_url (username : string) : string :=
  "https://www.instagram.com/" +:+ username +:+ "/".

(** A value between double quotes, as in [[class*="insta"]]. *)
Definition q (v : string) : string := dquote +:+ v +:+ dquote.

Definition social_selectors : list string :=
  [ ".social-links"; ".social-icons"; ".social-media";
    ".instagram"; "[class*=" +:+ q "instagram" +:+ "]";
    "[id*=" +:+ q "instagram" +:+ "]";
    ".follow-us"; ".social"; ".share"; ".connect";
    ".instagram"; "#instagram"; "a.instagram";
    "a[href*=" +:+ q "instagram.com" +:+ "]";
    "[class*=" +:+ q "insta" +:+ "]"; "[id*=" +:+ q "insta" +:+ "]";
    "[class*=" +:+ q "ig-" +:+ "]"; "[id*=" +:+ q "ig-" +:+ "]";
    "[class*=" +:+ q "ig_" +:+ "]"; "[id*=" +:+ q "ig_" +:+ "]";
    ".social-instagram"; ".social__instagram"; ".social-link--instagram";
    ".social-icons .instagram"; ".social-links .instagram";
    ".follow-instagram"; ".follow__instagram"; ".follow--instagram";
    ".icon-instagram"; ".icon__instagram"; ".fa-instagram"; ".bi-instagram";
    "[class*=" +:+ q "icon-insta" +:+ "]"; "[class*=" +:+ q "icon-ig" +:+ "]";
    "[class*=" +:+ q "fa-instagram" +:+ "]";
    ".social"; ".social-links"; ".social-icons"; ".follow-us";
    ".footer-social";
    "a[href*=" +:+ q "instagram.com" +:+ "]";
    "a[title*=" +:+ q "instagram" +:+ "]";
    "a[aria-label*=" +:+ q "instagram" +:+ "]";
    "a[data-label*=" +:+ q "instagram" +:+ "]";
    "a[data-social*=" +:+ q "instagram" +:+ "]";
    "[class*=" +:+ q "instagram-feed" +:+ "]";
    "[id*=" +:+ q "instagram-feed" +:+ "]";
    "[class*=" +:+ q "insta-feed" +:+ "]";
    "[id*=" +:+ q "insta-feed" +:+ "]";
    "[class*=" +:+ q "insta-gallery" +:+ "]";
    "[id*=" +:+ q "insta-gallery" +:+ "]";
    "[class*=" +:+ q "instagram-gallery" +:+ "]";
    "[id*=" +:+ q "instagram-gallery" +:+ "]";
    "[class*=" +:+ q "instagram-posts" +:+ "]";
    "[id*=" +:+ q "instagram-posts" +:+ "]";
    "[class*=" +:+ q "elfsight-app" +:+ "]";
    "[data-elfsight-app-lazy*=" +:+ q "instagram" +:+ "]";
    "[data-instagram]"; "[data-insta]";
    "[data-feed*=" +:+ q "instagram" +:+ "]";
    "[class*=" +:+ q "wp-block-instagram" +:+ "]";
    "[class*=" +:+ q "elementor-instagram" +:+ "]";
    "[class*=" +:+ q "shopify-section-instagram" +:+ "]";
    "[class*=" +:+ q "sqs-block-instagram" +:+ "]";
    "a[href*=" +:+ q "instagram.com" +:+ "][target]";
    "a.button[href*=" +:+ q "instagram" +:+ "]";
    "a.btn[href*=" +:+ q "instagram" +:+ "]";
    "a.link[href*=" +:+ q "instagram" +:+ "]" ].

(** ** The page scanner *)

Section Extractor.

Context {platform : Platform}.
Variable self : AdvancedInstagramExtractor.

Definition _normalize_url (url base_url : string) : Exc string :=
  if startswith url "http://" || startswith url "https://" then Ok url
  else if startswith url "//" then Ok ("https:" +:+ url)
  else if startswith url "/" then
    match urlparse base_url with
    | Ok parsed_base =>
        Ok (scheme parsed_base +:+ "://" +:+ netloc parsed_base +:+ url)
    | Raise e => Raise e
    end
  else urljoin base_url url.

(** The body of the [try] in [_extract_links]; the bare [except]
    turns a failure of [urlparse] into [pass]. *)
Definition same_domain (base_url full_url : string) : bool :=
  match urlparse base_url, urlparse full_url with
  | Ok b, Ok u =>
      let base_domain := netloc b in
      let url_domain := netloc u in
      negb (String.eqb base_domain "") && negb (String.eqb url_domain "")
      && contains base_domain url_domain
  | _, _ => false
  end.

Fixpoint collect_links (anchors : list Anchor) (base_url : string)
    (links : gset string) : Exc (gset string) :=
  match anchors with
  | [] => Ok links
  | link :: rest =>
      let href := strip (href link) in
      if String.eqb href ""
         || startswith href "#" || startswith href "javascript:"
         || startswith href "mailto:" || startswith href "tel:"
      then collect_links rest base_url links
      else
        match _normalize_url href base_url with
        | Raise e => Raise e
        | Ok full_url =>
            if same_domain base_url full_url
            then collect_links rest base_url ({[full_url]} ∪ links)
            else collect_links rest base_url links
        end
  end.

Definition _extract_links (html base_url : string) : Exc (list string) :=
  let soup := BeautifulSoup html in
  match collect_links (find_all_a soup) base_url ∅ with
  | Raise e => Raise e
  | Ok links => Ok (list_of_set links)
  end.

Definition found (url username status notes : string) : Info :=
  {| i_url := url; i_username := username; i_status := status;
     i_notes := notes; i_pages_scanned := None; i_found_on_page := None |}.

(** [username and self._is_valid_instagram_username(username)] *)
Definition usable (username : option string) : bool :=
  truthy username && _is_valid_instagram_username (dict_get username "").

(** Step 1 of [_find_instagram_in_page]: the loop over the links. *)
Fixpoint scan_links (anchors : list Anchor) (page_url : string)
    : Exc (option Info) :=
  match anchors with
  | [] => Ok None
  | link :: rest =>
      let href := strip (href link) in
      let in_text :=
        let link_text := link_text link in
        let username := _extract_username_from_text link_text in
        if usable username then
          Ok (Some (found (profile_url (dict_get username ""))
                      (dict_get username "") "found_in_link_text"
                      ("Encontrado no texto do link: " +:+ q link_text)))
        else scan_links rest page_url in
      if _is_direct_instagram_url href then
        match _normalize_url href page_url with
        | Raise e => Raise e
        | Ok normalized_url =>
            let username := _extract_username_from_url normalized_url in
            if usable username then
              Ok (Some (found normalized_url (dict_get username "")
                          "found_in_site"
                          ("Encontrado em link na p" +:+ chr 225 +:+ "gina")))
            else in_text
        end
      else in_text
  end.

(** Step 3: the loop over the meta tags. *)
Fixpoint scan_metas (metas : list MetaTag) : option Info :=
  match metas with
  | [] => None
  | meta :: rest =>
      let content := content meta in
      if negb (String.eqb content "") then
        let username := _extract_username_from_text content in
        if usable username then
          Some (found (profile_url (dict_get username ""))
                  (dict_get username "") "found_in_meta_tag"
                  ("Encontrado em meta tag: " +:+ property meta))
        else scan_metas rest
      else scan_metas rest
  end.

(** Step 4, inner loop: the elements one selector matches. *)
Fixpoint scan_elements (selector : string) (elements : list string)
    : option Info :=
  match elements with
  | [] => None
  | element_text :: rest =>
      let username := _extract_username_from_text element_text in
      if usable username then
        Some (found (profile_url (dict_get username ""))
                (dict_get username "") "found_in_social_section"
                ("Encontrado na se" +:+ chr 231 +:+ chr 227 +:+ "o: "
                 +:+ selector))
      else scan_elements selector rest
  end.

(** Step 4, outer loop: the selectors in their order. *)
Fixpoint scan_selectors (soup : Soup) (selectors : list string)
    : option Info :=
  match selectors with
  | [] => None
  | selector :: rest =>
      match scan_elements selector (select soup selector) with
      | Some info => Some info
      | None => scan_selectors soup rest
      end
  end.

Definition _find_instagram_in_page (html page_url : string)
    : Exc (option Info) :=
  let soup := BeautifulSoup html in
  match scan_links (find_all_a soup) page_url with
  | Raise e => Raise e
  | Ok (Some info) => Ok (Some info)
  | Ok None =>
      let page_text := get_text soup in
      let username := _extract_username_from_text page_text in
      if usable username then
        Ok (Some (found (profile_url (dict_get username ""))
                    (dict_get username "") "found_in_page_text"
                    ("Encontrado no texto da p" +:+ chr 225 +:+ "gina")))
      else
        match scan_metas (find_all_meta soup) with
        | Some info => Ok (Some info)
        | None => Ok (scan_selectors soup social_selectors)
        end
  end.

(** ** The site crawler *)

(** The variables of [_crawl_site_for_instagram] while its loop runs,
    with the world. Two more fields record what the loop did and
    steer nothing: [requests] lists each [session.get] in order, with
    whether the answer had status 200, and [enqueued] lists each
    entry ever put in [urls_to_visit], the first one included. *)
Record CrawlState : Type :=
  { world : World;
    visited_urls : gset string;
    urls_to_visit : list (string * Z);
    scanned : Z;
    requests : list (string * bool);
    enqueued : list (string * Z) }.

(** [instagram_info['pages_scanned'] = pages_scanned;
    instagram_info['found_on_page'] = response.url] *)
Definition stamp (info : Info) (pages_scanned : Z) (page : string) : Info :=
  {| i_url := i_url info; i_username := i_username info;
     i_status := i_status info; i_notes := i_notes info;
     i_pages_scanned := Some pages_scanned;
     i_found_on_page := Some page |}.

(** The body of the [try] for the entry [(current_url, depth)], once
    popped. It returns the state it leaves behind together with
    [Ok (Some info)] when the function returns [info], [Ok None] when
    the body ends, and [Raise e] when it raises. The pause
    [time.sleep(0.5)] changes none of the variables. *)
Definition visit (current_url : string) (depth : Z) (st : CrawlState)
    : CrawlState * Exc (option Info) :=
  let '(w, answer) := session_get current_url (timeout self) (world st) in
  match answer with
  | Raise e =>
      ({| world := w; visited_urls := visited_urls st;
          urls_to_visit := urls_to_visit st; scanned := scanned st;
          requests := requests st ++ [(current_url, false)];
          enqueued := enqueued st |}, Raise e)
  | Ok response =>
      if Z.eqb (status_code response) 200 then
        let pages_scanned := (scanned st + 1)%Z in
        let visited := {[current_url]} ∪ visited_urls st in
        let st1 :=
          {| world := w; visited_urls := visited;
             urls_to_visit := urls_to_visit st; scanned := pages_scanned;
             requests := requests st ++ [(current_url, true)];
             enqueued := enqueued st |} in
        match _find_instagram_in_page (resp_text response)
                (resp_url response) with
        | Raise e => (st1, Raise e)
        | Ok (Some instagram_info) =>
            (st1, Ok (Some (stamp instagram_info pages_scanned
                              (resp_url response))))
        | Ok None =>
            if Z.ltb depth (max_depth self) then
              match _extract_links (resp_text response)
                      (resp_url response) with
              | Raise e => (st1, Raise e)
              | Ok new_links =>
                  let fresh :=
                    map (fun link => (link, (depth + 1)%Z))
                      (filter (fun link => link ∉ visited) new_links) in
                  ({| world := w; visited_urls := visited;
                      urls_to_visit := urls_to_visit st ++ fresh;
                      scanned := pages_scanned;
                      requests := requests st ++ [(current_url, true)];
                      enqueued := enqueued st ++ fresh |}, Ok None)
              end
            else (st1, Ok None)
        end
      else
        ({| world := w; visited_urls := visited_urls st;
            urls_to_visit := urls_to_visit st; scanned := scanned st;
            requests := requests st ++ [(current_url, false)];
            enqueued := enqueued st |}, Ok None)
  end.

(** What one turn of the [while] loop does. *)
Inductive Flow : Type :=
| Next (st : CrawlState)                     (* to the next turn *)
| Stop (st : CrawlState) (r : option Info).  (* the function returns *)

(** [urls_to_visit.pop(0)] has removed the head. *)
Definition popped (st : CrawlState) (rest : list (string * Z)) : CrawlState :=
  {| world := world st; visited_urls := visited_urls st;
     urls_to_visit := rest; scanned := scanned st;
     requests := requests st; enqueued := enqueued st |}.

Definition crawl_turn (st : CrawlState) : Flow :=
  match urls_to_visit st with
  | [] => Stop st None
  | (current_url, depth) :: rest =>
      if Z.ltb (scanned st) (max_pages self) then
        let st := popped st rest in
        if bool_decide (current_url ∈ visited_urls st) then Next st
        else if Z.ltb (max_depth self) depth then Next st
        else
          match visit current_url depth st with
          | (st', Raise _) => Next st'
          | (st', Ok (Some instagram_info)) => Stop st' (Some instagram_info)
          | (st', Ok None) => Next st'
          end
      else Stop st None
  end.

(** Pages still allowed, then entries still queued. *)
Definition budget (st : CrawlState) : nat * nat :=
  (Z.to_nat (max_pages self - scanned st), length (urls_to_visit st)).

(** The loop [while urls_to_visit and pages_scanned < self.max_pages]
    with the final [return None]. *)
Equations? crawl_loop (st : CrawlState) : CrawlState * option Info
  by wf (budget st) (Subterm.lexprod nat nat lt lt) :=
crawl_loop st with inspect (crawl_turn st) := {
  | exist _ (Stop st' r) _ => (st', r)
  | exist _ (Next st') H => crawl_loop st' }.
Proof.
  revert H.
  unfold crawl_turn, budget.
  destruct st as [w vis queue n log enq]; simpl.
  destruct queue as [|[current_url depth] rest]; [discriminate|].
  destruct (Z.ltb_spec n (max_pages self)) as [Hlt|]; [|discriminate].
  assert (Hskip : Subterm.lexprod nat nat lt lt
            (Z.to_nat (max_pages self - n), length rest)
            (Z.to_nat (max_pages self - n), length ((current_url, depth) :: rest))).
  { right. simpl. lia. }
  case_bool_decide; [intros [= <-]; exact Hskip|].
  destruct (Z.ltb (max_depth self) depth); [intros [= <-]; exact Hskip|].
  unfold visit, popped; simpl.
  destruct (session_get current_url (timeout self) w) as [w' [response|e]].
  2: { intros [= <-]. exact Hskip. }
  destruct (Z.eqb (status_code response) 200).
  2: { intros [= <-]. exact Hskip. }
  assert (Hpage : forall k, Subterm.lexprod nat nat lt lt
            (Z.to_nat (max_pages self - (n + 1)), k)
            (Z.to_nat (max_pages self - n), length ((current_url, depth) :: rest))).
  { intros k. left. lia. }
  destruct (_find_instagram_in_page _ _) as [[info|]|e].
  - discriminate.
  - destruct (Z.ltb depth (max_depth self)).
    + destruct (_extract_links _ _); intros [= <-]; apply Hpage.
    + intros [= <-]. apply Hpage.
  - intros [= <-]. apply Hpage.
Qed.

(** The state at the top of the loop: [self.visited_urls.clear()],
    [urls_to_visit = [(start_url, 0)]], [pages_scanned = 0]. *)
Definition initial (start_url : string) (w : World) : CrawlState :=
  {| world := w; visited_urls := ∅;
     urls_to_visit := [(start_url, 0%Z)]; scanned := 0;
     requests := []; enqueued := [(start_url, 0%Z)] |}.

(** [if not start_url.startswith(('http://', 'https://')):
    start_url = 'http://' + start_url] *)
Definition with_scheme (start_url : string) : string :=
  if negb (startswith start_url "http://" || startswith start_url "https://")
  then "http://" +:+ start_url else start_url.

Definition _crawl_site_for_instagram (start_url : string) (w : World)
    : CrawlState * Exc (option Info) :=
  let start_url := with_scheme start_url in
  let '(st, r) := crawl_loop (initial start_url w) in
  (st, Ok r).

(** ** The entry point *)

Definition set_status (v : string) (r : Outcome) : Outcome :=
  {| original_url := original_url r; instagram_url := instagram_url r;
     instagram_username := instagram_username r; status := v;
     notes := notes r; pages_scanned := pages_scanned r;
     found_on_page := found_on_page r |}.

Definition set_notes (v : string) (r : Outcome) : Outcome :=
  {| original_url := original_url r; instagram_url := instagram_url r;
     instagram_username := instagram_username r; status := status r;
     notes := v; pages_scanned := pages_scanned r;
     found_on_page := found_on_page r |}.

Definition set_instagram_url (v : string) (r : Outcome) : Outcome :=
  {| original_url := original_url r; instagram_url := v;
     instagram_username := instagram_username r; status := status r;
     notes := notes r; pages_scanned := pages_scanned r;
     found_on_page := found_on_page r |}.

Definition set_instagram_username (v : string) (r : Outcome) : Outcome :=
  {| original_url := original_url r; instagram_url := instagram_url r;
     instagram_username := v; status := status r;
     notes := notes r; pages_scanned := pages_scanned r;
     found_on_page := found_on_page r |}.

Definition set_pages_scanned (v : Z) (r : Outcome) : Outcome :=
  {| original_url := original_url r; instagram_url := instagram_url r;
     instagram_username := instagram_username r; status := status r;
     notes := notes r; pages_scanned := v;
     found_on_page := found_on_page r |}.

Definition set_found_on_page (v : string) (r : Outcome) : Outcome :=
  {| original_url := original_url r; instagram_url := instagram_url r;
     instagram_username := instagram_username r; status := status r;
     notes := notes r; pages_scanned := pages_scanned r;
     found_on_page := v |}.

(** The words [Nome de usuario invalido] with their two accented
    letters. *)
Definition invalid_name : string :=
  "Nome de usu" +:+ chr 225 +:+ "rio inv" +:+ chr 225 +:+ "lido".

(** Step 3 of [extract_instagram_info]: the [try] block that crawls the
    site and fills [result], with its [except Exception]. *)
Definition crawl_and_report (result : Outcome) (url_str : string) (w : World)
    : World * Exc Outcome :=
  match _crawl_site_for_instagram url_str w with
  | (st, Ok (Some instagram_info)) =>
      let username := i_username instagram_info in
      if _is_valid_instagram_username username then
        (world st,
         Ok (set_found_on_page
               (dict_get (i_found_on_page instagram_info) "")
               (set_pages_scanned
                  (dict_get (i_pages_scanned instagram_info) 0%Z)
                  (set_notes (i_notes instagram_info)
                     (set_status (i_status instagram_info)
                        (set_instagram_username username
                           (set_instagram_url (i_url instagram_info)
                              result)))))))
      else
        (world st,
         Ok (set_pages_scanned
               (dict_get (i_pages_scanned instagram_info) 0%Z)
               (set_notes (invalid_name +:+ " encontrado: " +:+ username)
                  (set_status "invalid_username_crawled" result))))
  | (st, Ok None) =>
      (world st,
       Ok (set_notes ("Varridas " +:+ str_of_int (pages_scanned result)
                      +:+ " p" +:+ chr 225 +:+ "ginas, Instagram n"
                      +:+ chr 227 +:+ "o encontrado")
             (set_status "not_found_after_scan" result)))
  | (st, Raise e) =>
      (world st,
       Ok (set_notes ("Erro na varredura: " +:+ e)
             (set_status "crawl_error" result)))
  end.

(** The dictionary [result] as the function first builds it. *)
Definition blank_result (url : string) : Outcome :=
  {| original_url := url; instagram_url := ""; instagram_username := "";
     status := "no_instagram"; notes := ""; pages_scanned := 0;
     found_on_page := "" |}.

(** The input is a [str], on which the opening test
    [not url or pd.isna(url) or str(url).strip() == ...] is its first
    and its last disjunct. The result is the world after the call,
    with the dictionary returned or the exception that leaves the
    function. *)
Definition extract_instagram_info (url : string) (w : World)
    : World * Exc Outcome :=
  let result := blank_result url in
  if String.eqb url "" || String.eqb (strip url) "" then
    (w, Ok (set_status "empty" result))
  else
    let url_str := strip url in
    let url_str := remove_spaces url_str in
    if _is_direct_instagram_url url_str then
      match _normalize_instagram_url url_str with
      | Raise e => (w, Raise e)
      | Ok normalized_url =>
          let result := set_instagram_url normalized_url result in
          let username := _extract_username_from_url normalized_url in
          if usable username then
            (w, Ok (set_notes "Link direto do Instagram"
                      (set_status "found_direct"
                         (set_instagram_username (dict_get username "")
                            result))))
          else if truthy username then
            (w, Ok (set_notes (invalid_name +:+ ": " +:+ dict_get username "")
                      (set_status "invalid_username" result)))
          else (w, Ok result)
      end
    else
      let username_from_text := _extract_username_from_text url_str in
      if truthy username_from_text then
        let username_from_text := dict_get username_from_text "" in
        if _is_valid_instagram_username username_from_text then
          (w, Ok (set_notes ("Extra" +:+ chr 237 +:+ "do de texto com @")
                    (set_status "found_from_text"
                       (set_instagram_url (profile_url username_from_text)
                          (set_instagram_username username_from_text
                             result)))))
        else
          (w, Ok (set_notes (invalid_name +:+ " extra" +:+ chr 237
                             +:+ "do de texto: " +:+ username_from_text)
                    (set_status "invalid_username_from_text" result)))
      else crawl_and_report result url_str w.

End Extractor.

(** * The vocabulary of the properties *)

(** ** Strings and candidates *)

(** [s] holds [d] as a substring. *)
Definition has_substring (d s : string) : Prop :=
  exists pre post, s = pre +:+ d +:+ post.

(** [s] holds a character of the set [p]. *)
Definition has_char (p : ascii -> bool) (s : string) : Prop :=
  exists pre c post, s = pre +:+ String c post /\ p c = true.

(** The boolean form of [has_char]. *)
Fixpoint any_char (p : ascii -> bool) (s : string) : bool :=
  match s with
  | EmptyString => false
  | String c s' => p c || any_char p s'
  end.

(** A continuation that accepts whatever it is given. *)
Definition accepting (k : K) : Prop := forall pos s g, k pos s g <> None.

(** The substrings the validator is documented to refuse. *)
Definition denylisted : list string :=
  [ ".com"; ".com.br"; "gmail"; "google"; "outlook"; "hotmail"; "yahoo";
    "email"; "contact"; "contato"; "info"; "admin"; "web"; "site"; "www";
    "http"; "https"; "mailto:"; "@gmail.com"; "@hotmail.com";
    "@outlook.com"; "@yahoo.com" ].

(** [s] holds [d] when the case of letters is ignored. *)
Definition contains_ignoring_case (d s : string) : Prop :=
  has_substring (lower d) (lower s).

(** The characters [?], [&], [=], [%] and whitespace. *)
Definition forbidden_char (c : ascii) : bool :=
  Ascii.eqb c "?" || Ascii.eqb c "&" || Ascii.eqb c "=" || Ascii.eqb c "%"
  || isspace c.

(** The candidates the validator is claimed to refuse. *)
Definition refused (s : string) : Prop :=
  (exists d, In d denylisted /\ contains_ignoring_case d s)
  \/ has_char forbidden_char s
  \/ has_char (fun c => negb (handle_char c)) s
  \/ 30 < String.length s.

(** The scheme or host the normaliser puts in front of its input. *)
Definition completion (url : string) : string :=
  let url_lower := lower url in
  if startswith url_lower "//" then "https:"
  else if startswith url_lower "/" then "https://www.instagram.com"
  else if negb (startswith url_lower "http") then "https://"
  else "".

(** ** Scripted worlds *)

(** A scripted site: the answer to each URL that answers (status and
    body), and the document each body parses to. Any other URL times
    out. The world has no state of its own. *)
Record Script : Type :=
  { answers : list (string * (Z * string));
    documents : list (string * Soup) }.

Fixpoint lookup_key {A : Type} (key : string) (table : list (string * A))
    : option A :=
  match table with
  | [] => None
  | (k, v) :: rest => if String.eqb k key then Some v else lookup_key key rest
  end.

Definition blank : Soup :=
  {| find_all_a := []; get_text := ""; find_all_meta := [];
     select := fun _ => [] |}.

(** [urlparse] on URLs of the shape [scheme://host/path]. *)
Definition simple_urlparse (url : string) : Exc ParseResult :=
  let scheme := split_head ":" url in
  Ok {| scheme := scheme;
        netloc := split_head "/" (drop (String.length scheme + 3) url) |}.

(** The scripted sites link with absolute URLs only, so their runs
    never reach [urljoin]. *)
Definition no_urljoin (base url : string) : Exc string :=
  Raise "urljoin is not scripted".

Definition scripted (site : Script) : Platform :=
  {| World := unit;
     session_get := fun url _ w =>
       match lookup_key url (answers site) with
       | Some (code, body) =>
           (w, Ok {| status_code := code; resp_url := url; resp_text := body |})
       | None => (w, Raise "Read timed out.")
       end;
     BeautifulSoup := fun html =>
       match lookup_key html (documents site) with
       | Some soup => soup
       | None => blank
       end;
     urlparse := simple_urlparse;
     urljoin := no_urljoin;
     list_of_set := elements;
     list_of_set_spec := fun s x => elem_of_elements s x |}.

(** No URL answers. *)
Definition offline : Script := {| answers := []; documents := [] |}.

(** The defaults of [__init__]. *)
Definition defaults : AdvancedInstagramExtractor :=
  {| max_depth := 2; timeout := 10; max_pages := 5 |}.

(** ** Crawls and outcomes *)


(** What a page scan can return. *)
Definition scan_result (info : Info) : Prop :=
  _is_valid_instagram_username (i_username info) = true
  /\ (i_status info = "found_in_site"
      \/ (In (i_status info)
             ["found_in_link_text"; "found_in_page_text"; "found_in_meta_tag";
              "found_in_social_section"]
          /\ i_url info = profile_url (i_username info))).

(** The requests answered with status 200. *)
Definition pages (log : list (string * bool)) : list (string * bool) :=
  List.filter (fun e => snd e) log.

(** Once a URL was answered with status 200 it is not requested again. *)
Definition never_again (log : list (string * bool)) : Prop :=
  forall l1 u l2, log = l1 ++ (u, true) :: l2 -> ~ In u (map fst l2).

(** What the function returns when it returns a dictionary. *)
Definition crawl_result (r : option Info) : Prop :=
  forall info, r = Some info ->
    exists found_info n page,
      info = stamp found_info n page /\ scan_result found_info.

(** The status codes of the specification. *)
Definition StatusCode : list string :=
  [ "empty"; "found_direct"; "found_from_text"; "found_in_site";
    "found_in_link_text"; "found_in_page_text"; "found_in_meta_tag";
    "found_in_social_section"; "invalid_username";
    "invalid_username_from_text"; "invalid_username_crawled";
    "not_found_after_scan"; "crawl_error" ].

(** The [found_*] kinds. *)
Definition found_kinds : list string :=
  [ "found_direct"; "found_from_text"; "found_in_site";
    "found_in_link_text"; "found_in_page_text"; "found_in_meta_tag";
    "found_in_social_section" ].

(** The kinds whose profile URL is built from the username. *)
Definition built_kinds : list string :=
  [ "found_from_text"; "found_in_link_text"; "found_in_page_text";
    "found_in_meta_tag"; "found_in_social_section" ].

(** The three shapes of a returned dictionary. *)
Inductive shape (o : Outcome) : Prop :=
| shape_none :
    In (status o)
      [ "empty"; "no_instagram"; "invalid_username";
        "invalid_username_from_text"; "invalid_username_crawled";
        "not_found_after_scan" ] ->
    instagram_username o = "" ->
    shape o
| shape_url :
    In (status o) ["found_direct"; "found_in_site"] ->
    _is_valid_instagram_username (instagram_username o) = true ->
    shape o
| shape_built :
    In (status o) built_kinds ->
    _is_valid_instagram_username (instagram_username o) = true ->
    instagram_url o = profile_url (instagram_username o) ->
    shape o.

(** What C1 asks of a returned dictionary. *)
Definition status_invariant (o : Outcome) : Prop :=
  In (status o) StatusCode
  /\ (instagram_username o <> "" <-> In (status o) found_kinds).

(** The loop with a bound on its turns, to run it on closed states. *)
Fixpoint crawl_turns {platform : Platform} (self : AdvancedInstagramExtractor)
    (turns : nat) (st : CrawlState) : option (CrawlState * option Info) :=
  match turns with
  | O => None
  | S turns' =>
      match crawl_turn self st with
      | Stop st' r => Some (st', r)
      | Next st' => crawl_turns self turns' st'
      end
  end.

(** ** Three scripted sites *)

(** A home page that links to [/a] and [/b]; [/a] links to [/b]; [/b]
    answers 404. No page names a handle. *)
Definition three : Script :=
  {| answers :=
       [ ("http://shop.test", (200%Z, "home"));
         ("http://shop.test/a", (200%Z, "a"));
         ("http://shop.test/b", (404%Z, "gone")) ];
     documents :=
       [ ("home",
          {| find_all_a :=
               [ {| href := "http://shop.test/a"; link_text := "About" |};
                 {| href := "http://shop.test/b"; link_text := "Blog" |} ];
             get_text := "About Blog"; find_all_meta := [];
             select := fun _ => [] |});
         ("a",
          {| find_all_a :=
               [ {| href := "http://shop.test/b"; link_text := "Blog" |} ];
             get_text := "Blog"; find_all_meta := [];
             select := fun _ => [] |}) ] |}.

Definition three_pages_max : AdvancedInstagramExtractor :=
  {| max_depth := 2; timeout := 10; max_pages := 3 |}.

(** One page, which answers and names no handle. *)
Definition plain : Script :=
  {| answers := [ ("http://plain.test", (200%Z, "home")) ];
     documents :=
       [ ("home",
          {| find_all_a := []; get_text := "Welcome"; find_all_meta := [];
             select := fun _ => [] |}) ] |}.

Definition one_page_max : AdvancedInstagramExtractor :=
  {| max_depth := 2; timeout := 10; max_pages := 1 |}.

(** A home page whose one link reads [Follow @acme_store]. *)
Definition acme : Script :=
  {| answers := [ ("http://acme.test", (200%Z, "home")) ];
     documents :=
       [ ("home",
          {| find_all_a :=
               [ {| href := "/follow"; link_text := "Follow @acme_store" |} ];
             get_text := "Follow @acme_store"; find_all_meta := [];
             select := fun _ => [] |}) ] |}.

Definition acme_outcome : Outcome :=
  {| original_url := "acme.test";
     instagram_url := "https://www.instagram.com/acme_store/";
     instagram_username := "acme_store";
     status := "found_in_link_text";
     notes := "Encontrado no texto do link: " +:+ q "Follow @acme_store";
     pages_scanned := 1;
     found_on_page := "http://acme.test" |}.

(** ** One turn of the loop *)

Section CrawlVocabulary.

Context {platform : Platform}.
Variable self : AdvancedInstagramExtractor.

(** The four ways a turn of the loop can go. *)
Inductive turn (st : CrawlState) : Flow -> Prop :=
| turn_end :
    urls_to_visit st = [] \/ (max_pages self <= scanned st)%Z ->
    turn st (Stop st None)
| turn_skip current_url depth rest :
    urls_to_visit st = (current_url, depth) :: rest ->
    (scanned st < max_pages self)%Z ->
    current_url ∈ visited_urls st \/ (max_depth self < depth)%Z ->
    turn st (Next (popped st rest))
| turn_failed current_url depth rest w :
    urls_to_visit st = (current_url, depth) :: rest ->
    (scanned st < max_pages self)%Z ->
    current_url ∉ visited_urls st ->
    (depth <= max_depth self)%Z ->
    turn st
      (Next {| world := w; visited_urls := visited_urls st;
               urls_to_visit := rest; scanned := scanned st;
               requests := requests st ++ [(current_url, false)];
               enqueued := enqueued st |})
| turn_scanned current_url depth rest w fresh fl :
    urls_to_visit st = (current_url, depth) :: rest ->
    (scanned st < max_pages self)%Z ->
    current_url ∉ visited_urls st ->
    (depth <= max_depth self)%Z ->
    fresh = [] \/ ((depth < max_depth self)%Z
                   /\ Forall (fun e => snd e = (depth + 1)%Z) fresh) ->
    let st' :=
      {| world := w; visited_urls := {[current_url]} ∪ visited_urls st;
         urls_to_visit := rest ++ fresh; scanned := (scanned st + 1)%Z;
         requests := requests st ++ [(current_url, true)];
         enqueued := enqueued st ++ fresh |} in
    fl = Next st'
    \/ (exists info page,
          fl = Stop st' (Some (stamp info (scanned st + 1)%Z page))
          /\ scan_result info) ->
    turn st fl.

(** The state a turn leaves. *)
Definition after (fl : Flow) : CrawlState :=
  match fl with
  | Next st => st
  | Stop st _ => st
  end.

(** What the loop maintains. *)
Definition crawl_inv (st : CrawlState) : Prop :=
  Forall (fun e => (snd e <= max_depth self)%Z) (enqueued st)
  /\ scanned st = Z.of_nat (length (pages (requests st)))
  /\ (scanned st <= max_pages self)%Z
  /\ (forall u, In (u, true) (requests st) -> u ∈ visited_urls st)
  /\ never_again (requests st).

End CrawlVocabulary.

(** ** Handles and patterns *)

(** Every character of [s] is in the set [p]. *)
Fixpoint all_char (p : ascii -> bool) (s : string) : bool :=
  match s with
  | EmptyString => true
  | String c s' => p c && all_char p s'
  end.

(** One to thirty characters of [[a-zA-Z0-9_.]]. *)
Definition is_handle (h : string) : bool :=
  Nat.leb 1 (String.length h) && Nat.leb (String.length h) 30
  && all_char handle_char h.

(** No denylisted substring, whatever the case of the letters. *)
Definition clean (username : string) : bool :=
  forallb (fun d => negb (contains d (lower username))) denylisted.

(** A pattern without a group. *)
Fixpoint groupless (r : regex) : bool :=
  match r with
  | Grp _ => false
  | Seq r1 r2 => groupless r1 && groupless r2
  | Opt r1 => groupless r1
  | _ => true
  end.

(** [m] respects the upper bound [hi] of a repetition. *)
Definition bounded (m : nat) (hi : option nat) : Prop :=
  match hi with
  | None => True
  | Some h => m <= h
  end.

(** A pattern whose one group is [([a-zA-Z0-9_.]{1,30})]. *)
Definition handle_pattern (r : regex) : Prop :=
  exists before behind,
    forallb groupless before = true
    /\ forallb groupless behind = true
    /\ r = cat (before ++ Grp handle :: behind).

(** [rest] cannot prolong a run of characters of [p]. *)
Definition boundary (p : ascii -> bool) (rest : string) : Prop :=
  match rest with
  | EmptyString => True
  | String c _ => p c = false
  end.

(** The status [extract_instagram_info] gives to the input [@h]. *)
Definition at_handle_status (h : string) : string :=
  if existsb (String.eqb (lower h)) reserved_pages then "no_instagram"
  else if _is_valid_instagram_username (lower h) then "found_direct"
  else "invalid_username".

(** The line feed as a string. *)
Definition newline : string := String "010" EmptyString.

(** [t] is [@] and a non-empty run of [[a-zA-Z0-9_.]], with or without
    a final line feed: what [^@[a-zA-Z0-9_.]+$] matches. *)
Definition at_form (t : string) : Prop :=
  exists h,
    h <> "" /\ all_char handle_char h = true
    /\ (t = "@" +:+ h \/ t = "@" +:+ h +:+ newline).

(** ** The order of a crawl *)

(** Depths never decrease along [entries]. *)
Definition by_depth (entries : list (string * Z)) : Prop :=
  Sorted.StronglySorted (fun a b => (snd a <= snd b)%Z) entries.

(** The discipline of the queue [urls_to_visit]: it is what is left of
    [enqueued] once the entries [done] were popped, no two of its
    entries are more than one level apart, and the requests made so
    far went to popped entries, in their order. *)
Definition queue_inv {platform : Platform} (first : string * Z)
    (st : CrawlState) : Prop :=
  by_depth (enqueued st)
  /\ (forall a b, In a (urls_to_visit st) -> In b (urls_to_visit st) ->
        (snd b <= snd a + 1)%Z)
  /\ exists done,
       enqueued st = done ++ urls_to_visit st
       /\ map fst (requests st) `sublist_of` map fst done
       /\ hd_error (enqueued st) = Some first.

(** ** The outcomes by their origin *)

(** The statuses a page scan gives. *)
Definition crawl_kinds : list string :=
  [ "found_in_site"; "found_in_link_text"; "found_in_page_text";
    "found_in_meta_tag"; "found_in_social_section" ].

(** The statuses given before any page is requested. *)
Definition offline_kinds : list string :=
  [ "empty"; "no_instagram"; "found_direct"; "invalid_username";
    "found_from_text"; "invalid_username_from_text" ].

(** An extractor that may scan no page. *)
Definition no_page : AdvancedInstagramExtractor :=
  {| max_depth := 2; timeout := 10; max_pages := 0 |}.

(** ** Links and page scans *)

(** [_extract_links] keeps [link] for the anchor [a] of a page at
    [base_url]: the stripped [href] is not empty and is no fragment,
    script, mail or telephone reference, [link] is its absolute form,
    and the domain of [base_url], which is not empty, occurs in the
    domain of [link]. *)
Definition kept_link {platform : Platform} (base_url : string) (a : Anchor)
    (link : string) : Prop :=
  let href := strip (href a) in
  href <> ""
  /\ startswith href "#" = false
  /\ startswith href "javascript:" = false
  /\ startswith href "mailto:" = false
  /\ startswith href "tel:" = false
  /\ _normalize_url href base_url = Ok link
  /\ exists b u,
       urlparse base_url = Ok b /\ urlparse link = Ok u
       /\ netloc b <> "" /\ netloc u <> ""
       /\ contains (netloc b) (netloc u) = true.

(** The document [home] of the scripted site [three]. *)
Definition three_home_links : list string :=
  ["http://shop.test/a"; "http://shop.test/b"].

(** [username], as an extractor returned it, is no handle that the
    validator accepts. *)
Definition no_handle (username : option string) : Prop :=
  forall h, username = Some h -> _is_valid_instagram_username h = false.

(** No step of the page scan finds a handle in the document [soup] of
    the page at [page_url]: not in the [href] of a link nor in its
    text, not in the text of the page, not in the content of a meta
    tag, not in an element of a social section. *)
Definition nothing_usable {platform : Platform} (soup : Soup)
    (page_url : string) : Prop :=
  (forall a, In a (find_all_a soup) ->
     (_is_direct_instagram_url (strip (href a)) = true ->
      exists normalized_url,
        _normalize_url (strip (href a)) page_url = Ok normalized_url
        /\ no_handle (_extract_username_from_url normalized_url))
     /\ no_handle (_extract_username_from_text (link_text a)))
  /\ no_handle (_extract_username_from_text (get_text soup))
  /\ (forall m, In m (find_all_meta soup) ->
        no_handle (_extract_username_from_text (content m)))
  /\ (forall selector element_text,
        In selector social_selectors ->
        In element_text (select soup selector) ->
        no_handle (_extract_username_from_text element_text)).

(** ** Inputs and outcomes *)

(** The dictionary [r] with another [original_url]. *)
Definition with_original_url (v : string) (r : Outcome) : Outcome :=
  {| original_url := v; instagram_url := instagram_url r;
     instagram_username := instagram_username r; status := status r;
     notes := notes r; pages_scanned := pages_scanned r;
     found_on_page := found_on_page r |}.

(** What [extract_instagram_info] returns for [@acme_store]. *)
Definition acme_direct : Outcome :=
  {| original_url := "@acme_store";
     instagram_url := "https://www.instagram.com/acme_store/";
     instagram_username := "acme_store";
     status := "found_direct";
     notes := "Link direto do Instagram";
     pages_scanned := 0;
     found_on_page := "" |}.

(** What the crawl of the scripted site [acme] returns. *)
Definition acme_info : Info :=
  {| i_url := "https://www.instagram.com/acme_store/";
     i_username := "acme_store";
     i_status := "found_in_link_text";
     i_notes := "Encontrado no texto do link: " +:+ q "Follow @acme_store";
     i_pages_scanned := Some 1%Z;
     i_found_on_page := Some "http://acme.test" |}.

(** ** Where the crawler goes *)

(** The answers to requests for [urls], made in this order from the
    world [w], and the world they leave. *)
Fixpoint replay {platform : Platform} (self : AdvancedInstagramExtractor)
    (urls : list string) (w : World) : list (Exc Response) * World :=
  match urls with
  | [] => ([], w)
  | u :: rest =>
      let '(w', answer) := session_get u (timeout self) w in
      let '(more, w'') := replay self rest w' in
      (answer :: more, w'')
  end.

(** The request was answered, with status 200. *)
Definition answered_ok (answer : Exc Response) : bool :=
  match answer with
  | Ok response => Z.eqb (status_code response) 200
  | Raise _ => false
  end.

(** [link] is one of the links [_extract_links] returns for one of the
    answers [given], which has status 200. *)
Definition link_of_an_answer {platform : Platform}
    (given : list (Exc Response)) (link : string) : Prop :=
  exists response links,
    In (Ok response) given
    /\ status_code response = 200%Z
    /\ _extract_links (resp_text response) (resp_url response) = Ok links
    /\ In link links.

(** What the loop maintains between its logs and the world: the
    requests logged, made again in their order from the world [w] in
    which the crawl began, are answered by [given] and leave the world
    of the state; the log tells which of them had status 200; every
    entry queued is [first] or a link of one of these answers. *)
Definition follow_inv {platform : Platform}
    (self : AdvancedInstagramExtractor) (w : World) (first : string * Z)
    (st : CrawlState) : Prop :=
  exists given,
    replay self (map fst (requests st)) w = (given, world st)
    /\ map snd (requests st) = map answered_ok given
    /\ Forall (fun e => e = first \/ link_of_an_answer given (fst e))
         (enqueued st).

(** [info] is what a page scan returned, with the stamp of the
    crawler. *)
Definition scanned_on_a_page {platform : Platform} (info : Info) : Prop :=
  exists found_info n html page_url,
    _find_instagram_in_page html page_url = Ok (Some found_info)
    /\ info = stamp found_info n page_url.

(** * Properties *)

(** ** Characters and strings *)

(** Case analysis over the 256 characters. *)
Ltac each_char c :=
  destruct c as [[] [] [] [] [] [] [] []]; vm_compute; try reflexivity;
  try discriminate; try congruence.

Lemma isspace_lower_char (c : ascii) : isspace (lower_char c) = isspace c.
Proof. each_char c. Qed.

Lemma handle_char_ignorecase (c : ascii) :
  in_set true handle_char c = handle_char c.
Proof. each_char c. Qed.

Lemma lower_char_at (c : ascii) : lower_char c = "@"%char -> c = "@"%char.
Proof. each_char c. Qed.

Lemma lower_app (s t : string) : lower (s +:+ t) = lower s +:+ lower t.
Proof. induction s as [|c s IH]; simpl; [reflexivity | now rewrite IH]. Qed.

Lemma startswith_true (s p : string) :
  startswith s p = true <-> exists t, s = p +:+ t.
Proof.
  revert s. induction p as [|a p IH]; intros s; simpl.
  - split; [exists s; reflexivity | reflexivity].
  - destruct s as [|b s].
    + split; [discriminate | intros [t Ht]; discriminate].
    + rewrite andb_true_iff, Ascii.eqb_eq, IH. split.
      * intros [-> [t ->]]. exists t. reflexivity.
      * intros [t Ht]. injection Ht as -> ->. eauto.
Qed.

Lemma contains_true (p s : string) :
  contains p s = true <-> has_substring p s.
Proof.
  unfold has_substring. induction s as [|c s IH]; simpl.
  - rewrite orb_false_r, startswith_true. split.
    + intros [t Ht]. exists "", t. exact Ht.
    + intros [[|a pre] [post H]]; [exists post; exact H | discriminate].
  - rewrite orb_true_iff, startswith_true, IH. split.
    + intros [[t Ht]|[pre [post H]]].
      * exists "", t. exact Ht.
      * exists (String c pre), post. simpl. now rewrite H.
    + intros [[|a pre] [post H]].
      * left. exists post. exact H.
      * right. exists pre, post. simpl in H. congruence.
Qed.

Lemma any_char_true (p : ascii -> bool) (s : string) :
  any_char p s = true <-> has_char p s.
Proof.
  unfold has_char. induction s as [|c s IH]; simpl.
  - split; [discriminate | intros [[|a pre] [b [post [H _]]]]; discriminate].
  - rewrite orb_true_iff, IH. split.
    + intros [Hc|[pre [b [post [H Hb]]]]].
      * exists "", c, s. auto.
      * exists (String c pre), b, post. simpl. split; congruence.
    + intros [[|a pre] [b [post [H Hb]]]]; simpl in H.
      * left. congruence.
      * right. exists pre, b, post. split; congruence.
Qed.

(** ** The matcher *)

Lemma accept_end : accepting (fun e _ g => Some (e, g)).
Proof. intros pos s g. discriminate. Qed.

Lemma run_lit (p : string) (pos : nat) (rest g : string) (k : K) :
  run false (lit p) pos (p +:+ rest) g k = k (pos + String.length p) rest g.
Proof.
  revert pos. induction p as [|c p IH]; intros pos; simpl.
  - now rewrite Nat.add_0_r.
  - rewrite Ascii.eqb_refl, IH. f_equal. lia.
Qed.

Lemma run_opt_accepting (r : regex) (pos : nat) (s g : string) (k : K) :
  accepting k -> run false (Opt r) pos s g k <> None.
Proof.
  intros Hk. simpl. destruct (run false r pos s g k); [discriminate | apply Hk].
Qed.

Lemma rep_accepting (set : ascii -> bool) (lo : nat) (hi : option nat)
    (taken pos : nat) (s g : string) (k : K) :
  accepting k -> lo <= taken -> rep false set lo hi taken pos s g k <> None.
Proof.
  intros Hk. revert taken pos. induction s as [|a s IH]; intros taken pos Hlo; simpl.
  - destruct (Nat.leb_spec lo taken); [apply Hk | lia].
  - destruct (in_set false set a && below taken hi).
    + specialize (IH (S taken) (S pos) ltac:(lia)).
      destruct (rep false set lo hi (S taken) (S pos) s g k); congruence.
    + destruct (Nat.leb_spec lo taken); [apply Hk | lia].
Qed.

Lemma search_from_hit (r : regex) (pre rest : string) (pos : nat) :
  (forall pos', matched (match_at false r pos' rest) = true) ->
  matched (search_from false r pos (pre +:+ rest)) = true.
Proof.
  intros Hhit. revert pos. induction pre as [|a pre IH]; intros pos; simpl.
  - specialize (Hhit pos).
    destruct rest; simpl; destruct (match_at false r pos _); try discriminate;
      reflexivity.
  - destruct (match_at false r pos _); [reflexivity | apply IH].
Qed.

Lemma match_at_some (r : regex) (pos : nat) (s : string) :
  run false r pos s "" (fun e _ g => Some (e, g)) <> None ->
  matched (match_at false r pos s) = true.
Proof.
  unfold match_at. destruct (run false r pos s "" _) as [[e g]|]; [reflexivity | congruence].
Qed.

(** The patterns at work on small inputs. *)

Example url_pattern_takes_path_segment :
  _extract_username_from_url "https://www.instagram.com/john.doe/"
  = Some "john.doe".
Proof. reflexivity. Qed.

Example url_pattern_skips_reserved_page :
  _extract_username_from_url "https://instagram.com/p/abc" = Some "abc".
Proof. reflexivity. Qed.

Example at_pattern_needs_a_boundary :
  re_findall true (cat [Chr "@"; Grp handle; NotAhead handle_char])
    "a @abcdefghijklmnopqrstuvwxyz0123456789 @b @c@d"
  = ["b"; "c"; "d"].
Proof. reflexivity. Qed.

Example text_pattern_on_an_address :
  _extract_username_from_text "contactusatinfo@example.com"
  = Some "example.com".
Proof. reflexivity. Qed.

Example label_pattern_needs_its_space :
  _extract_username_from_text "ig: somehandle" = Some "somehandle"
  /\ _extract_username_from_text "ig:somehandle" = None.
Proof. split; reflexivity. Qed.

(** ** The validator *)

Lemma run_seq (r1 r2 : regex) (pos : nat) (s g : string) (k : K) :
  run false (Seq r1 r2) pos s g k
  = run false r1 pos s g (fun pos' s' g' => run false r2 pos' s' g' k).
Proof. reflexivity. Qed.

Ltac pick_in_list := repeat first [left; reflexivity | right].

Lemma denylisted_pattern (d : string) :
  In d denylisted ->
  exists r, In r invalid_patterns
    /\ forall pos post, matched (match_at false r pos (lower d +:+ post)) = true.
Proof.
  intros Hin. unfold denylisted in Hin. simpl in Hin.
  destruct Hin as [<-|Hin].
  { exists (cat [lit ".com"; Opt (lit ".br")]). split; [pick_in_list|].
    intros pos post. apply match_at_some.
    change (lower ".com") with ".com". unfold cat. cbn [fold_right].
    rewrite run_seq, run_lit, run_seq.
    apply run_opt_accepting. intros p s g. discriminate. }
  destruct Hin as [<-|Hin].
  { exists (cat [lit ".com"; Opt (lit ".br")]). split; [pick_in_list|].
    intros pos post. reflexivity. }
  repeat (destruct Hin as [Hd|Hin];
          [exists (lit d); subst d;
           split; [pick_in_list | intros pos post; reflexivity]|]).
  contradiction.
Qed.

Lemma forbidden_pattern (c : ascii) :
  forbidden_char c = true ->
  exists r, In r invalid_patterns
    /\ forall pos post,
         matched (match_at false r pos (String (lower_char c) post)) = true.
Proof.
  unfold forbidden_char. rewrite !orb_true_iff, !Ascii.eqb_eq.
  intros [[[[Hc|Hc]|Hc]|Hc]|Hsp].
  1-4: exists (Chr c); subst c;
       (split; [pick_in_list | intros pos post; reflexivity]).
  exists (Rep isspace 1 None). split; [pick_in_list|].
  intros pos post. apply match_at_some. simpl.
  unfold in_set. rewrite isspace_lower_char, Hsp. simpl.
  pose proof (rep_accepting isspace 1 None 1 (S pos) post ""
                (fun e _ g => Some (e, g)) accept_end (le_n 1)) as Hrep.
  destruct (rep false isspace 1 None 1 (S pos) post "" _); congruence.
Qed.

Lemma invalid_pattern_refuses (r : regex) (username : string) :
  In r invalid_patterns ->
  matched (re_search false r (lower username)) = true ->
  _is_valid_instagram_username username = false.
Proof.
  intros Hin Hhit. unfold _is_valid_instagram_username.
  replace (existsb _ invalid_patterns) with true; [reflexivity|].
  symmetry. apply existsb_exists. exists r. auto.
Qed.

(** The last test of the validator: [^[a-zA-Z0-9_.]+$] cannot get past a
    character that is neither of the set nor a line feed. *)
Lemma rep_stops_at_stranger (s g : string) (lo taken pos : nat) (k : K) :
  any_char (fun c => negb (handle_char c)) s = true ->
  any_char isspace s = false ->
  rep false handle_char lo None taken pos s g
    (fun pos' s' g' => run false (Seq Eol Eps) pos' s' g' k) = None.
Proof.
  revert taken pos. induction s as [|a s IH]; intros taken pos Hbad Hsp;
    [discriminate|].
  simpl in Hbad, Hsp. apply orb_false_iff in Hsp as [Ha Hs].
  assert (Hnl : Ascii.eqb a "010" = false).
  { destruct (Ascii.eqb_spec a "010") as [->|]; [discriminate Ha | reflexivity]. }
  assert (Hstop : (if Nat.leb lo taken
                   then run false (Seq Eol Eps) pos (String a s) g k
                   else None) = None).
  { destruct (Nat.leb lo taken); [|reflexivity].
    simpl. destruct s; [rewrite Hnl|]; reflexivity. }
  cbn [rep]. unfold in_set. rewrite orb_false_r. cbn [below]. rewrite andb_true_r.
  destruct (handle_char a) eqn:Hh.
  - simpl in Hbad. rewrite (IH (S taken) (S pos) Hbad Hs). exact Hstop.
  - exact Hstop.
Qed.

Lemma stranger_refused (username : string) :
  has_char (fun c => negb (handle_char c)) username ->
  any_char isspace username = false ->
  matched (re_match false (cat [Bol; Rep handle_char 1 None; Eol]) username)
  = false.
Proof.
  intros Hbad Hsp. apply any_char_true in Hbad.
  unfold re_match, match_at.
  set (k := fun (e : nat) (_ g : string) => Some (e, g)).
  change (run false (cat [Bol; Rep handle_char 1 None; Eol]) 0 username "" k)
    with (rep false handle_char 1 None 0 0 username ""
            (fun pos' s' g' => run false (Seq Eol Eps) pos' s' g' k)).
  now rewrite (rep_stops_at_stranger username "" 1 0 0 k Hbad Hsp).
Qed.

Lemma forbidden_refused (username : string) :
  has_char forbidden_char username ->
  _is_valid_instagram_username username = false.
Proof.
  intros [pre [c [post [-> Hc]]]].
  destruct (forbidden_pattern c Hc) as [r [Hin Hr]].
  apply (invalid_pattern_refuses r); [exact Hin|].
  rewrite lower_app. apply search_from_hit. intros pos. apply Hr.
Qed.

(** C2. A candidate that holds a denylisted substring whatever the case
    of its letters, or one of [?], [&], [=], [%] or a whitespace
    character, or a character outside [[A-Za-z0-9_.]], or that is longer
    than 30 characters, is refused by [_is_valid_instagram_username]. *)
Theorem validator_refuses (username : string) :
  refused username -> _is_valid_instagram_username username = false.
Proof.
  intros [[d [Hd [pre [post Hsub]]]]|[Hforb|[Hbad|Hlen]]].
  - destruct (denylisted_pattern d Hd) as [r [Hin Hr]].
    apply (invalid_pattern_refuses r); [exact Hin|].
    rewrite Hsub. apply search_from_hit. intros pos. apply Hr.
  - now apply forbidden_refused.
  - destruct (any_char isspace username) eqn:Hsp.
    + apply forbidden_refused. apply any_char_true in Hsp.
      destruct Hsp as [pre [c [post [-> Hc]]]].
      exists pre, c, post. split; [reflexivity|].
      unfold forbidden_char. rewrite Hc. now rewrite !orb_true_r.
    + unfold _is_valid_instagram_username.
      rewrite (stranger_refused username Hbad Hsp). cbn [negb].
      repeat match goal with |- (if ?b then _ else _) = _ => destruct b end;
        reflexivity.
  - unfold _is_valid_instagram_username.
    apply Nat.ltb_lt in Hlen. rewrite Hlen.
    repeat match goal with |- (if ?b then _ else _) = _ => destruct b end;
      reflexivity.
Qed.

Lemma validator_refuses_witness :
  refused "My.Web.Page" /\ _is_valid_instagram_username "My.Web.Page" = false.
Proof.
  assert (H : refused "My.Web.Page").
  { left. exists "web". split; [unfold denylisted; pick_in_list|].
    exists "my.", ".page". reflexivity. }
  split; [exact H | exact (validator_refuses "My.Web.Page" H)].
Defined.

(** C9. The validator refuses the empty string, since its last test
    asks for at least one character of the set; so whatever passes
    validation, and with it the username of every outcome that was
    validated, is not empty. *)
Theorem validator_refuses_empty :
  _is_valid_instagram_username "" = false
  /\ forall username,
       _is_valid_instagram_username username = true -> username <> "".
Proof.
  split; [reflexivity|].
  intros username Hvalid ->. discriminate Hvalid.
Qed.

(** ** The normaliser of platform URLs *)

Lemma contains_char (c : ascii) (s : string) :
  contains (String c "") s = any_char (fun a => Ascii.eqb a c) s.
Proof.
  induction s as [|a s IH]; simpl; [reflexivity|].
  now rewrite andb_true_r, IH.
Qed.

Lemma any_char_app (p : ascii -> bool) (s t : string) :
  any_char p (s +:+ t) = any_char p s || any_char p t.
Proof.
  induction s as [|a s IH]; simpl; [reflexivity|].
  now rewrite IH, orb_assoc.
Qed.

Lemma any_char_split_head (d : ascii) (s : string) :
  any_char (fun a => Ascii.eqb a d) (split_head d s) = false.
Proof.
  induction s as [|a s IH]; simpl; [reflexivity|].
  destruct (Ascii.eqb a d) eqn:E; simpl; [reflexivity|].
  now rewrite E, IH.
Qed.

Lemma any_char_rstrip_by (p q : ascii -> bool) (s : string) :
  any_char p s = false -> any_char p (rstrip_by q s) = false.
Proof.
  induction s as [|a s IH]; simpl; [reflexivity|].
  intros H. apply orb_false_iff in H as [Ha Hs]. specialize (IH Hs).
  destruct (rstrip_by q s) as [|b t].
  - destruct (q a); simpl; [reflexivity | now rewrite Ha].
  - simpl in *. now rewrite Ha, IH.
Qed.

Lemma rstrip_slash_no_slash (s : string) :
  endswith (rstrip_slash s) "/" = false.
Proof.
  unfold rstrip_slash. induction s as [|a s IH]; [reflexivity|].
  cbn [rstrip_by]. destruct (rstrip_by (Ascii.eqb "/") s) as [|b t].
  - destruct (Ascii.eqb "/" a) eqn:E; [reflexivity|].
    cbn [endswith String.eqb]. rewrite Ascii.eqb_sym, E. reflexivity.
  - cbn [endswith String.eqb] in *. rewrite IH.
    destruct (Ascii.eqb a "/"); reflexivity.
Qed.

Lemma startswith_lower_at (url : string) :
  startswith (lower url) "@" = startswith url "@".
Proof.
  destruct url as [|c url]; simpl; [reflexivity|].
  rewrite !andb_true_r.
  destruct (Ascii.eqb_spec c "@") as [->|Hne]; [reflexivity|].
  destruct (Ascii.eqb_spec (lower_char c) "@") as [He|]; [|reflexivity].
  apply lower_char_at in He. contradiction.
Qed.

Lemma completion_no_query (url : string) :
  any_char (fun a => Ascii.eqb a "?") (completion url) = false.
Proof.
  unfold completion.
  repeat match goal with |- context [if ?b then _ else _] => destruct b end;
    reflexivity.
Qed.

Lemma append_assoc (s t u : string) : (s +:+ t) +:+ u = s +:+ t +:+ u.
Proof. induction s as [|a s IH]; [reflexivity|]. simpl. now rewrite IH. Qed.

Lemma split_head_split (d : ascii) (s : string) :
  any_char (fun a => Ascii.eqb a d) s = true ->
  exists rest, s = split_head d s +:+ String d rest.
Proof.
  induction s as [|a s IH]; [discriminate|].
  cbn [any_char split_head].
  destruct (Ascii.eqb_spec a d) as [->|Hne].
  - intros _. now exists s.
  - cbn [orb]. intros H. destruct (IH H) as [rest Hrest].
    exists rest. cbn [String.append]. now rewrite <- Hrest.
Qed.

Lemma rstrip_by_split (p : ascii -> bool) (s : string) :
  exists t, s = rstrip_by p s +:+ t /\ all_char p t = true.
Proof.
  induction s as [|a s IH]; [now exists ""|].
  destruct IH as (t & Hs & Ht). cbn [rstrip_by].
  destruct (rstrip_by p s) as [|b kept] eqn:Hkept.
  - destruct (p a) eqn:Ha.
    + exists (String a t). split; [simpl in *; congruence|].
      cbn [all_char]. now rewrite Ha, Ht.
    + exists t. split; [simpl in *; congruence | exact Ht].
  - exists t. split; [simpl in *; congruence | exact Ht].
Qed.

(** C5, as the code has it. For an input that does not start with [@]
    the normaliser returns a URL without [?]. When the input holds a
    [?], the result is what precedes the first [?] of the input behind
    its completion, without its trailing slashes: the completed input
    is the result, then slashes only, then the first [?] and what
    follows it, and the result does not end with [/]. When the input
    holds no [?], the result is the input behind its completion and
    nothing is stripped. *)
Theorem normalize_strips_query (url : string) :
  startswith url "@" = false ->
  exists r,
    _normalize_instagram_url url = Ok r
    /\ contains "?" r = false
    /\ (contains "?" url = true ->
        r = rstrip_slash (split_head "?" (completion url +:+ url))
        /\ endswith r "/" = false
        /\ exists slashes query,
             completion url +:+ url = r +:+ slashes +:+ "?" +:+ query
             /\ all_char (Ascii.eqb "/") slashes = true)
    /\ (contains "?" url = false -> r = completion url +:+ url).
Proof.
  intros Hat. unfold _normalize_instagram_url.
  rewrite startswith_lower_at, Hat.
  set (full := if startswith (lower url) "//" then _ else _).
  assert (Hfull : full = completion url +:+ url).
  { unfold full, completion.
    repeat match goal with |- context [if ?b then _ else _] => destruct b end;
      reflexivity. }
  assert (Hq : contains "?" full = contains "?" url).
  { rewrite Hfull, !contains_char, any_char_app, completion_no_query.
    reflexivity. }
  rewrite Hq. destruct (contains "?" url) eqn:Hurl.
  - eexists. split; [reflexivity|]. split; [|split].
    + rewrite contains_char. apply any_char_rstrip_by, any_char_split_head.
    + intros _. split; [now rewrite Hfull|].
      split; [apply rstrip_slash_no_slash|].
      rewrite contains_char in Hq.
      destruct (split_head_split "?" full Hq) as [query Hquery].
      destruct (rstrip_by_split (Ascii.eqb "/") (split_head "?" full))
        as (slashes & Hkept & Hslashes).
      exists slashes, query. split; [|exact Hslashes].
      rewrite <- Hfull. unfold rstrip_slash.
      rewrite Hquery at 1. rewrite Hkept at 1.
      now rewrite append_assoc.
    + discriminate.
  - exists full. split; [reflexivity|]. split; [|split].
    + now rewrite Hq.
    + discriminate.
    + intros _. exact Hfull.
Qed.

Lemma normalize_strips_query_witness :
  startswith "instagram.com/john.doe/?hl=en" "@" = false
  /\ exists r,
    _normalize_instagram_url "instagram.com/john.doe/?hl=en" = Ok r
    /\ contains "?" r = false
    /\ (contains "?" "instagram.com/john.doe/?hl=en" = true ->
        r = rstrip_slash
              (split_head "?"
                 (completion "instagram.com/john.doe/?hl=en"
                  +:+ "instagram.com/john.doe/?hl=en"))
        /\ endswith r "/" = false
        /\ exists slashes query,
             completion "instagram.com/john.doe/?hl=en"
             +:+ "instagram.com/john.doe/?hl=en"
             = r +:+ slashes +:+ "?" +:+ query
             /\ all_char (Ascii.eqb "/") slashes = true)
    /\ (contains "?" "instagram.com/john.doe/?hl=en" = false ->
        r = completion "instagram.com/john.doe/?hl=en"
            +:+ "instagram.com/john.doe/?hl=en").
Proof.
  split; [reflexivity|].
  apply (normalize_strips_query "instagram.com/john.doe/?hl=en").
  reflexivity.
Defined.

(** C5 as stated fails: an input with a trailing slash and no query
    string keeps its slash. *)
Lemma normalize_keeps_trailing_slash :
  startswith "instagram.com/foo/" "@" = false
  /\ contains "?" "instagram.com/foo/" = false
  /\ _normalize_instagram_url "instagram.com/foo/"
     = Ok "https://instagram.com/foo/"
  /\ endswith "https://instagram.com/foo/" "/" = true.
Proof. repeat split; reflexivity. Qed.

(** ** The crawl loop *)

Section Crawl.

Context {platform : Platform}.
Variable self : AdvancedInstagramExtractor.

Lemma crawl_loop_step (st : CrawlState) :
  crawl_loop self st
  = match crawl_turn self st with
    | Stop st' r => (st', r)
    | Next st' => crawl_loop self st'
    end.
Proof.
  rewrite crawl_loop_equation_1.
  destruct (inspect (crawl_turn self st)) as [[st'|st' r] e].
  - rewrite crawl_loop_clause_1_equation_1, e. reflexivity.
  - rewrite crawl_loop_clause_1_equation_2, e. reflexivity.
Qed.

(** The proof rule of the loop: what every turn preserves holds when
    the function returns. *)
Lemma crawl_loop_rule (Inv : CrawlState -> Prop)
    (Post : CrawlState -> option Info -> Prop) :
  (forall st st', Inv st -> crawl_turn self st = Next st' -> Inv st') ->
  (forall st st' r, Inv st -> crawl_turn self st = Stop st' r -> Post st' r) ->
  forall st, Inv st ->
    Post (fst (crawl_loop self st)) (snd (crawl_loop self st)).
Proof.
  intros Hnext Hstop st.
  funelim (crawl_loop self st); intros Hinv.
  - match goal with IH : forall Inv Post, _ |- _ => apply (IH Inv Post) end;
      eauto.
  - simpl. eauto.
Qed.

Lemma usable_valid (username : option string) :
  usable username = true ->
  truthy username = true
  /\ _is_valid_instagram_username (dict_get username "") = true.
Proof. unfold usable. intros H. now apply andb_true_iff in H. Qed.

Lemma found_by_text (username status notes : string) :
  _is_valid_instagram_username username = true ->
  In status ["found_in_link_text"; "found_in_page_text"; "found_in_meta_tag";
             "found_in_social_section"] ->
  scan_result (found (profile_url username) username status notes).
Proof. intros Hv Hs. split; [exact Hv | right; split; [exact Hs | reflexivity]]. Qed.

Lemma scan_links_result (anchors : list Anchor) (page_url : string)
    (info : Info) :
  scan_links anchors page_url = Ok (Some info) -> scan_result info.
Proof.
  induction anchors as [|link rest IH]; [discriminate|].
  cbn [scan_links].
  set (in_text := if usable (_extract_username_from_text (link_text link))
                  then _ else _).
  assert (Htext : in_text = Ok (Some info) -> scan_result info).
  { unfold in_text.
    destruct (usable (_extract_username_from_text (link_text link))) eqn:Hu.
    - intros [= <-]. apply found_by_text; [now apply usable_valid|].
      simpl. auto.
    - exact IH. }
  destruct (_is_direct_instagram_url (strip (href link))); [|exact Htext].
  destruct (_normalize_url (strip (href link)) page_url) as [url|e];
    [|discriminate].
  destruct (usable (_extract_username_from_url url)) eqn:Hu; [|exact Htext].
  intros [= <-]. split; [now apply usable_valid | left; reflexivity].
Qed.

Lemma scan_metas_result (metas : list MetaTag) (info : Info) :
  scan_metas metas = Some info -> scan_result info.
Proof.
  induction metas as [|meta rest IH]; [discriminate|].
  cbn [scan_metas].
  destruct (negb (String.eqb (content meta) "")); [|exact IH].
  destruct (usable (_extract_username_from_text (content meta))) eqn:Hu;
    [|exact IH].
  intros [= <-]. apply found_by_text; [now apply usable_valid|].
  simpl. auto.
Qed.

Lemma scan_elements_result (selector : string) (elements : list string)
    (info : Info) :
  scan_elements selector elements = Some info -> scan_result info.
Proof.
  induction elements as [|element_text rest IH]; [discriminate|].
  cbn [scan_elements].
  destruct (usable (_extract_username_from_text element_text)) eqn:Hu;
    [|exact IH].
  intros [= <-]. apply found_by_text; [now apply usable_valid|].
  simpl. auto 6.
Qed.

Lemma scan_selectors_result (soup : Soup) (selectors : list string)
    (info : Info) :
  scan_selectors soup selectors = Some info -> scan_result info.
Proof.
  induction selectors as [|selector rest IH]; [discriminate|].
  cbn [scan_selectors].
  destruct (scan_elements selector (select soup selector)) eqn:He; [|exact IH].
  intros [= <-]. now apply scan_elements_result in He.
Qed.

Lemma find_instagram_in_page_result (html page_url : string) (info : Info) :
  _find_instagram_in_page html page_url = Ok (Some info) -> scan_result info.
Proof.
  unfold _find_instagram_in_page.
  destruct (scan_links _ page_url) as [[found_info|]|e] eqn:Hl; [| |discriminate].
  - intros [= <-]. now apply scan_links_result in Hl.
  - destruct (usable (_extract_username_from_text _)) eqn:Hu.
    + intros [= <-]. apply found_by_text; [now apply usable_valid|].
      simpl. auto.
    + destruct (scan_metas _) eqn:Hm.
      * intros [= <-]. now apply scan_metas_result in Hm.
      * intros H.
        apply (scan_selectors_result (BeautifulSoup html) social_selectors).
        injection H as H. exact H.
Qed.

Lemma crawl_turn_turn (st : CrawlState) : turn self st (crawl_turn self st).
Proof.
  unfold crawl_turn.
  destruct (urls_to_visit st) as [|[current_url depth] rest] eqn:Hq.
  { apply turn_end. now left. }
  destruct (Z.ltb_spec (scanned st) (max_pages self)) as [Hlt|Hge].
  2: { apply turn_end. now right. }
  case_bool_decide as Hvis.
  { eapply turn_skip; eauto. }
  destruct (Z.ltb_spec (max_depth self) depth) as [Hdeep|Hdepth].
  { eapply turn_skip; eauto. }
  unfold visit. cbn [popped world visited_urls urls_to_visit scanned requests enqueued].
  destruct (session_get current_url (timeout self) (world st))
    as [w [response|e]].
  2: { eapply turn_failed; eauto. }
  destruct (Z.eqb (status_code response) 200).
  2: { eapply turn_failed; eauto. }
  destruct (_find_instagram_in_page _ _) as [[info|]|e] eqn:Hpage.
  - eapply (turn_scanned self st current_url depth rest w []); eauto.
    + rewrite app_nil_r. rewrite (app_nil_r (enqueued st)).
      right. exists info, (resp_url response). split; [reflexivity|].
      now apply find_instagram_in_page_result in Hpage.
  - destruct (Z.ltb_spec depth (max_depth self)) as [Hroom|Hfull].
    + destruct (_extract_links _ _) as [new_links|e].
      * eapply (turn_scanned self st current_url depth rest w
                  (map (fun link => (link, (depth + 1)%Z))
                     (filter (fun link =>
                                link ∉ {[current_url]} ∪ visited_urls st)
                        new_links))); eauto.
        right. split; [exact Hroom|].
        apply List.Forall_forall. intros entry Hin.
        apply List.in_map_iff in Hin as [link [<- _]]. reflexivity.
      * eapply (turn_scanned self st current_url depth rest w []); eauto.
        rewrite app_nil_r. rewrite (app_nil_r (enqueued st)). now left.
    + eapply (turn_scanned self st current_url depth rest w []); eauto.
      rewrite app_nil_r. rewrite (app_nil_r (enqueued st)). now left.
  - eapply (turn_scanned self st current_url depth rest w []); eauto.
    rewrite app_nil_r. rewrite (app_nil_r (enqueued st)). now left.
Qed.

Lemma never_again_snoc (log : list (string * bool)) (current_url : string)
    (b : bool) :
  never_again log ->
  (forall u, In (u, true) log -> u <> current_url) ->
  never_again (log ++ [(current_url, b)]).
Proof.
  intros Hlog Hnew l1 u l2 Heq.
  destruct l2 as [|y l2] using rev_ind; [simpl; tauto|]. clear IHl2.
  rewrite app_comm_cons, app_assoc in Heq.
  apply app_inj_tail in Heq as [Heq <-].
  rewrite map_app, in_app_iff. intros [Hin|[Hin|[]]].
  - exact (Hlog l1 u l2 Heq Hin).
  - apply (Hnew u); [|symmetry; exact Hin].
    rewrite Heq. apply in_elt.
Qed.

Lemma pages_snoc (log : list (string * bool)) (u : string) (b : bool) :
  pages (log ++ [(u, b)]) = pages log ++ (if b then [(u, b)] else []).
Proof. unfold pages. rewrite List.filter_app. simpl. now destruct b. Qed.

Lemma turn_keeps_inv (st : CrawlState) (fl : Flow) :
  crawl_inv self st -> turn self st fl -> crawl_inv self (after fl).
Proof.
  intros (Hdepth & Hcount & Hmax & Hvis & Honce) Hturn.
  destruct Hturn as [Hend|current_url depth rest Hq Hlt Hskip
                    |current_url depth rest w Hq Hlt Hnew Hd
                    |current_url depth rest w fresh fl Hq Hlt Hnew Hd Hfresh st' Hfl].
  - repeat split; assumption.
  - repeat split; assumption.
  - cbn [after]. repeat split; cbn [enqueued scanned requests visited_urls].
    + assumption.
    + rewrite pages_snoc, app_nil_r. assumption.
    + assumption.
    + intros u Hin. apply in_app_iff in Hin as [Hin|[[=]|[]]]. now apply Hvis.
    + apply never_again_snoc; [assumption|].
      intros u Hin ->. apply Hnew. now apply Hvis.
  - assert (Hst' : crawl_inv self st').
    { unfold st'. repeat split; cbn [enqueued scanned requests visited_urls].
      - apply Forall_app. split; [assumption|].
        destruct Hfresh as [->|[Hroom Hall]]; [constructor|].
        eapply List.Forall_impl; [|exact Hall]. intros e He. simpl in He. lia.
      - rewrite pages_snoc, length_app. simpl. lia.
      - lia.
      - intros u Hin. apply in_app_iff in Hin as [Hin|[[= ->]|[]]].
        + apply elem_of_union_r. now apply Hvis.
        + apply elem_of_union_l. now apply elem_of_singleton.
      - apply never_again_snoc; [assumption|].
        intros u Hin ->. apply Hnew. now apply Hvis. }
    destruct Hfl as [->|(info & page & -> & _)]; exact Hst'.
Qed.

Lemma initial_inv (start_url : string) (w : World) :
  (0 <= max_depth self)%Z -> (0 <= max_pages self)%Z ->
  crawl_inv self (initial start_url w).
Proof.
  intros Hd Hp. unfold initial. repeat split; cbn.
  - constructor; [exact Hd | constructor].
  - exact Hp.
  - intros u [].
  - intros [|x l1] u l2 H; discriminate H.
Qed.

Lemma crawl_loop_inv (st : CrawlState) :
  crawl_inv self st -> crawl_inv self (fst (crawl_loop self st)).
Proof.
  apply (crawl_loop_rule (crawl_inv self) (fun st' _ => crawl_inv self st')).
  - intros s s' Hs Hturn.
    apply (turn_keeps_inv s (Next s') Hs). rewrite <- Hturn. apply crawl_turn_turn.
  - intros s s' r Hs Hturn.
    apply (turn_keeps_inv s (Stop s' r) Hs). rewrite <- Hturn. apply crawl_turn_turn.
Qed.

Lemma crawl_loop_result (st : CrawlState) :
  crawl_result (snd (crawl_loop self st)).
Proof.
  apply (crawl_loop_rule (fun _ => True) (fun _ r => crawl_result r));
    [trivial| |trivial].
  intros s s' r _ Hturn. pose proof (crawl_turn_turn s) as Ht.
  rewrite Hturn in Ht. intros info ->.
  inversion Ht as [| | |current_url depth rest w fresh fl Hq Hlt Hnew Hd Hfresh st' Hfl];
    subst.
  destruct Hfl as [[=]|(found_info & page & [= _ ->] & Hres)].
  eauto.
Qed.

End Crawl.

(** ** The entry point *)

Lemma remove_spaces_no_space (s : string) :
  any_char isspace (remove_spaces s) = false.
Proof.
  induction s as [|c s IH]; simpl; [reflexivity|].
  destruct (isspace c) eqn:E; simpl; [exact IH | now rewrite E].
Qed.

Lemma normalize_direct_ok (url : string) :
  any_char isspace url = false ->
  _is_direct_instagram_url url = true ->
  exists r, _normalize_instagram_url url = Ok r.
Proof.
  intros Hsp Hdirect. unfold _normalize_instagram_url.
  destruct (startswith (lower url) "@") eqn:Hat; [|eauto].
  destruct url as [|c rest]; [discriminate Hat|].
  cbn [lower startswith] in Hat. rewrite andb_true_r in Hat.
  apply Ascii.eqb_eq, lower_char_at in Hat. subst c.
  destruct rest as [|a rest]; [discriminate Hdirect|].
  cbn [any_char] in Hsp. apply orb_false_iff in Hsp as [_ Hsp].
  apply orb_false_iff in Hsp as [Ha _].
  cbn [lower drop]. unfold first_word. cbn [lstrip].
  rewrite isspace_lower_char, Ha. eauto.
Qed.

Section Entry.

Context {platform : Platform}.
Variable self : AdvancedInstagramExtractor.

Lemma crawl_and_report_shape (url url_str : string) (w : World) :
  exists o,
    snd (crawl_and_report self (blank_result url) url_str w) = Ok o
    /\ shape o.
Proof.
  unfold crawl_and_report, _crawl_site_for_instagram.
  set (start := initial _ w).
  pose proof (crawl_loop_result self start) as Hres.
  destruct (crawl_loop self start) as [st [info|]]; cbn [snd] in *.
  - destruct (Hres info eq_refl) as (found_info & n & page & -> & Hvalid & Hkind).
    cbn [stamp i_username]. rewrite Hvalid.
    eexists. split; [reflexivity|].
    destruct Hkind as [Hsite|[Hin Hurl]].
    + apply shape_url; [|exact Hvalid]. cbn. rewrite Hsite. auto.
    + apply shape_built; [right; exact Hin | exact Hvalid | exact Hurl].
  - eexists. split; [reflexivity|].
    apply shape_none; [cbn; auto 10 | reflexivity].
Qed.

Lemma extract_shape (url : string) (w : World) :
  exists o, snd (extract_instagram_info self url w) = Ok o /\ shape o.
Proof.
  unfold extract_instagram_info.
  destruct (String.eqb url "" || String.eqb (strip url) "").
  { eexists. split; [reflexivity|]. apply shape_none; [cbn; auto | reflexivity]. }
  set (url_str := remove_spaces (strip url)).
  destruct (_is_direct_instagram_url url_str) eqn:Hdirect.
  - destruct (normalize_direct_ok url_str (remove_spaces_no_space _) Hdirect)
      as [normalized_url ->].
    destruct (usable (_extract_username_from_url normalized_url)) eqn:Hu.
    { eexists. split; [reflexivity|].
      apply shape_url; [cbn; auto | now apply usable_valid]. }
    destruct (truthy (_extract_username_from_url normalized_url));
      eexists; (split; [reflexivity|]);
      (apply shape_none; [cbn; auto 10 | reflexivity]).
  - destruct (truthy (_extract_username_from_text url_str)).
    + destruct (_is_valid_instagram_username _) eqn:Hvalid.
      * eexists. split; [reflexivity|].
        apply shape_built; [cbn; auto | exact Hvalid | reflexivity].
      * eexists. split; [reflexivity|].
        apply shape_none; [cbn; auto 10 | reflexivity].
    + apply crawl_and_report_shape.
Qed.

End Entry.

Lemma valid_not_empty (username : string) :
  _is_valid_instagram_username username = true -> username <> "".
Proof. intros Hvalid ->. discriminate Hvalid. Qed.

Ltac in_sublist H :=
  simpl in H;
  repeat (destruct H as [H|H]; [rewrite <- H; simpl; pick_in_list|]);
  contradiction.

Ltac not_in_list H :=
  simpl in H;
  repeat (destruct H as [H|H]; [discriminate H|]);
  contradiction.

Lemma shape_status (o : Outcome) :
  shape o -> In (status o) ("no_instagram" :: StatusCode).
Proof.
  intros [Hin _|Hin _|Hin _ _]; unfold StatusCode; in_sublist Hin.
Qed.

Lemma shape_username (o : Outcome) :
  shape o -> (instagram_username o <> "" <-> In (status o) found_kinds).
Proof.
  intros [Hin Hname|Hin Hvalid|Hin Hvalid _].
  - split; [intros Hne; contradiction|].
    intros Hfound. exfalso. simpl in Hin.
    repeat (destruct Hin as [Hin|Hin];
            [rewrite <- Hin in Hfound; not_in_list Hfound|]).
    contradiction.
  - split; [intros _; unfold found_kinds; in_sublist Hin|].
    intros _. now apply valid_not_empty.
  - split; [intros _; unfold found_kinds; in_sublist Hin|].
    intros _. now apply valid_not_empty.
Qed.


Lemma shape_built_url (o : Outcome) :
  shape o -> In (status o) built_kinds ->
  instagram_url o = profile_url (instagram_username o).
Proof.
  intros [Hin _|Hin _|_ _ Hurl] Hbuilt; [| |exact Hurl]; exfalso; simpl in Hin.
  all: repeat (destruct Hin as [Hin|Hin];
               [rewrite <- Hin in Hbuilt; not_in_list Hbuilt|]);
       contradiction.
Qed.

(** C1, as the code has it. [extract_instagram_info] always returns a
    dictionary; its status is one of the thirteen codes or the initial
    value [no_instagram], and its username is non-empty exactly when
    the status is one of the [found_*] kinds. *)
Theorem status_and_username {platform : Platform}
    (self : AdvancedInstagramExtractor) (url : string) (w : World) :
  exists o,
    snd (extract_instagram_info self url w) = Ok o
    /\ In (status o) ("no_instagram" :: StatusCode)
    /\ (instagram_username o <> "" <-> In (status o) found_kinds)
    /\ (~ In (status o) found_kinds -> instagram_username o = "").
Proof.
  destruct (extract_shape self url w) as [o [Ho Hshape]].
  exists o. split; [exact Ho|]. split; [now apply shape_status|].
  pose proof (shape_username o Hshape) as Hiff. split; [exact Hiff|].
  intros Hnot. destruct (string_dec (instagram_username o) "") as [|Hne];
    [assumption|].
  exfalso. apply Hnot, Hiff, Hne.
Qed.

(** C1 as stated fails: on the reserved page name [p] the direct path
    extracts no username and returns the initial status, which is not
    one of the thirteen codes. *)
Lemma reserved_page_keeps_initial_status :
  exists o,
    snd (extract_instagram_info (platform := scripted offline) defaults
           "@p" tt) = Ok o
    /\ status o = "no_instagram"
    /\ ~ status_invariant o.
Proof.
  eexists. split; [vm_compute; reflexivity|]. split; [reflexivity|].
  intros [Hin _]. cbn [status] in Hin. not_in_list Hin.
Qed.

(** C10. When the status is [found_from_text], [found_in_link_text],
    [found_in_page_text], [found_in_meta_tag] or
    [found_in_social_section], the profile URL of the dictionary is
    [https://www.instagram.com/], the username and a closing [/]. *)
Theorem built_profile_url {platform : Platform}
    (self : AdvancedInstagramExtractor) (url : string) (w : World)
    (o : Outcome) :
  snd (extract_instagram_info self url w) = Ok o ->
  In (status o) built_kinds ->
  instagram_url o
  = "https://www.instagram.com/" +:+ instagram_username o +:+ "/".
Proof.
  intros Ho Hbuilt.
  destruct (extract_shape self url w) as [o' [Ho' Hshape]].
  rewrite Ho in Ho'. injection Ho' as <-.
  now apply shape_built_url.
Qed.

(** C8. The input [@john.doe] is a direct link: the status is
    [found_direct], the username [john.doe] and the profile URL
    [https://www.instagram.com/john.doe/]. *)
Theorem at_john_doe {platform : Platform}
    (self : AdvancedInstagramExtractor) (w : World) :
  extract_instagram_info self "@john.doe" w
  = (w, Ok {| original_url := "@john.doe";
              instagram_url := "https://www.instagram.com/john.doe/";
              instagram_username := "john.doe";
              status := "found_direct";
              notes := "Link direto do Instagram";
              pages_scanned := 0;
              found_on_page := "" |}).
Proof. vm_compute. reflexivity. Qed.

(** ** Running the crawler on a scripted site *)

Lemma crawl_turns_loop {platform : Platform} (self : AdvancedInstagramExtractor)
    (turns : nat) (st : CrawlState) (res : CrawlState * option Info) :
  crawl_turns self turns st = Some res -> crawl_loop self st = res.
Proof.
  revert st. induction turns as [|turns IH]; intros st; [discriminate|].
  cbn [crawl_turns]. rewrite crawl_loop_step.
  destruct (crawl_turn self st) as [st'|st' r]; [apply IH | congruence].
Qed.

(** Anything read off the result of the loop can be read off a bounded
    run that ends. *)
Lemma crawl_observe {platform : Platform} (self : AdvancedInstagramExtractor)
    {A : Type} (f : CrawlState * option Info -> A) (turns : nat)
    (st : CrawlState) (v : A) :
  option_map f (crawl_turns self turns st) = Some v ->
  f (crawl_loop self st) = v.
Proof.
  destruct (crawl_turns self turns st) as [res|] eqn:Hrun; [|discriminate].
  intros [= <-]. now rewrite (crawl_turns_loop self turns st res Hrun).
Qed.

(** Proves [lhs = v] for a closed [lhs] that calls the crawler. *)
Ltac crawl_eval turns :=
  unfold crawl_and_report, _crawl_site_for_instagram;
  lazymatch goal with
  | |- ?lhs = ?v =>
      lazymatch lhs with
      | context C [crawl_loop ?s ?st] =>
          let f := constr:(fun res : CrawlState * option Info =>
                             ltac:(let t := context C [res] in exact t)) in
          apply (crawl_observe s f turns st v); vm_compute; reflexivity
      end
  end.

Lemma three_crawl :
  let run := _crawl_site_for_instagram (platform := scripted three)
               three_pages_max "shop.test" tt in
  snd run = Ok None
  /\ requests (fst run)
     = [ ("http://shop.test", true); ("http://shop.test/a", true);
         ("http://shop.test/b", false); ("http://shop.test/b", false) ]
  /\ enqueued (fst run)
     = [ ("http://shop.test", 0%Z); ("http://shop.test/a", 1%Z);
         ("http://shop.test/b", 1%Z); ("http://shop.test/b", 2%Z) ].
Proof.
  cbv zeta. split; [|split]; crawl_eval 10.
Qed.

(** ** The bounds of a crawl *)

(** C3, as the code has it. With [max_depth] and [max_pages] not
    negative, in one call of [_crawl_site_for_instagram] a URL that was
    answered with status 200 is never requested again, at most
    [max_pages] requests are answered with status 200, and no entry is
    ever put in the frontier at a depth beyond [max_depth]. *)
Theorem crawl_bounds {platform : Platform}
    (self : AdvancedInstagramExtractor) (start_url : string) (w : World) :
  (0 <= max_depth self)%Z ->
  (0 <= max_pages self)%Z ->
  let st := fst (_crawl_site_for_instagram self start_url w) in
  (forall l1 u l2,
      requests st = l1 ++ (u, true) :: l2 -> ~ In u (map fst l2))
  /\ (Z.of_nat (length (pages (requests st))) <= max_pages self)%Z
  /\ Forall (fun e => (snd e <= max_depth self)%Z) (enqueued st).
Proof.
  intros Hdepth Hpages. unfold _crawl_site_for_instagram.
  pose proof (crawl_loop_inv self _
                (initial_inv self (with_scheme start_url) w Hdepth Hpages))
    as (Henq & Hcount & Hmax & _ & Honce).
  destruct (crawl_loop self _) as [st r]. cbn [fst] in *.
  split; [exact Honce|]. split; [lia | exact Henq].
Qed.

Lemma crawl_bounds_witness :
  (0 <= max_depth three_pages_max)%Z
  /\ (0 <= max_pages three_pages_max)%Z
  /\ let st := fst (_crawl_site_for_instagram (platform := scripted three)
                      three_pages_max "shop.test" tt) in
     (forall l1 u l2,
         requests st = l1 ++ (u, true) :: l2 -> ~ In u (map fst l2))
     /\ (Z.of_nat (length (pages (requests st)))
         <= max_pages three_pages_max)%Z
     /\ Forall (fun e => (snd e <= max_depth three_pages_max)%Z)
          (enqueued st).
Proof.
  split; [simpl; lia|]. split; [simpl; lia|].
  apply (crawl_bounds (platform := scripted three) three_pages_max
           "shop.test" tt); simpl; lia.
Defined.

(** C3 as stated fails: a URL whose request is not answered with status
    200 is not marked as visited, so it is requested once for each
    frontier entry that names it, and such requests do not count
    against [max_pages]. Here [/b] is requested twice and four requests
    are made with [max_pages = 3]. *)
Lemma failed_url_is_requested_again :
  let st := fst (_crawl_site_for_instagram (platform := scripted three)
                   three_pages_max "shop.test" tt) in
  count_occ string_dec (map fst (requests st)) "http://shop.test/b" = 2
  /\ (Z.of_nat (length (requests st)) > max_pages three_pages_max)%Z.
Proof.
  cbv zeta. destruct three_crawl as (_ & -> & _). split; reflexivity.
Qed.

(** ** The page count of a crawl that finds nothing *)

Lemma extract_on_crawl_path {platform : Platform}
    (self : AdvancedInstagramExtractor) (url : string) (w : World) :
  String.eqb url "" || String.eqb (strip url) "" = false ->
  _is_direct_instagram_url (remove_spaces (strip url)) = false ->
  truthy (_extract_username_from_text (remove_spaces (strip url))) = false ->
  extract_instagram_info self url w
  = crawl_and_report self (blank_result url) (remove_spaces (strip url)) w.
Proof.
  intros Hempty Hdirect Htext. unfold extract_instagram_info.
  now rewrite Hempty, Hdirect, Htext.
Qed.

(** Proves [lhs = v] for a closed call of the entry point that ends on
    the crawl path. *)
Ltac extract_eval turns :=
  rewrite extract_on_crawl_path by (vm_compute; reflexivity);
  crawl_eval turns.

(** C4 at its scenario: with [max_pages = 1] the start page is fetched
    with status 200 and scanned, so the crawl counts one page; the
    dictionary returned has the status [not_found_after_scan] and a
    page count of 0, which its note repeats. *)
Theorem page_count_is_lost :
  scanned (fst (_crawl_site_for_instagram (platform := scripted plain)
                  one_page_max "plain.test" tt)) = 1%Z
  /\ requests (fst (_crawl_site_for_instagram (platform := scripted plain)
                      one_page_max "plain.test" tt))
     = [("http://plain.test", true)]
  /\ snd (extract_instagram_info (platform := scripted plain) one_page_max
            "plain.test" tt)
     = Ok {| original_url := "plain.test";
             instagram_url := "";
             instagram_username := "";
             status := "not_found_after_scan";
             notes := "Varridas 0 p" +:+ chr 225 +:+ "ginas, Instagram n"
                      +:+ chr 227 +:+ "o encontrado";
             pages_scanned := 0;
             found_on_page := "" |}.
Proof.
  split; [|split].
  - crawl_eval 5.
  - crawl_eval 5.
  - extract_eval 5.
Qed.

(** ** Failed requests *)

Lemma crawl_loop_empty {platform : Platform}
    (self : AdvancedInstagramExtractor) (st : CrawlState) :
  urls_to_visit st = [] -> crawl_loop self st = (st, None).
Proof.
  intros Hq. rewrite crawl_loop_step. unfold crawl_turn. now rewrite Hq.
Qed.





(** ** The text step *)

Lemma first_wellformed_not_empty (matches : list string) (username : string) :
  first_wellformed matches = Some username -> username <> "".
Proof.
  induction matches as [|m rest IH]; [discriminate|].
  cbn [first_wellformed].
  destruct (matched (re_match false (cat [Bol; handle; Eol]) (strip m)))
    eqn:Hm; [|exact IH].
  intros [= <-] Hempty. rewrite Hempty in Hm. discriminate Hm.
Qed.

Lemma text_from_patterns_not_empty (patterns : list regex)
    (text username : string) :
  text_from_patterns patterns text = Some username -> username <> "".
Proof.
  induction patterns as [|pattern rest IH]; [discriminate|].
  cbn [text_from_patterns].
  destruct (first_wellformed (re_findall true pattern text)) eqn:Hf; [|exact IH].
  intros [= <-]. now apply first_wellformed_not_empty in Hf.
Qed.

(** C7, as the code has it. The text step runs on the input with all
    whitespace removed. For an input that is not blank and whose
    whitespace-free form is not a direct link, when
    [_extract_username_from_text] finds a candidate in that form, the
    status is [found_from_text] with the candidate as username when the
    candidate is valid, and [invalid_username_from_text] with no
    username when it is not. *)
Theorem text_step_on_spaceless_input {platform : Platform}
    (self : AdvancedInstagramExtractor) (url : string) (w : World)
    (candidate : string) :
  String.eqb url "" || String.eqb (strip url) "" = false ->
  _is_direct_instagram_url (remove_spaces (strip url)) = false ->
  _extract_username_from_text (remove_spaces (strip url)) = Some candidate ->
  exists o,
    extract_instagram_info self url w = (w, Ok o)
    /\ if _is_valid_instagram_username candidate
       then status o = "found_from_text"
            /\ instagram_username o = candidate
            /\ instagram_url o = profile_url candidate
       else status o = "invalid_username_from_text"
            /\ instagram_username o = "".
Proof.
  intros Hempty Hdirect Htext. unfold extract_instagram_info.
  rewrite Hempty, Hdirect, Htext.
  pose proof (text_from_patterns_not_empty _ _ _ Htext) as Hne.
  destruct candidate as [|c candidate]; [contradiction|].
  cbn [truthy dict_get].
  destruct (_is_valid_instagram_username (String c candidate));
    eexists; (split; [reflexivity|]); cbn; auto.
Qed.

Lemma text_step_on_spaceless_input_witness :
  _extract_username_from_text (remove_spaces (strip "insta @acme_store"))
  = Some "acme_store"
  /\ exists o,
       extract_instagram_info (platform := scripted offline) defaults
         "insta @acme_store" tt = (tt, Ok o)
       /\ if _is_valid_instagram_username "acme_store"
          then status o = "found_from_text"
               /\ instagram_username o = "acme_store"
               /\ instagram_url o = profile_url "acme_store"
          else status o = "invalid_username_from_text"
               /\ instagram_username o = "".
Proof.
  split; [reflexivity|].
  apply (text_step_on_spaceless_input (platform := scripted offline) defaults
           "insta @acme_store" tt "acme_store"); reflexivity.
Defined.

(** C7 as stated fails: the raw input [ig: somehandle] holds a labelled
    handle that [_extract_username_from_text] finds and the validator
    accepts, yet the text step sees [ig:somehandle], finds nothing, and
    the input goes on to the crawl. *)
Lemma labelled_handle_is_missed :
  _is_direct_instagram_url "ig: somehandle" = false
  /\ _extract_username_from_text "ig: somehandle" = Some "somehandle"
  /\ _is_valid_instagram_username "somehandle" = true
  /\ _extract_username_from_text (remove_spaces (strip "ig: somehandle"))
     = None
  /\ exists o,
       snd (extract_instagram_info (platform := scripted offline) defaults
              "ig: somehandle" tt) = Ok o
       /\ status o = "not_found_after_scan"
       /\ status o <> "found_from_text".
Proof.
  repeat (split; [reflexivity|]).
  eexists
    {| original_url := "ig: somehandle"; instagram_url := "";
       instagram_username := ""; status := "not_found_after_scan";
       notes := "Varridas 0 p" +:+ chr 225 +:+ "ginas, Instagram n"
                +:+ chr 227 +:+ "o encontrado";
       pages_scanned := 0; found_on_page := "" |}.
  split; [extract_eval 5|]. split; [reflexivity | discriminate].
Qed.

Lemma acme_found :
  snd (extract_instagram_info (platform := scripted acme) defaults
         "acme.test" tt) = Ok acme_outcome.
Proof. extract_eval 5. Qed.

Lemma built_profile_url_witness :
  snd (extract_instagram_info (platform := scripted acme) defaults
         "acme.test" tt) = Ok acme_outcome
  /\ In (status acme_outcome) built_kinds
  /\ instagram_url acme_outcome
     = "https://www.instagram.com/" +:+ instagram_username acme_outcome
       +:+ "/".
Proof.
  split; [exact acme_found|].
  assert (Hin : In (status acme_outcome) built_kinds)
    by (unfold built_kinds; simpl; pick_in_list).
  split; [exact Hin|].
  exact (built_profile_url (platform := scripted acme) defaults "acme.test" tt
           acme_outcome acme_found Hin).
Defined.


(** * Further properties *)

(** ** More on the matcher *)

Lemma take_drop (n : nat) (s : string) : take n s +:+ drop n s = s.
Proof.
  revert s. induction n as [|n IH]; intros [|c s]; simpl; try reflexivity.
  now rewrite IH.
Qed.

Lemma length_take (n : nat) (s : string) :
  n <= String.length s -> String.length (take n s) = n.
Proof.
  revert s. induction n as [|n IH]; intros [|c s]; simpl; intros H;
    try reflexivity; try lia.
  rewrite IH; [reflexivity | lia].
Qed.

Lemma rep_sound (ic : bool) (set : ascii -> bool) (lo : nat) (hi : option nat)
    (s : string) (taken pos : nat) (g : string) (k : K) (res : nat * string) :
  bounded taken hi ->
  rep ic set lo hi taken pos s g k = Some res ->
  exists n,
    n <= String.length s
    /\ all_char (in_set ic set) (take n s) = true
    /\ lo <= taken + n
    /\ bounded (taken + n) hi
    /\ k (pos + n) (drop n s) g = Some res.
Proof.
  revert taken pos. induction s as [|a s IH]; intros taken pos Hb Hrep.
  - cbn [rep] in Hrep. destruct (Nat.leb_spec lo taken); [|discriminate].
    exists 0. rewrite !Nat.add_0_r. cbn. repeat split; try assumption; lia.
  - cbn [rep] in Hrep.
    assert (Hstop : (if Nat.leb lo taken then k pos (String a s) g else None)
                    = Some res ->
                    exists n,
                      n <= String.length (String a s)
                      /\ all_char (in_set ic set) (take n (String a s)) = true
                      /\ lo <= taken + n
                      /\ bounded (taken + n) hi
                      /\ k (pos + n) (drop n (String a s)) g = Some res).
    { destruct (Nat.leb_spec lo taken); [|discriminate]. intros Hk.
      exists 0. rewrite !Nat.add_0_r. cbn.
      repeat split; try assumption; lia. }
    destruct (in_set ic set a) eqn:Ha; cbn [andb] in Hrep; [|auto].
    destruct (below taken hi) eqn:Hbelow; [|auto].
    destruct (rep ic set lo hi (S taken) (S pos) s g k) as [m|] eqn:Hrec;
      [|auto].
    injection Hrep as ->.
    assert (Hb' : bounded (S taken) hi).
    { destruct hi as [h|]; [|exact I]. cbn in *.
      apply Nat.ltb_lt in Hbelow. lia. }
    destruct (IH (S taken) (S pos) Hb' Hrec) as (n & Hn & Hall & Hlo & Hbn & Hk).
    exists (S n). cbn [String.length take drop all_char]. rewrite Ha, Hall.
    replace (taken + S n) with (S taken + n) by lia.
    replace (pos + S n) with (S pos + n) by lia.
    repeat split; try assumption; lia.
Qed.

Lemma rep_greedy (ic : bool) (set : ascii -> bool) (lo : nat) (hi : option nat)
    (s rest : string) (taken pos : nat) (g : string) (k : K)
    (res : nat * string) :
  all_char (in_set ic set) s = true ->
  match rest with
  | EmptyString => True
  | String c _ => in_set ic set c = false
  end ->
  bounded (taken + String.length s) hi ->
  lo <= taken + String.length s ->
  k (pos + String.length s) rest g = Some res ->
  rep ic set lo hi taken pos (s +:+ rest) g k = Some res.
Proof.
  revert taken pos. induction s as [|a s IH]; intros taken pos Hall Hrest Hb Hlo Hk.
  - cbn in *. rewrite Nat.add_0_r in *.
    apply Nat.leb_le in Hlo.
    destruct rest as [|c rest]; cbn [rep]; [now rewrite Hlo|].
    now rewrite Hrest, Hlo.
  - cbn [all_char] in Hall. apply andb_true_iff in Hall as [Ha Hall].
    cbn [String.length] in *. cbn [String.append rep]. rewrite Ha.
    assert (Hbelow : below taken hi = true).
    { destruct hi as [h|]; [|reflexivity]. cbn in *. apply Nat.ltb_lt. lia. }
    rewrite Hbelow. cbn [andb].
    rewrite (IH (S taken) (S pos)); try assumption.
    + reflexivity.
    + now replace (S taken + String.length s) with (taken + S (String.length s))
        by lia.
    + lia.
    + now replace (S pos + String.length s) with (pos + S (String.length s))
        by lia.
Qed.

Lemma run_groupless (ic : bool) (r : regex) (pos : nat) (s g : string) (k : K)
    (res : nat * string) :
  groupless r = true ->
  run ic r pos s g k = Some res ->
  exists pos' s', k pos' s' g = Some res.
Proof.
  revert pos s k. induction r as [|c|r1 IH1 r2 IH2|r1 IH1|set lo hi|r1 IH1| | |set];
    intros pos s k Hg Hrun; cbn [run groupless] in *.
  - eauto.
  - destruct s as [|a s]; [discriminate|].
    destruct (chr_eq ic c a); [eauto | discriminate].
  - apply andb_true_iff in Hg as [Hg1 Hg2].
    destruct (IH1 _ _ _ Hg1 Hrun) as (pos1 & s1 & Hk). eauto.
  - destruct (run ic r1 pos s g k) eqn:H1; [|eauto].
    injection Hrun as ->. eauto.
  - destruct (rep_sound ic set lo hi s 0 pos g k res) as (n & _ & _ & _ & _ & Hk);
      [destruct hi; cbn; [lia | exact I] | exact Hrun | eauto].
  - discriminate.
  - destruct (Nat.eqb pos 0); [eauto | discriminate].
  - destruct s as [|a [|b s]]; [eauto | | discriminate].
    destruct (Ascii.eqb a "010"); [eauto | discriminate].
  - destruct s as [|a s]; [eauto|].
    destruct (in_set ic set a); [discriminate | eauto].
Qed.

Lemma groupless_cat (rs : list regex) :
  forallb groupless rs = true -> groupless (cat rs) = true.
Proof.
  induction rs as [|r rs IH]; [reflexivity|]. cbn [forallb cat fold_right groupless].
  intros H. apply andb_true_iff in H as [Hr Hrs]. rewrite Hr. now apply IH.
Qed.

Lemma in_set_handle_char (ic : bool) (c : ascii) :
  in_set ic handle_char c = handle_char c.
Proof.
  destruct ic; [apply handle_char_ignorecase|].
  unfold in_set. now rewrite orb_false_r.
Qed.

Lemma all_char_ext (p q : ascii -> bool) (s : string) :
  (forall c, p c = q c) -> all_char p s = all_char q s.
Proof.
  intros H. induction s as [|c s IH]; [reflexivity|]. cbn. now rewrite H, IH.
Qed.

(** What group 1 holds after a match of a pattern whose one group is
    [([a-zA-Z0-9_.]{1,30})]. *)
Lemma run_captures_handle (ic : bool) (before behind : list regex) (pos : nat)
    (s g : string) (e : nat) (g' : string) :
  forallb groupless before = true ->
  forallb groupless behind = true ->
  run ic (cat (before ++ Grp handle :: behind)) pos s g
    (fun e _ g => Some (e, g)) = Some (e, g') ->
  is_handle g' = true.
Proof.
  intros Hbefore Hbehind. revert pos s g.
  induction before as [|r before IH]; intros pos s g Hrun.
  - cbn [app cat fold_right run] in Hrun. unfold handle in Hrun.
    cbn [run] in Hrun.
    apply rep_sound in Hrun as (n & Hn & Hall & Hlo & Hhi & Hk); [|cbn; lia].
    apply run_groupless in Hk as (pos' & s' & Hk);
      [|now apply groupless_cat].
    injection Hk as _ <-.
    replace (pos + n - pos) with n by lia.
    unfold is_handle. rewrite (length_take n s Hn).
    rewrite (all_char_ext _ _ _ (in_set_handle_char ic)) in Hall.
    cbn in Hlo, Hhi. rewrite Hall.
    destruct (Nat.leb_spec 1 n); [|lia]. destruct (Nat.leb_spec n 30); [|lia].
    reflexivity.
  - cbn [forallb] in Hbefore. apply andb_true_iff in Hbefore as [Hr Hbefore].
    cbn [app cat fold_right run] in Hrun.
    apply run_groupless in Hrun as (pos' & s' & Hrun); [|exact Hr].
    exact (IH Hbefore pos' s' g Hrun).
Qed.

(** ** What the extractors return *)

Lemma match_at_captures (ic : bool) (r : regex) (pos : nat) (s : string)
    (m : Match) :
  handle_pattern r -> match_at ic r pos s = Some m ->
  is_handle (group1 m) = true.
Proof.
  intros (before & behind & Hb & Ha & ->). unfold match_at.
  destruct (run ic _ pos s "" _) as [[e g]|] eqn:Hrun; [|discriminate].
  intros [= <-]. cbn [group1].
  exact (run_captures_handle ic before behind pos s "" e g Hb Ha Hrun).
Qed.

Lemma search_from_captures (ic : bool) (r : regex) (pos : nat) (s : string)
    (m : Match) :
  handle_pattern r -> search_from ic r pos s = Some m ->
  is_handle (group1 m) = true.
Proof.
  intros Hr. revert pos. induction s as [|a s IH]; intros pos; cbn [search_from].
  - destruct (match_at ic r pos "") eqn:Hm; [|discriminate].
    intros [= <-]. exact (match_at_captures ic r pos "" _ Hr Hm).
  - destruct (match_at ic r pos (String a s)) eqn:Hm; [|apply IH].
    intros [= <-]. exact (match_at_captures ic r pos _ _ Hr Hm).
Qed.

Lemma findall_from_captures (ic : bool) (r : regex) (pos next : nat)
    (s : string) :
  handle_pattern r ->
  Forall (fun g => is_handle g = true) (findall_from ic r pos next s).
Proof.
  intros Hr. revert pos next.
  assert (Hhere : forall pos next s,
             Forall (fun g => is_handle g = true)
               match (if Nat.leb next pos then match_at ic r pos s else None) with
               | Some m => [group1 m]
               | None => []
               end).
  { intros pos next t. destruct (Nat.leb next pos); [|constructor].
    destruct (match_at ic r pos t) eqn:Hm; constructor; [|constructor].
    exact (match_at_captures ic r pos t _ Hr Hm). }
  induction s as [|a s IH]; intros pos next; cbn [findall_from].
  - apply Hhere.
  - apply Forall_app. split; [apply Hhere | apply IH].
Qed.

Lemma instagram_patterns_shape : Forall handle_pattern instagram_patterns.
Proof.
  unfold instagram_patterns. repeat constructor.
  - exists [lit "instagram.com/"], []. repeat split.
  - exists [lit "instagr.am/"], []. repeat split.
  - exists [lit "http"; Opt (Chr "s"); lit "://"; Opt (lit "www.");
            lit "instagram.com/"], [Opt (Chr "/")].
    repeat split.
  - exists [Chr "/"],
      [Opt (Chr "/"); Opt (Seq (Chr "?") (Rep dot 0 None)); Eol].
    repeat split.
Qed.

Lemma text_patterns_shape : Forall handle_pattern text_patterns.
Proof.
  unfold text_patterns. repeat constructor.
  - exists [Chr "@"], [NotAhead handle_char]. repeat split.
  - exists [lit "instagram.com/"], []. repeat split.
  - exists [lit "instagr.am/"], []. repeat split.
  - exists [lit "ig: "; Opt (Chr "@")], []. repeat split.
  - exists [lit "instagram: "; Opt (Chr "@")], []. repeat split.
  - exists [lit "insta: "; Opt (Chr "@")], []. repeat split.
Qed.

Lemma handle_char_plain (c : ascii) :
  handle_char c = true ->
  isspace c = false /\ Ascii.eqb c "?" = false /\ Ascii.eqb c "#" = false
  /\ Ascii.eqb "/" c = false /\ Ascii.eqb c "@" = false.
Proof. each_char c; repeat split; reflexivity. Qed.

Lemma split_head_handle (d : ascii) (u : string) :
  handle_char d = false -> all_char handle_char u = true ->
  split_head d u = u.
Proof.
  intros Hd. induction u as [|c u IH]; [reflexivity|]. cbn.
  intros H. apply andb_true_iff in H as [Hc Hu].
  destruct (Ascii.eqb_spec c d) as [->|_]; [congruence|]. now rewrite IH.
Qed.

Lemma rstrip_by_handle (p : ascii -> bool) (u : string) :
  (forall c, handle_char c = true -> p c = false) ->
  all_char handle_char u = true -> rstrip_by p u = u.
Proof.
  intros Hp. induction u as [|c u IH]; [reflexivity|]. cbn.
  intros H. apply andb_true_iff in H as [Hc Hu]. rewrite (IH Hu).
  destruct u; [now rewrite (Hp c Hc) | reflexivity].
Qed.

Lemma strip_handle (u : string) :
  all_char handle_char u = true -> strip u = u.
Proof.
  intros Hu. unfold strip. rewrite rstrip_by_handle; [|intros c Hc|exact Hu].
  - destruct u as [|c u]; [reflexivity|]. cbn in *.
    apply andb_true_iff in Hu as [Hc _].
    now destruct (handle_char_plain c Hc) as [-> _].
  - now destruct (handle_char_plain c Hc).
Qed.

Lemma is_handle_chars (h : string) :
  is_handle h = true -> all_char handle_char h = true.
Proof. unfold is_handle. intros H. now apply andb_true_iff in H as [_ H]. Qed.

Lemma cleaned_handle (u : string) :
  is_handle u = true ->
  rstrip_slash (split_head "#" (split_head "?" u)) = u.
Proof.
  intros Hu. apply is_handle_chars in Hu.
  rewrite (split_head_handle "?" u eq_refl Hu).
  rewrite (split_head_handle "#" u eq_refl Hu).
  unfold rstrip_slash. apply rstrip_by_handle; [|exact Hu].
  intros c Hc. now destruct (handle_char_plain c Hc) as (_ & _ & _ & -> & _).
Qed.

Lemma username_from_patterns_handle (patterns : list regex)
    (url username : string) :
  Forall handle_pattern patterns ->
  username_from_patterns patterns url = Some username ->
  is_handle username = true
  /\ existsb (String.eqb (lower username)) reserved_pages = false.
Proof.
  induction 1 as [|pattern rest Hp Hrest IH]; [discriminate|].
  cbn [username_from_patterns].
  destruct (re_search true pattern url) as [m|] eqn:Hm; [|exact IH].
  pose proof (search_from_captures true pattern 0 url m Hp Hm) as Hg.
  rewrite (cleaned_handle _ Hg).
  destruct (existsb (String.eqb (lower (group1 m))) reserved_pages) eqn:Hres;
    [exact IH|].
  intros [= <-]. auto.
Qed.

(** X1. On a URL of code points 0..255, whatever
    [_extract_username_from_url] returns is one to thirty characters
    of [[a-zA-Z0-9_.]] and, in lower case, is none of the reserved
    page names [p], [explore], [directory], [accounts], [reels],
    [stories]. *)
Theorem url_username_is_handle (url username : string) :
  _extract_username_from_url url = Some username ->
  is_handle username = true /\ ~ In (lower username) reserved_pages.
Proof.
  intros H.
  destruct (username_from_patterns_handle _ _ _ instagram_patterns_shape H)
    as [Hh Hres].
  split; [exact Hh|]. intros Hin.
  assert (Htrue : existsb (String.eqb (lower username)) reserved_pages = true).
  { apply existsb_exists. exists (lower username). split; [exact Hin|].
    apply String.eqb_refl. }
  congruence.
Qed.

Lemma url_username_is_handle_witness :
  _extract_username_from_url "https://instagram.com/explore/acme.store?x=1"
  = Some "acme.store"
  /\ is_handle "acme.store" = true
  /\ ~ In (lower "acme.store") reserved_pages.
Proof.
  split; [reflexivity|].
  exact (url_username_is_handle
           "https://instagram.com/explore/acme.store?x=1" "acme.store"
           eq_refl).
Defined.

Lemma first_wellformed_handle (matches : list string) (username : string) :
  Forall (fun g => is_handle g = true) matches ->
  first_wellformed matches = Some username ->
  is_handle username = true.
Proof.
  induction 1 as [|m rest Hm Hrest IH]; [discriminate|].
  cbn [first_wellformed]. rewrite (strip_handle m (is_handle_chars m Hm)).
  destruct (matched _); [|exact IH]. now intros [= <-].
Qed.

Lemma text_from_patterns_handle (patterns : list regex)
    (text username : string) :
  Forall handle_pattern patterns ->
  text_from_patterns patterns text = Some username ->
  is_handle username = true.
Proof.
  induction 1 as [|pattern rest Hp Hrest IH]; [discriminate|].
  cbn [text_from_patterns].
  destruct (first_wellformed (re_findall true pattern text)) eqn:Hf; [|exact IH].
  intros [= <-].
  exact (first_wellformed_handle _ _
           (findall_from_captures true pattern 0 0 text Hp) Hf).
Qed.

(** X2. Whatever [_extract_username_from_text] returns is one to thirty
    characters of [[a-zA-Z0-9_.]]. *)
Theorem text_username_is_handle (text username : string) :
  _extract_username_from_text text = Some username ->
  is_handle username = true.
Proof. apply text_from_patterns_handle, text_patterns_shape. Qed.

Lemma text_username_is_handle_witness :
  _extract_username_from_text "Siga insta: @Acme_Store!" = Some "Acme_Store"
  /\ is_handle "Acme_Store" = true.
Proof.
  split; [reflexivity|].
  exact (text_username_is_handle "Siga insta: @Acme_Store!" "Acme_Store"
           eq_refl).
Defined.

Lemma run_seq_any (ic : bool) (r1 r2 : regex) (pos : nat) (s g : string)
    (k : K) :
  run ic (Seq r1 r2) pos s g k
  = run ic r1 pos s g (fun pos' s' g' => run ic r2 pos' s' g' k).
Proof. reflexivity. Qed.

Lemma append_nil_r (s : string) : s +:+ "" = s.
Proof. induction s as [|c s IH]; simpl; [reflexivity | now rewrite IH]. Qed.

Lemma take_app_length (h rest : string) :
  take (String.length h) (h +:+ rest) = h.
Proof. induction h as [|c h IH]; [now destruct rest|]. cbn. now rewrite IH. Qed.

Lemma is_handle_bounds (h : string) :
  is_handle h = true ->
  1 <= String.length h <= 30 /\ all_char handle_char h = true.
Proof.
  unfold is_handle. intros H. apply andb_true_iff in H as [H Hall].
  apply andb_true_iff in H as [Hlo Hhi].
  apply Nat.leb_le in Hlo, Hhi. auto.
Qed.

Lemma all_char_in_set_handle (ic : bool) (h : string) :
  all_char handle_char h = true ->
  all_char (in_set ic handle_char) h = true.
Proof.
  intros H. now rewrite (all_char_ext _ _ h (in_set_handle_char ic)).
Qed.

Lemma boundary_in_set_handle (ic : bool) (rest : string) :
  boundary handle_char rest -> boundary (in_set ic handle_char) rest.
Proof. destruct rest as [|c rest]; cbn; [trivial|]. now rewrite in_set_handle_char. Qed.

(** The last test of the two extractors and of the validator accepts a
    handle. *)
Lemma handle_matches_whole (h : string) (hi : option nat) :
  all_char handle_char h = true ->
  1 <= String.length h ->
  bounded (String.length h) hi ->
  matched (re_match false (cat [Bol; Rep handle_char 1 hi; Eol]) h) = true.
Proof.
  intros Hall Hlo Hhi. apply match_at_some.
  set (k := fun (e : nat) (_ g : string) => Some (e, g)).
  change (run false (cat [Bol; Rep handle_char 1 hi; Eol]) 0 h "" k)
    with (rep false handle_char 1 hi 0 0 h ""
            (fun pos' s' g' => run false (Seq Eol Eps) pos' s' g' k)).
  assert (E : rep false handle_char 1 hi 0 0 (h +:+ "") ""
                (fun pos' s' g' => run false (Seq Eol Eps) pos' s' g' k)
              = Some (String.length h, "")).
  { apply rep_greedy; cbn; try assumption; try exact I; try reflexivity.
    now apply all_char_in_set_handle. }
  rewrite append_nil_r in E. rewrite E. discriminate.
Qed.

(** X3. On a text of code points 0..255 that starts with [@] and a
    handle, where the handle ends the text or is followed by a
    character outside [[a-zA-Z0-9_.]], [_extract_username_from_text]
    returns exactly that handle. *)
Theorem text_at_handle (h rest : string) :
  is_handle h = true ->
  boundary handle_char rest ->
  _extract_username_from_text ("@" +:+ h +:+ rest) = Some h.
Proof.
  intros Hh Hrest. destruct (is_handle_bounds h Hh) as [[Hlo Hhi] Hall].
  unfold _extract_username_from_text, text_patterns.
  cbn [text_from_patterns]. unfold re_findall.
  assert (Hm : match_at true (cat [Chr "@"; Grp handle; NotAhead handle_char])
                 0 ("@" +:+ h +:+ rest)
               = Some {| m_start := 0; m_end := 1 + String.length h;
                         group1 := h |}).
  { unfold match_at.
    set (k := fun (e : nat) (_ g : string) => Some (e, g)).
    change (run true (cat [Chr "@"; Grp handle; NotAhead handle_char]) 0
              ("@" +:+ h +:+ rest) "" k)
      with (rep true handle_char 1 (Some 30) 0 1 (h +:+ rest) ""
              (fun pos' s' _ =>
                 run true (Seq (NotAhead handle_char) Eps) pos' s'
                   (take (pos' - 1) (h +:+ rest)) k)).
    rewrite (rep_greedy true handle_char 1 (Some 30) h rest 0 1 "" _
               (1 + String.length h, h));
      [reflexivity| | | | |]; cbn [bounded Nat.add]; try lia.
    - now apply all_char_in_set_handle.
    - now apply boundary_in_set_handle.
    - rewrite run_seq_any. cbn [run].
      replace (S (String.length h) - 1) with (String.length h) by lia.
      rewrite take_app_length.
      destruct rest as [|c rest]; [reflexivity|].
      cbn in Hrest. now rewrite in_set_handle_char, Hrest. }
  cbn [String.append findall_from Nat.leb]. cbn [String.append] in Hm.
  rewrite Hm. cbn [group1 app first_wellformed].
  rewrite (strip_handle h Hall). unfold handle.
  rewrite (handle_matches_whole h (Some 30) Hall Hlo Hhi). reflexivity.
Qed.

Lemma text_at_handle_witness :
  is_handle "john.doe" = true
  /\ boundary handle_char " on Instagram"
  /\ _extract_username_from_text ("@" +:+ "john.doe" +:+ " on Instagram")
     = Some "john.doe".
Proof.
  split; [reflexivity|]. split; [reflexivity|].
  apply (text_at_handle "john.doe" " on Instagram"); reflexivity.
Defined.

(** ** The validator, exactly *)

Lemma run_lit_full (d : string) (pos : nat) (s g : string) (k : K) :
  run false (lit d) pos s g k
  = if startswith s d
    then k (pos + String.length d) (drop (String.length d) s) g
    else None.
Proof.
  revert pos s. induction d as [|c d IH]; intros pos s; cbn [lit run startswith].
  - cbn. now rewrite Nat.add_0_r.
  - destruct s as [|a s]; [reflexivity|]. cbn [chr_eq String.length drop].
    destruct (Ascii.eqb a c); cbn [andb]; [|reflexivity].
    rewrite IH. now replace (S pos + String.length d)
                  with (pos + S (String.length d)) by lia.
Qed.

Lemma search_from_found (r : regex) (pos : nat) (s : string) :
  matched (search_from false r pos s) = true ->
  exists pre rest pos',
    s = pre +:+ rest /\ matched (match_at false r pos' rest) = true.
Proof.
  revert pos. induction s as [|a s IH]; intros pos; cbn [search_from].
  - destruct (match_at false r pos "") eqn:Hm; [|discriminate].
    intros _. exists "", "", pos. now rewrite Hm.
  - destruct (match_at false r pos (String a s)) eqn:Hm.
    + intros _. exists "", (String a s), pos. now rewrite Hm.
    + intros H. destruct (IH (S pos) H) as (pre & rest & pos' & -> & Hr).
      exists (String a pre), rest, pos'. auto.
Qed.

Lemma match_at_run (r : regex) (pos : nat) (s : string) :
  matched (match_at false r pos s) = true ->
  exists res, run false r pos s "" (fun e _ g => Some (e, g)) = Some res.
Proof.
  unfold match_at. destruct (run false r pos s "" _) as [res|];
    [eauto | discriminate].
Qed.

(** What a hit of one of [invalid_patterns] at the head of a text
    means. *)
Lemma invalid_pattern_head (r : regex) (pos : nat) (t : string) :
  In r invalid_patterns ->
  matched (match_at false r pos t) = true ->
  (exists d, In d denylisted /\ startswith t d = true)
  \/ (exists c t', t = String c t' /\ forbidden_char c = true).
Proof.
  intros Hin Hm. apply match_at_run in Hm as [res Hrun].
  unfold invalid_patterns in Hin. cbn [In] in Hin.
  destruct Hin as [<-|Hin].
  { left. exists ".com". split; [unfold denylisted; pick_in_list|].
    cbn [cat fold_right] in Hrun. rewrite run_seq, run_lit_full in Hrun.
    destruct (startswith t ".com"); [reflexivity | discriminate]. }
  repeat (destruct Hin as [<-|Hin];
          [first
             [ match type of Hrun with
               | run false (lit ?d) _ _ _ _ = _ => left; exists d
               end;
               split; [unfold denylisted; pick_in_list|];
               rewrite run_lit_full in Hrun;
               match type of Hrun with
               | (if ?b then _ else _) = _ =>
                   destruct b; [reflexivity | discriminate]
               end
             | right; cbn [run] in Hrun;
               destruct t as [|a t]; [discriminate|];
               cbn [chr_eq] in Hrun;
               match type of Hrun with
               | (if Ascii.eqb ?a ?c then _ else _) = _ =>
                   destruct (Ascii.eqb_spec a c) as [->|_];
                   [eexists _, t; split; reflexivity | discriminate]
               end ]|]).
  destruct Hin as [<-|[]].
  right. cbn [run] in Hrun.
  apply rep_sound in Hrun as (n & Hn & Hall & Hlo & _ & _); [|exact I].
  destruct n as [|n]; [lia|]. destruct t as [|a t]; [cbn in Hn; lia|].
  cbn [take all_char] in Hall. apply andb_true_iff in Hall as [Ha _].
  unfold in_set in Ha. rewrite orb_false_r in Ha.
  exists a, t. split; [reflexivity|].
  unfold forbidden_char. rewrite Ha. now rewrite !orb_true_r.
Qed.

Lemma handle_char_lower_char (c : ascii) :
  handle_char (lower_char c) = handle_char c.
Proof. each_char c. Qed.

Lemma handle_char_not_forbidden (c : ascii) :
  handle_char c = true -> forbidden_char c = false.
Proof. each_char c. Qed.

Lemma lower_char_idem (c : ascii) : lower_char (lower_char c) = lower_char c.
Proof. each_char c. Qed.

Lemma lower_idem (s : string) : lower (lower s) = lower s.
Proof.
  induction s as [|c s IH]; [reflexivity|]. cbn.
  now rewrite lower_char_idem, IH.
Qed.

Lemma length_lower (s : string) : String.length (lower s) = String.length s.
Proof. induction s as [|c s IH]; [reflexivity|]. cbn. now rewrite IH. Qed.

Lemma all_char_handle_lower (s : string) :
  all_char handle_char (lower s) = all_char handle_char s.
Proof.
  induction s as [|c s IH]; [reflexivity|]. cbn.
  now rewrite handle_char_lower_char, IH.
Qed.

Lemma is_handle_lower (s : string) : is_handle (lower s) = is_handle s.
Proof. unfold is_handle. now rewrite length_lower, all_char_handle_lower. Qed.

Lemma clean_lower (s : string) : clean (lower s) = clean s.
Proof. unfold clean. now rewrite lower_idem. Qed.

Lemma all_char_app (p : ascii -> bool) (s t : string) :
  all_char p (s +:+ t) = all_char p s && all_char p t.
Proof.
  induction s as [|c s IH]; [reflexivity|]. cbn. now rewrite IH, andb_assoc.
Qed.

Lemma all_char_no_other (p q : ascii -> bool) (s : string) :
  (forall c, p c = true -> q c = false) ->
  all_char p s = true -> any_char q s = false.
Proof.
  intros Hpq. induction s as [|c s IH]; [reflexivity|]. cbn.
  intros H. apply andb_true_iff in H as [Hc Hs].
  now rewrite (Hpq c Hc), IH.
Qed.

Lemma clean_no_denylisted (username d : string) :
  clean username = true -> In d denylisted ->
  contains d (lower username) = false.
Proof.
  unfold clean. intros Hclean Hin.
  rewrite forallb_forall in Hclean. specialize (Hclean d Hin).
  now apply negb_true_iff in Hclean.
Qed.

Lemma handle_passes_invalid_patterns (username : string) :
  is_handle username = true -> clean username = true ->
  existsb (fun pattern => matched (re_search false pattern (lower username)))
    invalid_patterns = false.
Proof.
  intros Hh Hclean.
  destruct (existsb _ invalid_patterns) eqn:Hex; [|reflexivity]. exfalso.
  apply existsb_exists in Hex as (r & Hin & Hhit).
  apply search_from_found in Hhit as (pre & rest & pos & Hsplit & Hm).
  destruct (invalid_pattern_head r pos rest Hin Hm)
    as [(d & Hd & Hstart)|(c & t' & -> & Hc)].
  - pose proof (clean_no_denylisted username d Hclean Hd) as Hno.
    apply startswith_true in Hstart as [t ->].
    assert (Hyes : contains d (lower username) = true).
    { apply contains_true. exists pre, t. exact Hsplit. }
    congruence.
  - apply is_handle_chars in Hh. rewrite <- all_char_handle_lower in Hh.
    rewrite Hsplit, all_char_app in Hh. apply andb_true_iff in Hh as [_ Hh].
    cbn in Hh. apply andb_true_iff in Hh as [Hh _].
    apply handle_char_not_forbidden in Hh. congruence.
Qed.

(** The validator accepts what is a handle and clean. *)
Lemma valid_accepts (username : string) :
  is_handle username = true -> clean username = true ->
  _is_valid_instagram_username username = true.
Proof.
  intros Hh Hclean. destruct (is_handle_bounds username Hh) as [[Hlo Hhi] Hall].
  unfold _is_valid_instagram_username.
  rewrite (handle_passes_invalid_patterns username Hh Hclean).
  assert (Hat : contains "@" username = false).
  { rewrite contains_char. apply (all_char_no_other handle_char); [|exact Hall].
    intros c Hc. now destruct (handle_char_plain c Hc) as (_ & _ & _ & _ & ->). }
  rewrite Hat. cbn [andb].
  assert (Hurl : startswith username "http://" || startswith username "https://"
                 || startswith username "www." = false).
  { destruct (startswith username "http://") eqn:H1.
    { apply startswith_true in H1 as [t ->]. discriminate Hall. }
    destruct (startswith username "https://") eqn:H2.
    { apply startswith_true in H2 as [t ->]. discriminate Hall. }
    destruct (startswith username "www.") eqn:H3; [|reflexivity].
    apply startswith_true in H3 as [t ->].
    assert (Hwww : In "www" denylisted) by (unfold denylisted; pick_in_list).
    pose proof (clean_no_denylisted _ _ Hclean Hwww) as Hno.
    discriminate Hno. }
  rewrite Hurl.
  destruct (Nat.ltb_spec 30 (String.length username)); [lia|].
  rewrite (handle_matches_whole username None Hall Hlo I). reflexivity.
Qed.

Lemma denylisted_lower (d : string) : In d denylisted -> lower d = d.
Proof.
  intros Hin. unfold denylisted in Hin. cbn [In] in Hin.
  repeat (destruct Hin as [<-|Hin]; [reflexivity|]). contradiction.
Qed.

Lemma denylisted_invalid (username d : string) :
  In d denylisted -> contains d (lower username) = true ->
  _is_valid_instagram_username username = false.
Proof.
  intros Hd Hsub. apply contains_true in Hsub as (pre & post & Hsub).
  destruct (denylisted_pattern d Hd) as [r [Hin Hr]].
  apply (invalid_pattern_refuses r); [exact Hin|].
  rewrite Hsub. apply search_from_hit. intros pos.
  rewrite <- (denylisted_lower d Hd). apply Hr.
Qed.

Lemma stranger_invalid (username : string) :
  all_char handle_char username = false ->
  _is_valid_instagram_username username = false.
Proof.
  intros Hall.
  assert (Hbad : has_char (fun c => negb (handle_char c)) username).
  { apply any_char_true. clear -Hall.
    induction username as [|c s IH]; [discriminate|]. cbn in *.
    destruct (handle_char c); cbn in *; [now apply IH | reflexivity]. }
  destruct (any_char isspace username) eqn:Hsp.
  - apply forbidden_refused. apply any_char_true in Hsp.
    destruct Hsp as (pre & c & post & -> & Hc).
    exists pre, c, post. split; [reflexivity|].
    unfold forbidden_char. rewrite Hc. now rewrite !orb_true_r.
  - unfold _is_valid_instagram_username.
    rewrite (stranger_refused username Hbad Hsp). cbn [negb].
    repeat match goal with |- (if ?b then _ else _) = _ => destruct b end;
      reflexivity.
Qed.

(** What the validator accepts is a handle and clean. *)
Lemma valid_sound (username : string) :
  _is_valid_instagram_username username = true ->
  is_handle username = true /\ clean username = true.
Proof.
  intros Hvalid. split.
  - unfold is_handle.
    destruct (all_char handle_char username) eqn:Hall.
    2: { rewrite (stranger_invalid username Hall) in Hvalid. discriminate. }
    destruct username as [|c s]; [discriminate Hvalid|].
    destruct (Nat.leb_spec (String.length (String c s)) 30) as [|Hlong];
      [reflexivity|].
    exfalso. unfold _is_valid_instagram_username in Hvalid.
    apply Nat.ltb_lt in Hlong. rewrite Hlong in Hvalid.
    repeat match type of Hvalid with
           | (if ?b then _ else _) = _ => destruct b
           end; discriminate.
  - unfold clean. apply forallb_forall. intros d Hd.
    destruct (contains d (lower username)) eqn:Hsub; [|reflexivity].
    rewrite (denylisted_invalid username d Hd Hsub) in Hvalid. discriminate.
Qed.

(** X4. The validator accepts exactly the candidates of one to thirty
    characters of [[a-zA-Z0-9_.]] that hold no denylisted substring in
    any letter case; its tests for an e-mail address and for a URL
    refuse nothing more. *)
Theorem validator_exactly (username : string) :
  _is_valid_instagram_username username
  = is_handle username && clean username.
Proof.
  destruct (_is_valid_instagram_username username) eqn:Hvalid.
  - destruct (valid_sound username Hvalid) as [-> ->]. reflexivity.
  - destruct (is_handle username) eqn:Hh; [|reflexivity].
    destruct (clean username) eqn:Hc; [|reflexivity].
    rewrite (valid_accepts username Hh Hc) in Hvalid. discriminate.
Qed.

(** X5. On a candidate of code points 0..255, the verdict of the
    validator does not depend on the case of the letters: the
    candidate and its lower-case form get the same verdict. *)
Theorem validator_ignores_case (username : string) :
  _is_valid_instagram_username (lower username)
  = _is_valid_instagram_username username.
Proof.
  destruct (_is_valid_instagram_username username) eqn:Hvalid.
  - destruct (valid_sound username Hvalid) as [Hh Hc].
    apply valid_accepts; [now rewrite is_handle_lower | now rewrite clean_lower].
  - destruct (_is_valid_instagram_username (lower username)) eqn:Hlow;
      [|reflexivity].
    destruct (valid_sound _ Hlow) as [Hh Hc].
    rewrite is_handle_lower in Hh. rewrite clean_lower in Hc.
    rewrite (valid_accepts username Hh Hc) in Hvalid. discriminate.
Qed.

(** ** From a handle to its profile URL and back *)

Lemma run_lit_any (ic : bool) (p : string) (pos : nat) (rest g : string)
    (k : K) :
  run ic (lit p) pos (p +:+ rest) g k = k (pos + String.length p) rest g.
Proof.
  revert pos. induction p as [|c p IH]; intros pos; cbn [lit run String.append].
  - cbn. now rewrite Nat.add_0_r.
  - assert (Heq : chr_eq ic c c = true)
      by (unfold chr_eq; destruct ic; apply Ascii.eqb_refl).
    rewrite Heq, IH. cbn [String.length]. f_equal. lia.
Qed.

Lemma search_from_skip (ic : bool) (r : regex) (pos : nat) (a : ascii)
    (s : string) :
  match_at ic r pos (String a s) = None ->
  search_from ic r pos (String a s) = search_from ic r (S pos) s.
Proof. intros H. cbn [search_from]. now rewrite H. Qed.

Lemma match_at_head_mismatch (ic : bool) (c : ascii) (r : regex) (pos : nat)
    (a : ascii) (s : string) :
  chr_eq ic c a = false ->
  match_at ic (Seq (Seq (Chr c) r) Eps) pos (String a s) = None
  /\ match_at ic (Seq (Chr c) r) pos (String a s) = None.
Proof. intros H. unfold match_at. cbn [run]. now rewrite H. Qed.

(** The first pattern of [instagram_patterns] on a profile URL. *)
Lemma search_profile_url (g : string) :
  is_handle g = true ->
  re_search true (cat [lit "instagram.com/"; Grp handle]) (profile_url g)
  = Some {| m_start := 12; m_end := 26 + String.length g; group1 := g |}.
Proof.
  intros Hg. destruct (is_handle_bounds g Hg) as [[Hlo Hhi] Hall].
  unfold re_search, profile_url.
  change ("https://www.instagram.com/" +:+ g +:+ "/")
    with ("https://www." +:+ "instagram.com/" +:+ g +:+ "/").
  cbn [String.append].
  do 12 (rewrite search_from_skip by reflexivity).
  change (String "i" (String "n" (String "s" (String "t" (String "a"
            (String "g" (String "r" (String "a" (String "m" (String "."
            (String "c" (String "o" (String "m" (String "/" (g +:+ "/")))))))))))))))
    with ("instagram.com/" +:+ g +:+ "/").
  assert (Hm : match_at true (cat [lit "instagram.com/"; Grp handle]) 12
                 ("instagram.com/" +:+ g +:+ "/")
               = Some {| m_start := 12; m_end := 26 + String.length g;
                         group1 := g |}).
  { unfold match_at. cbn [cat fold_right]. rewrite run_seq_any, run_lit_any.
    rewrite run_seq_any. unfold handle. cbn [run String.length Nat.add].
    rewrite (rep_greedy true handle_char 1 (Some 30) g "/" 0 26 "" _
               (26 + String.length g, g)).
    - reflexivity.
    - now apply all_char_in_set_handle.
    - reflexivity.
    - cbn [bounded Nat.add]. lia.
    - lia.
    - cbn [run]. replace (26 + String.length g - 26) with (String.length g)
        by lia.
      now rewrite take_app_length. }
  destruct g as [|c g]; [discriminate Hg|].
  cbn [String.append] in *. cbn [search_from]. now rewrite Hm.
Qed.

Lemma profile_url_extracted (g : string) :
  is_handle g = true ->
  existsb (String.eqb (lower g)) reserved_pages = false ->
  _extract_username_from_url (profile_url g) = Some g.
Proof.
  intros Hg Hfree. unfold _extract_username_from_url, instagram_patterns.
  cbn [username_from_patterns].
  rewrite (search_profile_url g Hg). cbn [group1].
  now rewrite (cleaned_handle g Hg), Hfree.
Qed.

(** X6. Round trip: the profile URL built for a handle that is no
    reserved page name is a direct link, the normaliser leaves it as it
    is, and [_extract_username_from_url] gives the handle back. *)
Theorem profile_url_round_trip (g : string) :
  is_handle g = true ->
  existsb (String.eqb (lower g)) reserved_pages = false ->
  _is_direct_instagram_url (profile_url g) = true
  /\ _normalize_instagram_url (profile_url g) = Ok (profile_url g)
  /\ _extract_username_from_url (profile_url g) = Some g.
Proof.
  intros Hg Hfree. split; [|split].
  - unfold _is_direct_instagram_url. cbn [existsb].
    replace (matched (re_search false (lit "instagram.com")
                        (lower (profile_url g)))) with true; [reflexivity|].
    symmetry. unfold profile_url, re_search.
    change ("https://www.instagram.com/" +:+ g +:+ "/")
      with ("https://www." +:+ "instagram.com" +:+ "/" +:+ g +:+ "/").
    rewrite lower_app. apply search_from_hit. intros pos.
    rewrite lower_app. reflexivity.
  - unfold _normalize_instagram_url.
    assert (Hl : lower (profile_url g)
                 = "https://www.instagram.com/" +:+ lower g +:+ "/")
      by (unfold profile_url; rewrite !lower_app; reflexivity).
    rewrite Hl.
    replace (startswith ("https://www.instagram.com/" +:+ lower g +:+ "/") "@")
      with false by reflexivity.
    replace (startswith ("https://www.instagram.com/" +:+ lower g +:+ "/") "//")
      with false by reflexivity.
    replace (startswith ("https://www.instagram.com/" +:+ lower g +:+ "/") "/")
      with false by reflexivity.
    replace (startswith ("https://www.instagram.com/" +:+ lower g +:+ "/")
               "http") with true by reflexivity.
    cbn [negb].
    replace (contains "?" (profile_url g)) with false; [reflexivity|].
    symmetry. unfold profile_url. rewrite contains_char, !any_char_app.
    rewrite (all_char_no_other handle_char _ g); [reflexivity| |].
    + intros c Hc. now destruct (handle_char_plain c Hc) as (_ & -> & _).
    + now apply is_handle_chars.
  - exact (profile_url_extracted g Hg Hfree).
Qed.

Lemma profile_url_round_trip_witness :
  is_handle "Acme.Store_1" = true
  /\ existsb (String.eqb (lower "Acme.Store_1")) reserved_pages = false
  /\ _is_direct_instagram_url (profile_url "Acme.Store_1") = true
  /\ _normalize_instagram_url (profile_url "Acme.Store_1")
     = Ok (profile_url "Acme.Store_1")
  /\ _extract_username_from_url (profile_url "Acme.Store_1")
     = Some "Acme.Store_1".
Proof.
  split; [reflexivity|]. split; [reflexivity|].
  apply (profile_url_round_trip "Acme.Store_1"); reflexivity.
Defined.

Lemma reserved_profile_url (g : string) :
  existsb (String.eqb g) reserved_pages = true ->
  _extract_username_from_url (profile_url g) = None.
Proof.
  intros H. apply existsb_exists in H as (x & Hin & Hx).
  apply String.eqb_eq in Hx. subst x.
  unfold reserved_pages in Hin. cbn [In] in Hin.
  repeat (destruct Hin as [<-|Hin]; [reflexivity|]). contradiction.
Qed.

Lemma lstrip_handle (u : string) :
  all_char handle_char u = true -> lstrip u = u.
Proof.
  destruct u as [|c u]; [reflexivity|]. cbn. intros H.
  apply andb_true_iff in H as [Hc _].
  now destruct (handle_char_plain c Hc) as [-> _].
Qed.

Lemma take_nonspace_handle (u : string) :
  all_char handle_char u = true -> take_nonspace u = u.
Proof.
  induction u as [|c u IH]; [reflexivity|]. cbn. intros H.
  apply andb_true_iff in H as [Hc Hu].
  destruct (handle_char_plain c Hc) as [-> _]. now rewrite IH.
Qed.

Lemma remove_spaces_handle (u : string) :
  all_char handle_char u = true -> remove_spaces u = u.
Proof.
  induction u as [|c u IH]; [reflexivity|]. cbn. intros H.
  apply andb_true_iff in H as [Hc Hu].
  destruct (handle_char_plain c Hc) as [-> _]. now rewrite IH.
Qed.

Lemma at_handle_is_direct (h : string) :
  is_handle h = true -> _is_direct_instagram_url ("@" +:+ h) = true.
Proof.
  intros Hh. destruct (is_handle_bounds h Hh) as [[Hlo _] Hall].
  unfold _is_direct_instagram_url. cbn [existsb].
  assert (Hm : matched (re_search false
                          (cat [Bol; Chr "@"; Rep handle_char 1 None; Eol])
                          (lower ("@" +:+ h))) = true).
  { unfold re_search. cbn [String.append lower search_from].
    replace (lower_char "@") with "@"%char by reflexivity.
    assert (Hat : matched (match_at false
                             (cat [Bol; Chr "@"; Rep handle_char 1 None; Eol])
                             0 (String "@" (lower h))) = true).
    { apply match_at_some.
      set (k := fun (e : nat) (_ g : string) => Some (e, g)).
      change (run false (cat [Bol; Chr "@"; Rep handle_char 1 None; Eol]) 0
                (String "@" (lower h)) "" k)
        with (rep false handle_char 1 None 0 1 (lower h) ""
                (fun pos' s' g' => run false (Seq Eol Eps) pos' s' g' k)).
      assert (E : rep false handle_char 1 None 0 1 (lower h +:+ "") ""
                    (fun pos' s' g' => run false (Seq Eol Eps) pos' s' g' k)
                  = Some (1 + String.length (lower h), "")).
      { apply rep_greedy; cbn; try exact I; try reflexivity.
        - apply all_char_in_set_handle. now rewrite all_char_handle_lower.
        - rewrite length_lower. lia. }
      rewrite append_nil_r in E. rewrite E. discriminate. }
    destruct (match_at false _ 0 (String "@" (lower h))); [reflexivity|].
    discriminate Hat. }
  rewrite Hm. now rewrite !orb_true_r.
Qed.

Lemma at_handle_normalized (h : string) :
  is_handle h = true ->
  _normalize_instagram_url ("@" +:+ h) = Ok (profile_url (lower h)).
Proof.
  intros Hh. destruct (is_handle_bounds h Hh) as [[Hlo _] Hall].
  rewrite <- all_char_handle_lower in Hall.
  unfold _normalize_instagram_url. cbn [String.append lower].
  replace (startswith (String (lower_char "@") (lower h)) "@") with true
    by reflexivity.
  cbn [drop]. unfold first_word. rewrite (lstrip_handle _ Hall).
  destruct (lower h) as [|c t] eqn:E.
  - apply (f_equal String.length) in E. rewrite length_lower in E.
    cbn in E. lia.
  - now rewrite (take_nonspace_handle _ Hall).
Qed.

(** X7. For an input [@h] where [h] is one to thirty characters of
    [[a-zA-Z0-9_.]], [extract_instagram_info] touches no network and
    reports the profile URL of [h] in lower case. The status is
    [no_instagram] when [h] is a reserved page name, [found_direct] with
    the lower-cased [h] as username when the validator accepts it, and
    [invalid_username] with no username otherwise. *)
Theorem at_handle_input {platform : Platform}
    (self : AdvancedInstagramExtractor) (h : string) (w : World) :
  is_handle h = true ->
  exists o,
    extract_instagram_info self ("@" +:+ h) w = (w, Ok o)
    /\ instagram_url o = profile_url (lower h)
    /\ status o = at_handle_status h
    /\ instagram_username o
       = (if String.eqb (status o) "found_direct" then lower h else "")
    /\ pages_scanned o = 0%Z.
Proof.
  intros Hh. pose proof (is_handle_chars h Hh) as Hall.
  assert (Hat : all_char (fun c => negb (isspace c)) ("@" +:+ h) = true).
  { cbn. clear -Hall. induction h as [|c h IH]; [reflexivity|]. cbn in *.
    apply andb_true_iff in Hall as [Hc Hall].
    destruct (handle_char_plain c Hc) as [-> _]. now apply IH. }
  unfold extract_instagram_info.
  assert (Hstrip : strip ("@" +:+ h) = "@" +:+ h).
  { unfold strip. cbn [String.append].
    assert (Hr : rstrip_by isspace (String "@" h) = String "@" h).
    { cbn [rstrip_by]. rewrite (rstrip_by_handle isspace h); [|intros c Hc|exact Hall].
      - now destruct h.
      - now destruct (handle_char_plain c Hc). }
    rewrite Hr. reflexivity. }
  rewrite Hstrip.
  replace (String.eqb ("@" +:+ h) "") with false by reflexivity.
  cbn [orb].
  assert (Hspaces : remove_spaces ("@" +:+ h) = "@" +:+ h).
  { cbn [String.append remove_spaces].
    replace (isspace "@") with false by reflexivity.
    now rewrite (remove_spaces_handle h Hall). }
  rewrite Hspaces, (at_handle_is_direct h Hh), (at_handle_normalized h Hh).
  unfold at_handle_status.
  assert (Hlow : is_handle (lower h) = true) by now rewrite is_handle_lower.
  destruct (existsb (String.eqb (lower h)) reserved_pages) eqn:Hres.
  - rewrite (reserved_profile_url _ Hres). cbn [usable truthy andb].
    eexists. split; [reflexivity|]. cbn. auto.
  - rewrite (profile_url_extracted (lower h) Hlow);
      [|now rewrite lower_idem].
    unfold usable. cbn [dict_get].
    assert (Htruthy : truthy (Some (lower h)) = true).
    { destruct (lower h); [discriminate Hlow | reflexivity]. }
    rewrite Htruthy. cbn [andb].
    destruct (_is_valid_instagram_username (lower h));
      eexists; (split; [reflexivity|]); cbn; auto.
Qed.

Lemma at_handle_input_witness :
  is_handle "Web.Shop" = true
  /\ exists o,
       extract_instagram_info (platform := scripted offline) defaults
         ("@" +:+ "Web.Shop") tt = (tt, Ok o)
       /\ instagram_url o = profile_url (lower "Web.Shop")
       /\ status o = at_handle_status "Web.Shop"
       /\ instagram_username o
          = (if String.eqb (status o) "found_direct" then lower "Web.Shop"
             else "")
       /\ pages_scanned o = 0%Z.
Proof.
  split; [reflexivity|].
  apply (at_handle_input (platform := scripted offline) defaults "Web.Shop" tt).
  reflexivity.
Defined.

(** ** Direct links, exactly *)

Lemma search_lit_contains (d s : string) :
  matched (re_search false (lit d) s) = contains d s.
Proof.
  destruct (contains d s) eqn:Hc.
  - apply contains_true in Hc as (pre & post & ->).
    apply search_from_hit. intros pos. apply match_at_some.
    rewrite run_lit. discriminate.
  - destruct (matched (re_search false (lit d) s)) eqn:Hm; [|reflexivity].
    apply search_from_found in Hm as (pre & rest & pos & -> & Hm).
    apply match_at_run in Hm as [res Hrun]. rewrite run_lit_full in Hrun.
    destruct (startswith rest d) eqn:Hs; [|discriminate].
    apply startswith_true in Hs as [t ->].
    assert (Hyes : contains d (pre +:+ d +:+ t) = true)
      by (apply contains_true; exists pre, t; reflexivity).
    congruence.
Qed.

Lemma search_from_bol (rs : list regex) (pos : nat) (s : string) :
  search_from false (cat (Bol :: rs)) (S pos) s = None.
Proof.
  revert pos. induction s as [|a s IH]; intros pos; cbn [search_from].
  - reflexivity.
  - unfold match_at at 1. cbn [cat fold_right run Nat.eqb]. apply IH.
Qed.

Lemma search_bol_match (rs : list regex) (s : string) :
  matched (re_search false (cat (Bol :: rs)) s)
  = matched (match_at false (cat (Bol :: rs)) 0 s).
Proof.
  unfold re_search. destruct s as [|a s]; cbn [search_from].
  - now destruct (match_at false _ 0 "").
  - destruct (match_at false _ 0 (String a s)); [reflexivity|].
    now rewrite search_from_bol.
Qed.

Lemma at_pattern_form (t : string) :
  matched (match_at false (cat [Bol; Chr "@"; Rep handle_char 1 None; Eol]) 0 t)
  = true
  <-> at_form t.
Proof.
  set (k := fun (e : nat) (_ g : string) => Some (e, g)).
  assert (Hshape : forall t',
             run false (cat [Bol; Chr "@"; Rep handle_char 1 None; Eol]) 0
               (String "@" t') "" k
             = rep false handle_char 1 None 0 1 t' ""
                 (fun pos' s' g' => run false (Seq Eol Eps) pos' s' g' k))
    by reflexivity.
  split.
  - intros Hm. apply match_at_run in Hm as [res Hrun]. fold k in Hrun.
    destruct t as [|a t']; [discriminate Hrun|].
    destruct (Ascii.eqb_spec a "@") as [->|Hne].
    2: { cbn [cat fold_right run Nat.eqb chr_eq] in Hrun.
         apply Ascii.eqb_neq in Hne. rewrite Hne in Hrun. discriminate. }
    rewrite Hshape in Hrun.
    apply rep_sound in Hrun as (n & Hn & Hall & Hlo & _ & Hk); [|exact I].
    rewrite (all_char_ext _ _ _ (in_set_handle_char false)) in Hall.
    exists (take n t'). split; [|split; [exact Hall|]].
    + intros E. apply (f_equal String.length) in E.
      rewrite (length_take n t' Hn) in E. cbn in *. lia.
    + pose proof (take_drop n t') as Ht. cbn [run] in Hk.
      remember (take n t') as h eqn:Eh. remember (drop n t') as d eqn:Ed.
      clear Eh Ed Hn. subst t'.
      destruct d as [|b [|c rest]]; [left| |discriminate].
      * now rewrite append_nil_r.
      * right. destruct (Ascii.eqb_spec b "010") as [E|E];
          [rewrite E; reflexivity | discriminate].
  - intros (h & Hne & Hall & [->| ->]); apply match_at_some; fold k;
      cbn [String.append]; rewrite Hshape.
    + assert (E : rep false handle_char 1 None 0 1 (h +:+ "") ""
                    (fun pos' s' g' => run false (Seq Eol Eps) pos' s' g' k)
                  = Some (1 + String.length h, "")).
      { apply rep_greedy; cbn; try exact I; try reflexivity.
        - now apply all_char_in_set_handle.
        - destruct h; [contradiction | cbn; lia]. }
      rewrite append_nil_r in E. now rewrite E.
    + assert (E : rep false handle_char 1 None 0 1 (h +:+ newline) ""
                    (fun pos' s' g' => run false (Seq Eol Eps) pos' s' g' k)
                  = Some (1 + String.length h, "")).
      { apply rep_greedy; cbn; try exact I; try reflexivity.
        - now apply all_char_in_set_handle.
        - destruct h; [contradiction | cbn; lia]. }
      now rewrite E.
Qed.

(** X8. An input is taken for a direct link exactly when, in lower
    case, it holds [instagram.com] or [instagr.am], or is [@] and a
    non-empty run of [[a-zA-Z0-9_.]], with or without a final line
    feed. *)
Theorem direct_exactly (url : string) :
  _is_direct_instagram_url url = true
  <-> contains "instagram.com" (lower url) = true
      \/ contains "instagr.am" (lower url) = true
      \/ at_form (lower url).
Proof.
  unfold _is_direct_instagram_url. cbn [existsb].
  rewrite !search_lit_contains, search_bol_match, orb_false_r.
  rewrite !orb_true_iff, at_pattern_form. tauto.
Qed.

(** ** The normaliser is idempotent *)

Lemma rstrip_by_keep (p : ascii -> bool) (pre : string) (c : ascii)
    (s : string) :
  p c = false ->
  rstrip_by p (pre +:+ String c s) = pre +:+ String c (rstrip_by p s).
Proof.
  intros Hc. induction pre as [|a pre IH]; cbn [String.append rstrip_by].
  - destruct (rstrip_by p s); [now rewrite Hc | reflexivity].
  - rewrite IH. now destruct pre.
Qed.

Lemma question_mark_lower (c : ascii) :
  Ascii.eqb (lower_char c) "?" = Ascii.eqb c "?".
Proof. each_char c. Qed.

Lemma letter_is_plain (c : ascii) :
  handle_char (lower_char c) = true ->
  Ascii.eqb c "?" = false /\ Ascii.eqb "/" c = false.
Proof. rewrite handle_char_lower_char. intros H.
  now destruct (handle_char_plain c H) as (_ & -> & _ & -> & _). Qed.

Lemma http_head_kept (s : string) :
  startswith (lower s) "http" = true ->
  startswith (lower (rstrip_slash (split_head "?" s))) "http" = true.
Proof.
  intros H.
  destruct s as [|a [|b [|c [|d s]]]]; cbn [lower startswith] in H;
    rewrite ?andb_false_r in H; try discriminate H.
  rewrite !andb_true_iff, !Ascii.eqb_eq in H.
  destruct H as (Ha & Hb & Hc & Hd & _).
  assert (Pa : handle_char (lower_char a) = true) by now rewrite Ha.
  assert (Pb : handle_char (lower_char b) = true) by now rewrite Hb.
  assert (Pc : handle_char (lower_char c) = true) by now rewrite Hc.
  assert (Pd : handle_char (lower_char d) = true) by now rewrite Hd.
  destruct (letter_is_plain a Pa) as [Qa _].
  destruct (letter_is_plain b Pb) as [Qb _].
  destruct (letter_is_plain c Pc) as [Qc _].
  destruct (letter_is_plain d Pd) as [Qd Sd].
  cbn [split_head]. rewrite Qa, Qb, Qc, Qd. unfold rstrip_slash.
  change (String a (String b (String c (String d (split_head "?" s)))))
    with (String a (String b (String c "")) +:+ String d (split_head "?" s)).
  rewrite (rstrip_by_keep _ _ d _ Sd).
  cbn [String.append lower startswith]. rewrite Ha, Hb, Hc, Hd. reflexivity.
Qed.

Lemma completed_has_http (url : string) :
  startswith (lower (completion url +:+ url)) "http" = true.
Proof.
  unfold completion.
  destruct (startswith (lower url) "//");
    [rewrite lower_app; reflexivity|].
  destruct (startswith (lower url) "/");
    [rewrite lower_app; reflexivity|].
  destruct (startswith (lower url) "http") eqn:H; cbn [negb];
    [exact H | rewrite lower_app; reflexivity].
Qed.

(** A URL with [http] at its head and no [?] is left as it is. *)
Lemma normalize_fixed (r : string) :
  startswith (lower r) "http" = true ->
  contains "?" r = false ->
  _normalize_instagram_url r = Ok r.
Proof.
  intros Hhttp Hq. unfold _normalize_instagram_url.
  pose proof Hhttp as Hhead. apply startswith_true in Hhead as [t Ht].
  rewrite Ht.
  replace (startswith ("http" +:+ t) "@") with false by reflexivity.
  replace (startswith ("http" +:+ t) "//") with false by reflexivity.
  replace (startswith ("http" +:+ t) "/") with false by reflexivity.
  replace (startswith ("http" +:+ t) "http") with true by reflexivity.
  cbn [negb]. now rewrite Hq.
Qed.

Lemma any_char_lstrip (q : ascii -> bool) (s : string) :
  any_char q s = false -> any_char q (lstrip s) = false.
Proof.
  induction s as [|c s IH]; [reflexivity|]. cbn [lstrip].
  destruct (isspace c); [|trivial]. cbn. intros H.
  apply orb_false_iff in H as [_ H]. now apply IH.
Qed.

Lemma any_char_take_nonspace (q : ascii -> bool) (s : string) :
  any_char q s = false -> any_char q (take_nonspace s) = false.
Proof.
  induction s as [|c s IH]; [reflexivity|]. cbn.
  intros H. apply orb_false_iff in H as [Hc H].
  destruct (isspace c); [reflexivity|]. cbn. now rewrite Hc, IH.
Qed.

Lemma any_question_mark_lower (s : string) :
  any_char (fun a => Ascii.eqb a "?") (lower s)
  = any_char (fun a => Ascii.eqb a "?") s.
Proof.
  induction s as [|c s IH]; [reflexivity|]. cbn.
  now rewrite question_mark_lower, IH.
Qed.

(** X9. The normaliser is idempotent on every input that does not start
    with [@], and on every input that holds no [?]: what it returns, it
    returns again when applied to it. *)
Theorem normalize_idempotent (url r : string) :
  startswith url "@" = false \/ contains "?" url = false ->
  _normalize_instagram_url url = Ok r ->
  _normalize_instagram_url r = Ok r.
Proof.
  intros Hcase. unfold _normalize_instagram_url.
  rewrite startswith_lower_at.
  destruct (startswith url "@") eqn:Hat.
  - destruct Hcase as [|Hq]; [discriminate|].
    destruct url as [|c rest]; [discriminate Hat|].
    cbn [lower drop]. unfold first_word.
    destruct (lstrip (lower rest)) as [|a t] eqn:Hl; [discriminate|].
    intros [= <-]. apply normalize_fixed; [reflexivity|].
    rewrite contains_char in *. cbn [any_char] in Hq.
    apply orb_false_iff in Hq as [_ Hq].
    change (any_char (fun a0 => Ascii.eqb a0 "?")
              ("https://www.instagram.com/" +:+ take_nonspace (String a t)
               +:+ "/") = false).
    rewrite !any_char_app.
    replace (any_char (fun a0 => Ascii.eqb a0 "?") "https://www.instagram.com/")
      with false by reflexivity.
    replace (any_char (fun a0 => Ascii.eqb a0 "?") "/") with false
      by reflexivity.
    rewrite orb_false_r. cbn [orb].
    rewrite <- Hl.
    rewrite any_char_take_nonspace; [reflexivity|].
    apply any_char_lstrip. now rewrite any_question_mark_lower.
  - set (full := if startswith (lower url) "//" then _ else _).
    assert (Hfull : full = completion url +:+ url).
    { unfold full, completion.
      repeat match goal with |- context [if ?b then _ else _] => destruct b end;
        reflexivity. }
    pose proof (completed_has_http url) as Hhttp. rewrite <- Hfull in Hhttp.
    destruct (contains "?" full) eqn:Hq; intros [= <-].
    + apply normalize_fixed; [now apply http_head_kept|].
      rewrite contains_char. apply any_char_rstrip_by, any_char_split_head.
    + now apply normalize_fixed.
Qed.

Lemma normalize_idempotent_witness :
  (startswith "//Instagram.com/Acme/?hl=pt" "@" = false
   \/ contains "?" "//Instagram.com/Acme/?hl=pt" = false)
  /\ _normalize_instagram_url "//Instagram.com/Acme/?hl=pt"
     = Ok "https://Instagram.com/Acme"
  /\ _normalize_instagram_url "https://Instagram.com/Acme"
     = Ok "https://Instagram.com/Acme".
Proof.
  assert (H : startswith "//Instagram.com/Acme/?hl=pt" "@" = false
              \/ contains "?" "//Instagram.com/Acme/?hl=pt" = false)
    by (left; reflexivity).
  split; [exact H|]. split; [reflexivity|].
  exact (normalize_idempotent "//Instagram.com/Acme/?hl=pt"
           "https://Instagram.com/Acme" H eq_refl).
Defined.

(** ** The crawl is breadth-first *)

Lemma by_depth_app (l k : list (string * Z)) :
  by_depth l -> by_depth k ->
  (forall a b, In a l -> In b k -> (snd a <= snd b)%Z) ->
  by_depth (l ++ k).
Proof.
  unfold by_depth. intros Hl Hk Hcross.
  induction l as [|x l IH]; [exact Hk|].
  apply Sorted.StronglySorted_inv in Hl as [Hl Hx].
  cbn [app]. constructor.
  - apply IH; [exact Hl|]. intros a b Ha. apply Hcross. now right.
  - apply Forall_app. split; [exact Hx|].
    apply List.Forall_forall. intros b Hb. apply Hcross; [now left | exact Hb].
Qed.

Lemma by_depth_level (d : Z) (l : list (string * Z)) :
  Forall (fun e => snd e = d) l -> by_depth l.
Proof.
  unfold by_depth. induction 1 as [|x l Hx Hl IH]; constructor; [exact IH|].
  eapply List.Forall_impl; [|exact Hl]. intros e He. simpl in He. lia.
Qed.

Lemma by_depth_split (l k : list (string * Z)) (a b : string * Z) :
  by_depth (l ++ k) -> In a l -> In b k -> (snd a <= snd b)%Z.
Proof.
  unfold by_depth. induction l as [|x l IH]; [intros _ []|].
  cbn [app]. intros Hs Ha Hb.
  apply Sorted.StronglySorted_inv in Hs as [Hs Hx].
  destruct Ha as [->|Ha]; [|now apply IH].
  rewrite List.Forall_forall in Hx. apply Hx, in_or_app. now right.
Qed.

Section BreadthFirst.

Context {platform : Platform}.
Variable self : AdvancedInstagramExtractor.
Variable first : string * Z.

Lemma queue_inv_pop (st : CrawlState) (current_url : string) (depth : Z)
    (rest : list (string * Z)) (w : World) (vis : gset string) (n : Z)
    (log : list (string * bool)) (fresh : list (string * Z)) :
  queue_inv first st ->
  urls_to_visit st = (current_url, depth) :: rest ->
  fresh = [] \/ Forall (fun e => snd e = (depth + 1)%Z) fresh ->
  log = requests st \/ (exists b, log = requests st ++ [(current_url, b)]) ->
  queue_inv first
    {| world := w; visited_urls := vis; urls_to_visit := rest ++ fresh;
       scanned := n; requests := log; enqueued := enqueued st ++ fresh |}.
Proof.
  intros (Hsorted & Hnear & done & Henq & Hreq & Hfirst) Hq Hfresh Hlog.
  rewrite Hq in Henq, Hnear.
  assert (Hlevel : Forall (fun e => snd e = (depth + 1)%Z) fresh).
  { destruct Hfresh as [->|H]; [constructor | exact H]. }
  rewrite List.Forall_forall in Hlevel.
  assert (Hlow : forall a, In a (enqueued st) -> (snd a <= depth + 1)%Z).
  { intros a Ha. rewrite Henq in Ha. apply in_app_iff in Ha as [Ha|Ha].
    - rewrite Henq in Hsorted.
      pose proof (by_depth_split done _ a (current_url, depth) Hsorted Ha
                    (or_introl eq_refl)) as H.
      simpl in H. lia.
    - apply (Hnear (current_url, depth) a); [now left | exact Ha]. }
  assert (Hhigh : forall a, In a rest -> (depth <= snd a)%Z).
  { intros a Ha. rewrite Henq in Hsorted.
    apply (by_depth_split (done ++ [(current_url, depth)]) rest
             (current_url, depth) a).
    - now rewrite <- app_assoc.
    - apply in_or_app. right. now left.
    - exact Ha. }
  unfold queue_inv. cbn [enqueued urls_to_visit requests].
  split; [|split].
  - apply by_depth_app; [exact Hsorted | |].
    + apply (by_depth_level (depth + 1)). now apply List.Forall_forall.
    + intros a b Ha Hb. rewrite (Hlevel b Hb). now apply Hlow.
  - intros a b Ha Hb.
    assert (Hb' : (snd b <= depth + 1)%Z).
    { apply in_app_iff in Hb as [Hb|Hb].
      - apply (Hnear (current_url, depth) b); [now left | now right].
      - rewrite (Hlevel b Hb). lia. }
    apply in_app_iff in Ha as [Ha|Ha].
    + specialize (Hhigh a Ha). lia.
    + rewrite (Hlevel a Ha). lia.
  - exists (done ++ [(current_url, depth)]). split; [|split].
    + rewrite Henq, <- !app_assoc. reflexivity.
    + rewrite map_app. cbn [map fst].
      destruct Hlog as [->|[b ->]].
      * now apply sublist_inserts_r.
      * rewrite map_app. cbn [map fst]. now apply sublist_app.
    + destruct (enqueued st) as [|x l]; [discriminate Hfirst | exact Hfirst].
Qed.

Lemma turn_keeps_queue_inv (st : CrawlState) (fl : Flow) :
  queue_inv first st -> turn self st fl -> queue_inv first (after fl).
Proof.
  intros Hinv Hturn.
  destruct Hturn as [Hend|current_url depth rest Hq Hlt Hskip
                    |current_url depth rest w Hq Hlt Hnew Hd
                    |current_url depth rest w fresh fl Hq Hlt Hnew Hd Hfresh st' Hfl].
  - exact Hinv.
  - pose proof (queue_inv_pop st current_url depth rest (world st)
                  (visited_urls st) (scanned st) (requests st) []
                  Hinv Hq (or_introl eq_refl) (or_introl eq_refl)) as H.
    rewrite !app_nil_r in H. exact H.
  - pose proof (queue_inv_pop st current_url depth rest w
                  (visited_urls st) (scanned st)
                  (requests st ++ [(current_url, false)]) []
                  Hinv Hq (or_introl eq_refl)
                  (or_intror (ex_intro _ false eq_refl))) as H.
    rewrite !app_nil_r in H. exact H.
  - assert (Hst' : queue_inv first st').
    { apply (queue_inv_pop st current_url depth rest); [exact Hinv | exact Hq | |].
      - destruct Hfresh as [->|[_ H]]; [now left | now right].
      - right. now exists true. }
    destruct Hfl as [->|(info & page & -> & _)]; exact Hst'.
Qed.

Lemma crawl_loop_queue_inv (st : CrawlState) :
  queue_inv first st -> queue_inv first (fst (crawl_loop self st)).
Proof.
  apply (crawl_loop_rule self (queue_inv first)
           (fun st' _ => queue_inv first st')).
  - intros s s' Hs Hturn.
    apply (turn_keeps_queue_inv s (Next s') Hs).
    rewrite <- Hturn. apply crawl_turn_turn.
  - intros s s' r Hs Hturn.
    apply (turn_keeps_queue_inv s (Stop s' r) Hs).
    rewrite <- Hturn. apply crawl_turn_turn.
Qed.

End BreadthFirst.

Lemma initial_queue_inv {platform : Platform} (start_url : string) (w : World) :
  queue_inv (start_url, 0%Z) (initial start_url w).
Proof.
  unfold queue_inv, initial. cbn [enqueued urls_to_visit requests].
  split; [|split].
  - repeat constructor.
  - intros a b [<-|[]] [<-|[]]. simpl. lia.
  - exists []. split; [reflexivity|]. split; [constructor | reflexivity].
Qed.

(** X10. The crawl is breadth-first. In one call of
    [_crawl_site_for_instagram] the first entry queued is the start
    URL, with its scheme, at depth 0; the depths of the entries never
    decrease in the order in which they are queued; and the requests
    go to queued URLs in the order in which those were queued. *)
Theorem crawl_is_breadth_first {platform : Platform}
    (self : AdvancedInstagramExtractor) (start_url : string) (w : World) :
  let st := fst (_crawl_site_for_instagram self start_url w) in
  hd_error (enqueued st) = Some (with_scheme start_url, 0%Z)
  /\ by_depth (enqueued st)
  /\ map fst (requests st) `sublist_of` map fst (enqueued st).
Proof.
  unfold _crawl_site_for_instagram.
  pose proof (crawl_loop_queue_inv self _ _
                (initial_queue_inv (with_scheme start_url) w))
    as (Hsorted & _ & done & Henq & Hreq & Hfirst).
  destruct (crawl_loop self _) as [st r]. cbn [fst] in *.
  split; [exact Hfirst|]. split; [exact Hsorted|].
  rewrite Henq, map_app. now apply sublist_inserts_r.
Qed.

(** ** A crawl without budget *)

(** X11. With [max_pages] at most 0, or a negative [max_depth], the
    crawler makes no request, leaves the world as it was and returns
    [None]. *)
Theorem crawl_without_budget {platform : Platform}
    (self : AdvancedInstagramExtractor) (start_url : string) (w : World) :
  (max_pages self <= 0)%Z \/ (max_depth self < 0)%Z ->
  let run := _crawl_site_for_instagram self start_url w in
  requests (fst run) = [] /\ world (fst run) = w /\ snd run = Ok None.
Proof.
  intros Hbudget. unfold _crawl_site_for_instagram.
  rewrite crawl_loop_step. unfold crawl_turn.
  cbn [initial urls_to_visit scanned].
  destruct (Z.ltb_spec 0 (max_pages self)) as [Hpages|Hpages].
  2: { cbn. auto. }
  destruct Hbudget as [Hbudget|Hdepth]; [lia|].
  cbn [popped visited_urls].
  rewrite bool_decide_eq_false_2 by apply not_elem_of_empty.
  apply Z.ltb_lt in Hdepth. rewrite Hdepth.
  rewrite crawl_loop_empty by reflexivity. cbn. auto.
Qed.

Lemma crawl_without_budget_witness :
  ((max_pages no_page <= 0)%Z \/ (max_depth no_page < 0)%Z)
  /\ let run := _crawl_site_for_instagram (platform := scripted three)
                  no_page "shop.test" tt in
     requests (fst run) = [] /\ world (fst run) = tt /\ snd run = Ok None.
Proof.
  assert (H : (max_pages no_page <= 0)%Z \/ (max_depth no_page < 0)%Z)
    by (left; simpl; lia).
  split; [exact H|].
  exact (crawl_without_budget (platform := scripted three) no_page
           "shop.test" tt H).
Defined.

(** ** The outcomes by their origin *)

Section Origin.

Context {platform : Platform}.
Variable self : AdvancedInstagramExtractor.

(** The page count a crawl stamps on what it found. *)
Lemma crawl_loop_count (st : CrawlState) :
  (0 <= scanned st)%Z ->
  forall info, snd (crawl_loop self st) = Some info ->
    exists found_info n page,
      info = stamp found_info n page /\ scan_result found_info
      /\ (1 <= n <= max_pages self)%Z.
Proof.
  apply (crawl_loop_rule self (fun st => (0 <= scanned st)%Z)
           (fun _ r => forall info, r = Some info ->
              exists found_info n page,
                info = stamp found_info n page /\ scan_result found_info
                /\ (1 <= n <= max_pages self)%Z)).
  - intros s s' Hs Hturn. pose proof (crawl_turn_turn self s) as Ht.
    rewrite Hturn in Ht.
    inversion Ht as [|current_url depth rest Hq Hlt Hskip
                    |current_url depth rest w Hq Hlt Hnew Hd
                    |current_url depth rest w fresh fl Hq Hlt Hnew Hd Hfresh st' Hfl];
      subst; cbn [popped scanned]; try lia.
    destruct Hfl as [[= ->]|(found_info & page & [=] & _)].
    subst st'. cbn [scanned]. lia.
  - intros s s' r Hs Hturn info ->. pose proof (crawl_turn_turn self s) as Ht.
    rewrite Hturn in Ht.
    inversion Ht as [| | |current_url depth rest w fresh fl Hq Hlt Hnew Hd Hfresh st' Hfl];
      subst.
    destruct Hfl as [[=]|(found_info & page & [= _ ->] & Hres)].
    exists found_info, (scanned s + 1)%Z, page.
    split; [reflexivity|]. split; [exact Hres | lia].
Qed.

Lemma scan_result_kind (info : Info) :
  scan_result info -> In (i_status info) crawl_kinds.
Proof.
  intros [_ [->|[Hin _]]]; [now left | right; exact Hin].
Qed.

(** What the crawl step of [extract_instagram_info] returns. *)
Lemma crawl_and_report_cases (url url_str : string) (w : World) :
  exists o,
    snd (crawl_and_report self (blank_result url) url_str w) = Ok o
    /\ original_url o = url
    /\ ((In (status o) crawl_kinds
         /\ (1 <= pages_scanned o <= max_pages self)%Z)
        \/ (status o = "not_found_after_scan"
            /\ pages_scanned o = 0%Z /\ found_on_page o = "")).
Proof.
  unfold crawl_and_report, _crawl_site_for_instagram.
  set (start := initial _ w).
  assert (Hstart : (0 <= scanned start)%Z) by (cbn; lia).
  pose proof (crawl_loop_count start Hstart) as Hres.
  destruct (crawl_loop self start) as [st [info|]]; cbn [snd] in *.
  - destruct (Hres info eq_refl)
      as (found_info & n & page & -> & Hscan & Hn).
    pose proof (scan_result_kind found_info Hscan) as Hkind.
    destruct Hscan as [Hvalid _].
    cbn [stamp i_username]. rewrite Hvalid.
    eexists. split; [reflexivity|]. split; [reflexivity|].
    left. split; [exact Hkind | exact Hn].
  - eexists. split; [reflexivity|]. split; [reflexivity|].
    right. repeat split.
Qed.

End Origin.

Lemma crawl_not_offline (s : string) :
  In s crawl_kinds \/ s = "not_found_after_scan" -> ~ In s offline_kinds.
Proof.
  intros [Hin| ->] Hoff; [|not_in_list Hoff].
  unfold crawl_kinds in Hin. simpl in Hin.
  repeat (destruct Hin as [Hin|Hin]; [rewrite <- Hin in Hoff; not_in_list Hoff|]).
  contradiction.
Qed.

(** X12. The bookkeeping of a returned dictionary. It repeats the
    input as [original_url]. When its status is one a page scan gives,
    its page count is at least 1 and at most [max_pages]; with any
    other status the page count is 0 and [found_on_page] is empty. *)
Theorem outcome_bookkeeping {platform : Platform}
    (self : AdvancedInstagramExtractor) (url : string) (w : World)
    (o : Outcome) :
  snd (extract_instagram_info self url w) = Ok o ->
  original_url o = url
  /\ (In (status o) crawl_kinds ->
      (1 <= pages_scanned o <= max_pages self)%Z)
  /\ (~ In (status o) crawl_kinds ->
      pages_scanned o = 0%Z /\ found_on_page o = "").
Proof.
  assert (Hoff : forall o' : Outcome,
             In (status o') offline_kinds -> original_url o' = url ->
             pages_scanned o' = 0%Z -> found_on_page o' = "" ->
             Ok o' = Ok o ->
             original_url o = url
             /\ (In (status o) crawl_kinds ->
                 (1 <= pages_scanned o <= max_pages self)%Z)
             /\ (~ In (status o) crawl_kinds ->
                 pages_scanned o = 0%Z /\ found_on_page o = "")).
  { intros o' Hin Hurl Hn Hpage [= <-]. split; [exact Hurl|]. split.
    - intros Hcrawl. exfalso.
      apply (crawl_not_offline (status o')); [now left | exact Hin].
    - intros _. now split. }
  unfold extract_instagram_info.
  destruct (String.eqb url "" || String.eqb (strip url) "").
  { apply Hoff; try reflexivity. cbn. auto. }
  set (url_str := remove_spaces (strip url)).
  destruct (_is_direct_instagram_url url_str).
  - destruct (_normalize_instagram_url url_str) as [normalized_url|e];
      [|discriminate].
    destruct (usable (_extract_username_from_url normalized_url)).
    { apply Hoff; try reflexivity. cbn. auto. }
    destruct (truthy (_extract_username_from_url normalized_url));
      apply Hoff; try reflexivity; cbn; auto.
  - destruct (truthy (_extract_username_from_text url_str)).
    + destruct (_is_valid_instagram_username _);
        apply Hoff; try reflexivity; cbn; auto 10.
    + destruct (crawl_and_report_cases self url url_str w)
        as (o' & -> & Hurl & Hcase).
      intros [= <-]. split; [exact Hurl|].
      destruct Hcase as [[Hkind Hn]|(Hstatus & Hn & Hpage)].
      * split; [intros _; exact Hn | intros Hnot; contradiction].
      * split; [|intros _; now split].
        rewrite Hstatus. intros Hin. not_in_list Hin.
Qed.

Lemma outcome_bookkeeping_witness :
  snd (extract_instagram_info (platform := scripted acme) defaults
         "acme.test" tt) = Ok acme_outcome
  /\ original_url acme_outcome = "acme.test"
  /\ (In (status acme_outcome) crawl_kinds ->
      (1 <= pages_scanned acme_outcome <= max_pages defaults)%Z)
  /\ (~ In (status acme_outcome) crawl_kinds ->
      pages_scanned acme_outcome = 0%Z /\ found_on_page acme_outcome = "").
Proof.
  split; [exact acme_found|].
  exact (outcome_bookkeeping (platform := scripted acme) defaults "acme.test"
           tt acme_outcome acme_found).
Defined.

(** X13. The status [invalid_username_crawled] is never returned: the
    crawler only returns a username that the validator has accepted,
    so the second validation in [extract_instagram_info] cannot
    fail. *)
Theorem crawled_username_is_never_invalid {platform : Platform}
    (self : AdvancedInstagramExtractor) (url : string) (w : World)
    (o : Outcome) :
  snd (extract_instagram_info self url w) = Ok o ->
  status o <> "invalid_username_crawled".
Proof.
  unfold extract_instagram_info.
  destruct (String.eqb url "" || String.eqb (strip url) "").
  { intros [= <-]. discriminate. }
  set (url_str := remove_spaces (strip url)).
  destruct (_is_direct_instagram_url url_str).
  - destruct (_normalize_instagram_url url_str) as [normalized_url|e];
      [|discriminate].
    destruct (usable (_extract_username_from_url normalized_url)).
    { intros [= <-]. discriminate. }
    destruct (truthy (_extract_username_from_url normalized_url));
      intros [= <-]; discriminate.
  - destruct (truthy (_extract_username_from_text url_str)).
    + destruct (_is_valid_instagram_username _); intros [= <-]; discriminate.
    + destruct (crawl_and_report_cases self url url_str w)
        as (o' & -> & _ & Hcase).
      intros [= <-] Hstatus. rewrite Hstatus in Hcase.
      destruct Hcase as [[Hkind _]|[[=] _]]. not_in_list Hkind.
Qed.

Lemma crawled_username_is_never_invalid_witness :
  snd (extract_instagram_info (platform := scripted acme) defaults
         "acme.test" tt) = Ok acme_outcome
  /\ status acme_outcome <> "invalid_username_crawled".
Proof.
  split; [exact acme_found|].
  exact (crawled_username_is_never_invalid (platform := scripted acme)
           defaults "acme.test" tt acme_outcome acme_found).
Defined.

(** X14. An outcome whose status is given before any page is requested
    is settled by the input alone: with any collaborators, any
    settings and any world the call returns the same dictionary and
    leaves the world as it was. *)
Theorem offline_outcome_is_settled {platform : Platform}
    (self : AdvancedInstagramExtractor) (url : string) (w : World)
    (o : Outcome) :
  snd (extract_instagram_info self url w) = Ok o ->
  In (status o) offline_kinds ->
  forall (platform' : Platform) (self' : AdvancedInstagramExtractor)
         (w' : @World platform'),
    extract_instagram_info (platform := platform') self' url w' = (w', Ok o).
Proof.
  intros Hrun Hin platform' self' w'. revert Hrun.
  unfold extract_instagram_info.
  destruct (String.eqb url "" || String.eqb (strip url) "").
  { now intros [= <-]. }
  set (url_str := remove_spaces (strip url)).
  destruct (_is_direct_instagram_url url_str).
  - destruct (_normalize_instagram_url url_str) as [normalized_url|e];
      [|discriminate].
    destruct (usable (_extract_username_from_url normalized_url)).
    { now intros [= <-]. }
    destruct (truthy (_extract_username_from_url normalized_url));
      now intros [= <-].
  - destruct (truthy (_extract_username_from_text url_str)).
    + destruct (_is_valid_instagram_username _); now intros [= <-].
    + destruct (crawl_and_report_cases self url url_str w)
        as (o' & -> & _ & Hcase).
      intros [= <-]. exfalso.
      apply (crawl_not_offline (status o')); [|exact Hin].
      destruct Hcase as [[Hkind _]|[Hstatus _]]; [now left | now right].
Qed.

(** ** The links of a page *)

Section Links.

Context {platform : Platform}.

Lemma same_domain_true (base_url full_url : string) :
  same_domain base_url full_url = true
  <-> exists b u,
        urlparse base_url = Ok b /\ urlparse full_url = Ok u
        /\ netloc b <> "" /\ netloc u <> ""
        /\ contains (netloc b) (netloc u) = true.
Proof.
  unfold same_domain. split.
  - destruct (urlparse base_url) as [b|e]; [|discriminate].
    destruct (urlparse full_url) as [u|e]; [|discriminate].
    intros H. apply andb_true_iff in H as [H Hin].
    apply andb_true_iff in H as [Hb Hu].
    exists b, u. repeat split; try assumption.
    + intros E. rewrite E in Hb. discriminate Hb.
    + intros E. rewrite E in Hu. discriminate Hu.
  - intros (b & u & -> & -> & Hb & Hu & Hin).
    apply String.eqb_neq in Hb, Hu. now rewrite Hb, Hu, Hin.
Qed.

Lemma collect_links_spec (anchors : list Anchor) (base_url : string)
    (acc links : gset string) :
  collect_links anchors base_url acc = Ok links ->
  forall link,
    link ∈ links
    <-> link ∈ acc \/ exists a, In a anchors /\ kept_link base_url a link.
Proof.
  revert acc. induction anchors as [|a rest IH]; intros acc.
  { intros [= <-] link. split; [now left|]. intros [H|(a & [] & _)]. exact H. }
  cbn [collect_links].
  destruct (String.eqb_spec (strip (href a)) "") as [Hempty|Hempty].
  { cbn [orb]. intros Hrun link. rewrite (IH acc Hrun link).
    split; intros [H|(a' & Hin & Hkept)]; [now left| |now left|].
    - right. exists a'. split; [now right | exact Hkept].
    - destruct Hin as [<-|Hin]; [|right; now exists a'].
      destruct Hkept as [Hne _]. contradiction. }
  cbn [orb].
  destruct (startswith (strip (href a)) "#") eqn:Hfrag;
    [|destruct (startswith (strip (href a)) "javascript:") eqn:Hjs;
      [|destruct (startswith (strip (href a)) "mailto:") eqn:Hmail;
        [|destruct (startswith (strip (href a)) "tel:") eqn:Htel]]];
    cbn [orb].
  1-4: intros Hrun link; rewrite (IH acc Hrun link);
       (split; intros [H|(a' & Hin & Hkept)]; [now left| |now left|]);
       [right; exists a'; split; [now right | exact Hkept]
       |destruct Hin as [<-|Hin]; [|right; now exists a'];
        destruct Hkept as (_ & H1 & H2 & H3 & H4 & _); congruence].
  destruct (_normalize_url (strip (href a)) base_url) as [full_url|e] eqn:Hnorm;
    [|discriminate].
  destruct (same_domain base_url full_url) eqn:Hdom.
  - intros Hrun link. rewrite (IH _ Hrun link). split.
    + intros [H|(a' & Hin & Hkept)].
      * apply elem_of_union in H as [H|H]; [|now left].
        apply elem_of_singleton in H as ->.
        right. exists a. split; [now left|].
        unfold kept_link. cbv zeta. repeat split; try assumption.
        now apply same_domain_true.
      * right. exists a'. split; [now right | exact Hkept].
    + intros [H|(a' & [<-|Hin] & Hkept)].
      * left. now apply elem_of_union_r.
      * left. apply elem_of_union_l, elem_of_singleton.
        destruct Hkept as (_ & _ & _ & _ & _ & Hn & _). congruence.
      * right. now exists a'.
  - intros Hrun link. rewrite (IH _ Hrun link).
    split; intros [H|(a' & Hin & Hkept)]; [now left| |now left|].
    + right. exists a'. split; [now right | exact Hkept].
    + destruct Hin as [<-|Hin]; [|right; now exists a'].
      destruct Hkept as (_ & _ & _ & _ & _ & Hn & Hsame).
      apply same_domain_true in Hsame.
      rewrite Hnorm in Hn. injection Hn as <-. congruence.
Qed.

End Links.

(** X15. The links [_extract_links] returns for a page are exactly
    the absolute forms of the [href]s of its anchors that are not
    empty, start with none of [#], [javascript:], [mailto:] and
    [tel:], and lie in a domain in which the domain of the page
    occurs. *)
Theorem extract_links_exactly {platform : Platform} (html base_url : string)
    (links : list string) :
  _extract_links html base_url = Ok links ->
  forall link,
    In link links
    <-> exists a,
          In a (find_all_a (BeautifulSoup html)) /\ kept_link base_url a link.
Proof.
  unfold _extract_links.
  destruct (collect_links _ base_url ∅) as [found_links|e] eqn:Hrun;
    [|discriminate].
  intros [= <-] link.
  rewrite <- list_elem_of_In, list_of_set_spec.
  rewrite (collect_links_spec _ _ _ _ Hrun link).
  split; [|now right].
  intros [H|H]; [|exact H]. now apply not_elem_of_empty in H.
Qed.

Lemma extract_links_exactly_witness :
  _extract_links (platform := scripted three) "home" "http://shop.test"
  = Ok three_home_links
  /\ forall link,
       In link three_home_links
       <-> exists a,
             In a (find_all_a (@BeautifulSoup (scripted three) "home"))
             /\ kept_link (platform := scripted three) "http://shop.test"
                  a link.
Proof.
  assert (H : _extract_links (platform := scripted three) "home"
                "http://shop.test" = Ok three_home_links)
    by (vm_compute; reflexivity).
  split; [exact H|].
  exact (extract_links_exactly (platform := scripted three) "home"
           "http://shop.test" three_home_links H).
Defined.

(** ** A page scan that finds nothing *)

Lemma usable_false (username : option string) :
  usable username = false <-> no_handle username.
Proof.
  unfold usable, no_handle. destruct username as [[|c h]|]; cbn.
  - split; [intros _ h [= <-]; reflexivity | reflexivity].
  - split; [intros H h' [= <-]; exact H | intros H; now apply H].
  - split; [intros _ h [=] | reflexivity].
Qed.

Lemma text_of_nothing : _extract_username_from_text "" = None.
Proof. reflexivity. Qed.

Section PageScan.

Context {platform : Platform}.

Lemma scan_links_nothing (anchors : list Anchor) (page_url : string) :
  scan_links anchors page_url = Ok None
  <-> forall a, In a anchors ->
        (_is_direct_instagram_url (strip (href a)) = true ->
         exists normalized_url,
           _normalize_url (strip (href a)) page_url = Ok normalized_url
           /\ no_handle (_extract_username_from_url normalized_url))
        /\ no_handle (_extract_username_from_text (link_text a)).
Proof.
  induction anchors as [|a rest IH]; [split; [intros _ a [] | reflexivity]|].
  cbn [scan_links].
  set (in_text := if usable (_extract_username_from_text (link_text a))
                  then _ else _).
  assert (Htext : in_text = Ok None
                  <-> no_handle (_extract_username_from_text (link_text a))
                      /\ scan_links rest page_url = Ok None).
  { unfold in_text. rewrite <- usable_false.
    destruct (usable (_extract_username_from_text (link_text a))).
    - split; [discriminate | intros [[=] _]].
    - tauto. }
  destruct (_is_direct_instagram_url (strip (href a))) eqn:Hdirect.
  - destruct (_normalize_url (strip (href a)) page_url)
      as [normalized_url|e] eqn:Hnorm.
    + destruct (usable (_extract_username_from_url normalized_url)) eqn:Hu.
      * split; [discriminate|]. intros H.
        destruct (H a (or_introl eq_refl)) as [Hhref _].
        destruct (Hhref Hdirect) as (n & Hn & Hno).
        rewrite Hnorm in Hn. injection Hn as <-.
        apply usable_false in Hno. congruence.
      * rewrite Htext, IH. split.
        -- intros [Hno Hrest] a' [<-|Hin]; [|now apply Hrest].
           split; [|exact Hno]. intros _. exists normalized_url.
           split; [exact Hnorm | now apply usable_false].
        -- intros H. split; [apply (H a); now left|].
           intros a' Hin. apply H. now right.
    + split; [discriminate|]. intros H.
      destruct (H a (or_introl eq_refl)) as [Hhref _].
      destruct (Hhref Hdirect) as (n & Hn & _). congruence.
  - rewrite Htext, IH. split.
    + intros [Hno Hrest] a' [<-|Hin]; [|now apply Hrest].
      split; [|exact Hno]. intros E. rewrite Hdirect in E. discriminate E.
    + intros H. split; [apply (H a); now left|].
      intros a' Hin. apply H. now right.
Qed.

End PageScan.

Lemma scan_metas_nothing (metas : list MetaTag) :
  scan_metas metas = None
  <-> forall m, In m metas ->
        no_handle (_extract_username_from_text (content m)).
Proof.
  induction metas as [|m rest IH]; [split; [intros _ m [] | reflexivity]|].
  cbn [scan_metas].
  destruct (String.eqb_spec (content m) "") as [Hempty|Hfull]; cbn [negb].
  - rewrite IH. split.
    + intros Hrest m' [<-|Hin]; [|now apply Hrest].
      rewrite Hempty, text_of_nothing. intros h [=].
    + intros H m' Hin. apply H. now right.
  - destruct (usable (_extract_username_from_text (content m))) eqn:Hu.
    + split; [discriminate|]. intros H.
      pose proof (H m (or_introl eq_refl)) as Hno.
      apply usable_false in Hno. congruence.
    + rewrite IH. split.
      * intros Hrest m' [<-|Hin]; [now apply usable_false | now apply Hrest].
      * intros H m' Hin. apply H. now right.
Qed.

Lemma scan_elements_nothing (selector : string) (elements : list string) :
  scan_elements selector elements = None
  <-> forall element_text, In element_text elements ->
        no_handle (_extract_username_from_text element_text).
Proof.
  induction elements as [|t rest IH]; [split; [intros _ t [] | reflexivity]|].
  cbn [scan_elements].
  destruct (usable (_extract_username_from_text t)) eqn:Hu.
  - split; [discriminate|]. intros H.
    pose proof (H t (or_introl eq_refl)) as Hno.
    apply usable_false in Hno. congruence.
  - rewrite IH. split.
    + intros Hrest t' [<-|Hin]; [now apply usable_false | now apply Hrest].
    + intros H t' Hin. apply H. now right.
Qed.

Lemma scan_selectors_nothing (soup : Soup) (selectors : list string) :
  scan_selectors soup selectors = None
  <-> forall selector element_text,
        In selector selectors -> In element_text (select soup selector) ->
        no_handle (_extract_username_from_text element_text).
Proof.
  induction selectors as [|s rest IH];
    [split; [intros _ s t [] | reflexivity]|].
  cbn [scan_selectors].
  destruct (scan_elements s (select soup s)) as [info|] eqn:He.
  - split; [discriminate|]. intros H.
    assert (Hnone : scan_elements s (select soup s) = None).
    { apply scan_elements_nothing. intros t Hin. apply (H s t); [now left|exact Hin]. }
    congruence.
  - rewrite IH. split.
    + intros Hrest s' t [<-|Hin] Ht; [|now apply (Hrest s' t)].
      now apply (proj1 (scan_elements_nothing s _) He).
    + intros H s' t Hin. apply H. now right.
Qed.

(** X16. A page scan returns [None] exactly when no step of it finds
    a handle that the validator accepts: every link with an Instagram
    [href] has an absolute form from which no such handle is read, and
    no link text, page text, meta content or social element names
    one. *)
Theorem page_scan_finds_nothing_exactly {platform : Platform}
    (html page_url : string) :
  _find_instagram_in_page html page_url = Ok None
  <-> nothing_usable (BeautifulSoup html) page_url.
Proof.
  unfold _find_instagram_in_page, nothing_usable.
  set (soup := BeautifulSoup html).
  rewrite <- scan_links_nothing, <- usable_false, <- scan_metas_nothing.
  rewrite <- (scan_selectors_nothing soup social_selectors).
  destruct (scan_links (find_all_a soup) page_url) as [[info|]|e].
  - split; [discriminate | intros [[=] _]].
  - destruct (usable (_extract_username_from_text (get_text soup))).
    + split; [discriminate | intros (_ & [=] & _)].
    + destruct (scan_metas (find_all_meta soup)) as [info|].
      * split; [discriminate | intros (_ & _ & [=] & _)].
      * split.
        -- intros H. repeat split. injection H as H. exact H.
        -- intros (_ & _ & _ & H). f_equal. exact H.
  - split; [discriminate | intros [[=] _]].
Qed.

Lemma offline_outcome_is_settled_witness :
  snd (extract_instagram_info (platform := scripted offline) defaults
         "@acme_store" tt) = Ok acme_direct
  /\ In (status acme_direct) offline_kinds
  /\ extract_instagram_info (platform := scripted three) no_page
       "@acme_store" tt = (tt, Ok acme_direct).
Proof.
  assert (H : snd (extract_instagram_info (platform := scripted offline)
                     defaults "@acme_store" tt) = Ok acme_direct)
    by (vm_compute; reflexivity).
  assert (Hin : In (status acme_direct) offline_kinds)
    by (simpl; pick_in_list).
  split; [exact H|]. split; [exact Hin|].
  exact (offline_outcome_is_settled (platform := scripted offline) defaults
           "@acme_store" tt acme_direct H Hin (scripted three) no_page tt).
Defined.

(** ** The page on which a crawl finds *)

Section Found.

Context {platform : Platform}.
Variable self : AdvancedInstagramExtractor.

Lemma crawl_loop_found (st : CrawlState) :
  scanned st = Z.of_nat (length (pages (requests st))) ->
  forall info, snd (crawl_loop self st) = Some info ->
    let st' := fst (crawl_loop self st) in
    i_pages_scanned info = Some (Z.of_nat (length (pages (requests st'))))
    /\ exists log u, requests st' = log ++ [(u, true)].
Proof.
  apply (crawl_loop_rule self
           (fun st => scanned st = Z.of_nat (length (pages (requests st))))
           (fun st' r => forall info, r = Some info ->
              i_pages_scanned info
              = Some (Z.of_nat (length (pages (requests st'))))
              /\ exists log u, requests st' = log ++ [(u, true)])).
  - intros s s' Hs Hturn. pose proof (crawl_turn_turn self s) as Ht.
    rewrite Hturn in Ht.
    inversion Ht as [|current_url depth rest Hq Hlt Hskip
                    |current_url depth rest w Hq Hlt Hnew Hd
                    |current_url depth rest w fresh fl Hq Hlt Hnew Hd Hfresh st' Hfl];
      subst; cbn [popped scanned requests].
    + exact Hs.
    + now rewrite pages_snoc, app_nil_r.
    + destruct Hfl as [[= ->]|(found_info & page & [=] & _)].
      subst st'. cbn [scanned requests].
      rewrite pages_snoc, length_app. simpl. lia.
  - intros s s' r Hs Hturn info ->. pose proof (crawl_turn_turn self s) as Ht.
    rewrite Hturn in Ht.
    inversion Ht as [| | |current_url depth rest w fresh fl Hq Hlt Hnew Hd Hfresh st' Hfl];
      subst.
    destruct Hfl as [[=]|(found_info & page & [= -> ->] & _)].
    subst st'. cbn [stamp i_pages_scanned requests]. split.
    + rewrite pages_snoc, length_app. simpl. f_equal. lia.
    + now exists (requests s), current_url.
Qed.

End Found.

(** X17. When the crawler returns a dictionary, the page count it
    stamps on it is the number of requests that were answered with
    status 200, and the last request of the crawl is one of them: the
    crawl stops on the page where it finds. *)
Theorem found_page_is_counted {platform : Platform}
    (self : AdvancedInstagramExtractor) (start_url : string) (w : World)
    (info : Info) :
  snd (_crawl_site_for_instagram self start_url w) = Ok (Some info) ->
  let st := fst (_crawl_site_for_instagram self start_url w) in
  i_pages_scanned info = Some (Z.of_nat (length (pages (requests st))))
  /\ exists log u, requests st = log ++ [(u, true)].
Proof.
  unfold _crawl_site_for_instagram.
  pose proof (crawl_loop_found self (initial (with_scheme start_url) w)
                eq_refl info) as H.
  destruct (crawl_loop self _) as [st r]. cbn [fst snd] in *.
  intros [= ->]. now apply H.
Qed.

Lemma acme_crawl :
  snd (_crawl_site_for_instagram (platform := scripted acme) defaults
         "acme.test" tt) = Ok (Some acme_info).
Proof. crawl_eval 5. Qed.

Lemma found_page_is_counted_witness :
  snd (_crawl_site_for_instagram (platform := scripted acme) defaults
         "acme.test" tt) = Ok (Some acme_info)
  /\ let st := fst (_crawl_site_for_instagram (platform := scripted acme)
                      defaults "acme.test" tt) in
     i_pages_scanned acme_info
     = Some (Z.of_nat (length (pages (requests st))))
     /\ exists log u, requests st = log ++ [(u, true)].
Proof.
  split; [exact acme_crawl|].
  exact (found_page_is_counted (platform := scripted acme) defaults
           "acme.test" tt acme_info acme_crawl).
Defined.

(** ** Whitespace in the input *)

Lemma remove_spaces_lstrip (s : string) :
  remove_spaces (lstrip s) = remove_spaces s.
Proof.
  induction s as [|c s IH]; [reflexivity|].
  cbn [lstrip remove_spaces]. destruct (isspace c) eqn:Hc; [exact IH|].
  cbn [remove_spaces]. now rewrite Hc.
Qed.

Lemma remove_spaces_rstrip (s : string) :
  remove_spaces (rstrip_by isspace s) = remove_spaces s.
Proof.
  induction s as [|c s IH]; [reflexivity|].
  cbn [rstrip_by remove_spaces]. rewrite <- IH.
  destruct (rstrip_by isspace s) as [|c' t].
  - destruct (isspace c) eqn:Hc; cbn [remove_spaces]; now rewrite ?Hc.
  - reflexivity.
Qed.

Lemma remove_spaces_strip (s : string) :
  remove_spaces (strip s) = remove_spaces s.
Proof. unfold strip. now rewrite remove_spaces_lstrip, remove_spaces_rstrip. Qed.

Lemma lstrip_empty (s : string) :
  String.eqb (lstrip s) "" = String.eqb (remove_spaces s) "".
Proof.
  induction s as [|c s IH]; [reflexivity|].
  cbn [lstrip remove_spaces]. now destruct (isspace c).
Qed.

Lemma strip_empty (s : string) :
  String.eqb (strip s) "" = String.eqb (remove_spaces s) "".
Proof. unfold strip. now rewrite lstrip_empty, remove_spaces_rstrip. Qed.

Lemma remove_spaces_idem (s : string) :
  remove_spaces (remove_spaces s) = remove_spaces s.
Proof.
  induction s as [|c s IH]; [reflexivity|].
  cbn [remove_spaces]. destruct (isspace c) eqn:Hc; [exact IH|].
  cbn [remove_spaces]. now rewrite Hc, IH.
Qed.

Lemma empty_test (url : string) :
  String.eqb url "" || String.eqb (strip url) ""
  = String.eqb (remove_spaces url) "".
Proof.
  rewrite strip_empty. destruct url; [reflexivity|]. reflexivity.
Qed.

(** X18. Whitespace in the input changes nothing but the key
    [original_url]: a call returns what the call on the input without
    its whitespace returns, with the input as it was given in
    [original_url]. *)
Theorem whitespace_is_ignored {platform : Platform}
    (self : AdvancedInstagramExtractor) (url : string) (w : World) :
  extract_instagram_info self url w
  = let '(w', r) := extract_instagram_info self (remove_spaces url) w in
    (w', match r with
         | Ok o => Ok (with_original_url url o)
         | Raise e => Raise e
         end).
Proof.
  unfold extract_instagram_info.
  rewrite !empty_test, !remove_spaces_strip, remove_spaces_idem.
  set (url_str := remove_spaces url).
  destruct (String.eqb url_str ""); [reflexivity|].
  destruct (_is_direct_instagram_url url_str).
  - destruct (_normalize_instagram_url url_str) as [normalized_url|e];
      [|reflexivity].
    destruct (usable (_extract_username_from_url normalized_url));
      [reflexivity|].
    destruct (truthy (_extract_username_from_url normalized_url));
      reflexivity.
  - destruct (truthy (_extract_username_from_text url_str)).
    + destruct (_is_valid_instagram_username _); reflexivity.
    + unfold crawl_and_report.
      destruct (_crawl_site_for_instagram self url_str w)
        as [st [[info|]|e]]; try reflexivity.
      destruct (_is_valid_instagram_username (i_username info)); reflexivity.
Qed.

(** ** Absolute links *)

Lemma protocol_relative (url : string) :
  startswith url "//" = true ->
  startswith ("https:" +:+ url) "http://" = false
  /\ startswith ("https:" +:+ url) "https://" = true.
Proof.
  intros H. destruct url as [|a [|b t]]; cbn [startswith] in H;
    rewrite ?andb_false_r in H; try discriminate H.
  apply andb_true_iff in H as [Ha H]. apply andb_true_iff in H as [Hb _].
  apply Ascii.eqb_eq in Ha, Hb. subst a b. split; reflexivity.
Qed.

(** X19. An [href] that starts with [http://], [https://] or [//] is
    made absolute without the page it stands on: [_normalize_url]
    returns, for any base, a URL that starts with [http://] or
    [https://] and that it leaves as it is. *)
Theorem absolute_href_needs_no_base {platform : Platform}
    (url base_url : string) :
  startswith url "http://" || startswith url "https://"
  || startswith url "//" = true ->
  exists full_url,
    (forall base, _normalize_url url base = Ok full_url)
    /\ startswith full_url "http://" || startswith full_url "https://" = true
    /\ _normalize_url full_url base_url = Ok full_url.
Proof.
  intros H. unfold _normalize_url.
  destruct (startswith url "http://" || startswith url "https://") eqn:Habs.
  - exists url. rewrite Habs. repeat split.
  - cbn [orb] in H. rewrite H.
    destruct (protocol_relative url H) as [H1 H2].
    exists ("https:" +:+ url). rewrite H1, H2. repeat split.
Qed.

Lemma absolute_href_needs_no_base_witness :
  startswith "//cdn.shop.test/x" "http://"
  || startswith "//cdn.shop.test/x" "https://"
  || startswith "//cdn.shop.test/x" "//" = true
  /\ exists full_url,
       (forall base,
           _normalize_url (platform := scripted three) "//cdn.shop.test/x"
             base = Ok full_url)
       /\ startswith full_url "http://" || startswith full_url "https://"
          = true
       /\ _normalize_url (platform := scripted three) full_url
            "http://shop.test" = Ok full_url.
Proof.
  split; [reflexivity|].
  exact (absolute_href_needs_no_base (platform := scripted three)
           "//cdn.shop.test/x" "http://shop.test" eq_refl).
Defined.

(** ** Page counts and handles *)

(** X20. A returned dictionary with a page count other than 0 names a
    handle: its status is one a page scan gives and its username is
    not empty. *)
Theorem counted_pages_come_with_a_handle {platform : Platform}
    (self : AdvancedInstagramExtractor) (url : string) (w : World)
    (o : Outcome) :
  snd (extract_instagram_info self url w) = Ok o ->
  pages_scanned o <> 0%Z ->
  In (status o) crawl_kinds /\ instagram_username o <> "".
Proof.
  intros Hrun Hpages.
  assert (Hkind : In (status o) crawl_kinds).
  { revert Hrun. unfold extract_instagram_info.
    destruct (String.eqb url "" || String.eqb (strip url) "").
    { intros [= <-]. now contradiction Hpages. }
    set (url_str := remove_spaces (strip url)).
    destruct (_is_direct_instagram_url url_str).
    - destruct (_normalize_instagram_url url_str) as [normalized_url|e];
        [|discriminate].
      destruct (usable (_extract_username_from_url normalized_url)).
      { intros [= <-]. now contradiction Hpages. }
      destruct (truthy (_extract_username_from_url normalized_url));
        intros [= <-]; now contradiction Hpages.
    - destruct (truthy (_extract_username_from_text url_str)).
      + destruct (_is_valid_instagram_username _);
          intros [= <-]; now contradiction Hpages.
      + destruct (crawl_and_report_cases self url url_str w)
          as (o' & -> & _ & Hcase).
        intros [= <-].
        destruct Hcase as [[Hkind _]|(_ & Hzero & _)];
          [exact Hkind | contradiction]. }
  split; [exact Hkind|].
  destruct (extract_shape self url w) as (o' & Ho' & Hshape).
  rewrite Hrun in Ho'. injection Ho' as <-.
  apply (shape_username o Hshape).
  unfold crawl_kinds in Hkind. unfold found_kinds. in_sublist Hkind.
Qed.

Lemma counted_pages_come_with_a_handle_witness :
  snd (extract_instagram_info (platform := scripted acme) defaults
         "acme.test" tt) = Ok acme_outcome
  /\ pages_scanned acme_outcome <> 0%Z
  /\ In (status acme_outcome) crawl_kinds
  /\ instagram_username acme_outcome <> "".
Proof.
  assert (Hpages : pages_scanned acme_outcome <> 0%Z) by discriminate.
  split; [exact acme_found|]. split; [exact Hpages|].
  exact (counted_pages_come_with_a_handle (platform := scripted acme) defaults
           "acme.test" tt acme_outcome acme_found Hpages).
Defined.

(** ** Where the crawler goes *)

Section Follow.

Context {platform : Platform}.
Variable self : AdvancedInstagramExtractor.

Lemma replay_snoc (urls : list string) (u : string) (w w1 w2 : World)
    (given : list (Exc Response)) (answer : Exc Response) :
  replay self urls w = (given, w1) ->
  session_get u (timeout self) w1 = (w2, answer) ->
  replay self (urls ++ [u]) w = (given ++ [answer], w2).
Proof.
  revert w given. induction urls as [|v urls IH]; intros w given.
  - intros [= <- <-] Hget. cbn [app replay]. now rewrite Hget.
  - cbn [app replay].
    destruct (session_get v (timeout self) w) as [w' a].
    destruct (replay self urls w') as [more w''] eqn:Hrest.
    intros [= <- <-] Hget. now rewrite (IH w' more Hrest Hget).
Qed.

Lemma link_of_more_answers (given more : list (Exc Response))
    (link : string) :
  link_of_an_answer given link \/ link_of_an_answer more link ->
  link_of_an_answer (given ++ more) link.
Proof.
  intros [(response & links & Hin & H)|(response & links & Hin & H)];
    exists response, links; (split; [|exact H]); apply in_or_app; auto.
Qed.

(** A turn makes no request, or one: its answer is logged as it was,
    and what the turn queues are links of that answer. *)
Lemma crawl_turn_requests (st : CrawlState) :
  (world (after (crawl_turn self st)) = world st
   /\ requests (after (crawl_turn self st)) = requests st
   /\ enqueued (after (crawl_turn self st)) = enqueued st)
  \/ exists u answer fresh,
       session_get u (timeout self) (world st)
       = (world (after (crawl_turn self st)), answer)
       /\ requests (after (crawl_turn self st))
          = requests st ++ [(u, answered_ok answer)]
       /\ enqueued (after (crawl_turn self st)) = enqueued st ++ fresh
       /\ Forall (fun e => link_of_an_answer [answer] (fst e)) fresh.
Proof.
  unfold crawl_turn.
  destruct (urls_to_visit st) as [|[current_url depth] rest] eqn:Hq;
    [now left|].
  destruct (Z.ltb (scanned st) (max_pages self)); [|now left].
  case_bool_decide as Hvis; [now left|].
  destruct (Z.ltb (max_depth self) depth); [now left|].
  right. exists current_url. unfold visit.
  cbn [popped world visited_urls urls_to_visit scanned requests enqueued].
  destruct (session_get current_url (timeout self) (world st))
    as [w [response|e]] eqn:Hget.
  2: { exists (Raise e), []. cbn. now rewrite app_nil_r. }
  exists (Ok response). cbn [answered_ok].
  destruct (Z.eqb_spec (status_code response) 200) as [Hok|Hbad].
  2: { exists []. cbn. now rewrite app_nil_r. }
  destruct (_find_instagram_in_page _ _) as [[found_info|]|e] eqn:Hpage.
  - exists []. cbn. now rewrite app_nil_r.
  - destruct (Z.ltb depth (max_depth self)).
    + destruct (_extract_links _ _) as [new_links|e] eqn:Hlinks.
      * eexists. cbn [after world requests enqueued].
        split; [reflexivity|]. split; [reflexivity|]. split; [reflexivity|].
        apply List.Forall_forall. intros entry Hin.
        apply List.in_map_iff in Hin as (link & <- & Hin).
        apply list_elem_of_In, list_elem_of_filter in Hin as [_ Hin].
        apply list_elem_of_In in Hin.
        exists response, new_links. cbn [fst]. repeat split; auto.
        now left.
      * exists []. cbn. now rewrite app_nil_r.
    + exists []. cbn. now rewrite app_nil_r.
  - exists []. cbn. now rewrite app_nil_r.
Qed.

Lemma turn_keeps_follow_inv (w : World) (first : string * Z)
    (st : CrawlState) :
  follow_inv self w first st ->
  follow_inv self w first (after (crawl_turn self st)).
Proof.
  intros (given & Hanswers & Hflags & Hqueued).
  destruct (crawl_turn_requests st)
    as [(Hw & Hr & He)|(u & answer & fresh & Hget & Hr & He & Hfresh)].
  - exists given. now rewrite Hw, Hr, He.
  - exists (given ++ [answer]). rewrite Hr, He. split; [|split].
    + rewrite map_app. cbn [map fst].
      exact (replay_snoc _ u w _ _ given answer Hanswers Hget).
    + rewrite !map_app, Hflags. reflexivity.
    + apply Forall_app. split.
      * eapply List.Forall_impl; [|exact Hqueued].
        intros e [He'|He']; [now left|].
        right. apply link_of_more_answers. now left.
      * eapply List.Forall_impl; [|exact Hfresh].
        intros e He'. right. apply link_of_more_answers. now right.
Qed.

Lemma crawl_loop_follow_inv (w : World) (first : string * Z)
    (st : CrawlState) :
  follow_inv self w first st ->
  follow_inv self w first (fst (crawl_loop self st)).
Proof.
  apply (crawl_loop_rule self (follow_inv self w first)
           (fun st' _ => follow_inv self w first st')).
  - intros s s' Hs Hturn. apply turn_keeps_follow_inv in Hs.
    now rewrite Hturn in Hs.
  - intros s s' r Hs Hturn. apply turn_keeps_follow_inv in Hs.
    now rewrite Hturn in Hs.
Qed.

(** A turn stops with what the scan of a page returned. *)
Lemma crawl_turn_stop (st st' : CrawlState) (info : Info) :
  crawl_turn self st = Stop st' (Some info) -> scanned_on_a_page info.
Proof.
  unfold crawl_turn.
  destruct (urls_to_visit st) as [|[current_url depth] rest];
    [discriminate|].
  destruct (Z.ltb (scanned st) (max_pages self)); [|discriminate].
  case_bool_decide; [discriminate|].
  destruct (Z.ltb (max_depth self) depth); [discriminate|].
  unfold visit.
  cbn [popped world visited_urls urls_to_visit scanned requests enqueued].
  destruct (session_get current_url (timeout self) (world st))
    as [w [response|e]]; [|discriminate].
  destruct (Z.eqb (status_code response) 200); [|discriminate].
  destruct (_find_instagram_in_page _ _) as [[found_info|]|e] eqn:Hpage.
  - intros [= _ <-].
    now exists found_info, (scanned st + 1)%Z, (resp_text response),
      (resp_url response).
  - destruct (Z.ltb depth (max_depth self)); [|discriminate].
    destruct (_extract_links _ _); discriminate.
  - discriminate.
Qed.

Lemma crawl_loop_scanned (st : CrawlState) (info : Info) :
  snd (crawl_loop self st) = Some info -> scanned_on_a_page info.
Proof.
  revert info.
  apply (crawl_loop_rule self (fun _ => True)
           (fun _ r => forall info, r = Some info -> scanned_on_a_page info));
    [trivial| |trivial].
  intros s s' r _ Hturn info ->. exact (crawl_turn_stop s s' info Hturn).
Qed.

End Follow.

(** X21. The crawler goes nowhere but to the start URL and to links
    of pages it was given in this crawl. The requests of one call of
    [_crawl_site_for_instagram], made in their order from the world in
    which the call began, are all the call does to the world; the log
    tells which of them were answered with status 200; and every URL
    queued, and so every URL requested, is the start URL with its
    scheme or one of the links [_extract_links] returns for one of
    these answers, which has status 200. *)
Theorem crawl_follows_links {platform : Platform}
    (self : AdvancedInstagramExtractor) (start_url : string) (w : World) :
  let st := fst (_crawl_site_for_instagram self start_url w) in
  let given := fst (replay self (map fst (requests st)) w) in
  snd (replay self (map fst (requests st)) w) = world st
  /\ map snd (requests st) = map answered_ok given
  /\ (forall u depth, In (u, depth) (enqueued st) ->
        u = with_scheme start_url \/ link_of_an_answer given u)
  /\ (forall u answered, In (u, answered) (requests st) ->
        u = with_scheme start_url \/ link_of_an_answer given u).
Proof.
  unfold _crawl_site_for_instagram.
  pose proof (crawl_loop_queue_inv self _ _
                (initial_queue_inv (with_scheme start_url) w))
    as (_ & _ & done & Henq & Hreq & _).
  assert (Hstart : follow_inv self w (with_scheme start_url, 0%Z)
                     (initial (with_scheme start_url) w)).
  { exists []. cbn [initial requests world enqueued map replay].
    split; [reflexivity|]. split; [reflexivity|].
    constructor; [now left | constructor]. }
  pose proof (crawl_loop_follow_inv self w _ _ Hstart)
    as (given & Hanswers & Hflags & Hall).
  destruct (crawl_loop self _) as [st r]. cbn [fst] in *.
  cbv zeta. rewrite Hanswers. cbn [fst snd].
  assert (Hqueued : forall u depth, In (u, depth) (enqueued st) ->
            u = with_scheme start_url \/ link_of_an_answer given u).
  { intros u depth Hin. rewrite List.Forall_forall in Hall.
    destruct (Hall _ Hin) as [[= -> _]|H]; [now left | now right]. }
  split; [reflexivity|]. split; [exact Hflags|]. split; [exact Hqueued|].
  intros u answered Hin.
  assert (Hu : u ∈ map fst (enqueued st)).
  { rewrite Henq, map_app. apply elem_of_app. left.
    apply (elem_of_sublist (map fst (requests st))); [|exact Hreq].
    apply list_elem_of_In.
    apply (List.in_map fst) in Hin. exact Hin. }
  apply list_elem_of_In, List.in_map_iff in Hu as ([u' depth] & <- & Hq).
  now apply (Hqueued u' depth).
Qed.

(** ** Blank input *)

(** X22. The status [empty] is given to the inputs made of whitespace
    only, the empty input among them, and to no other input. *)
Theorem empty_exactly {platform : Platform}
    (self : AdvancedInstagramExtractor) (url : string) (w : World)
    (o : Outcome) :
  snd (extract_instagram_info self url w) = Ok o ->
  status o = "empty" <-> remove_spaces url = "".
Proof.
  unfold extract_instagram_info. rewrite empty_test.
  destruct (String.eqb_spec (remove_spaces url) "") as [Hblank|Hfull].
  { intros [= <-]. split; [intros _; exact Hblank | reflexivity]. }
  assert (Hno : forall o' : Outcome,
             status o' <> "empty" -> Ok o' = Ok o ->
             status o = "empty" <-> remove_spaces url = "").
  { intros o' Hs [= <-]. split; intros H; contradiction. }
  set (url_str := remove_spaces (strip url)).
  destruct (_is_direct_instagram_url url_str).
  - destruct (_normalize_instagram_url url_str) as [normalized_url|e];
      [|discriminate].
    destruct (usable (_extract_username_from_url normalized_url)).
    { apply Hno. discriminate. }
    destruct (truthy (_extract_username_from_url normalized_url));
      apply Hno; discriminate.
  - destruct (truthy (_extract_username_from_text url_str)).
    + destruct (_is_valid_instagram_username _); apply Hno; discriminate.
    + destruct (crawl_and_report_cases self url url_str w)
        as (o' & -> & _ & Hcase).
      apply Hno. intros Hs. rewrite Hs in Hcase.
      destruct Hcase as [[Hkind _]|[[=] _]]. not_in_list Hkind.
Qed.

Lemma empty_exactly_witness :
  snd (extract_instagram_info (platform := scripted offline) defaults
         "   " tt)
  = Ok (set_status "empty" (blank_result "   "))
  /\ (status (set_status "empty" (blank_result "   ")) = "empty"
      <-> remove_spaces "   " = "").
Proof.
  assert (H : snd (extract_instagram_info (platform := scripted offline)
                     defaults "   " tt)
              = Ok (set_status "empty" (blank_result "   ")))
    by reflexivity.
  split; [exact H|].
  exact (empty_exactly (platform := scripted offline) defaults "   " tt
           (set_status "empty" (blank_result "   ")) H).
Defined.

(** ** The URL and the username of a find *)

Lemma usable_some (username : option string) :
  usable username = true ->
  username = Some (dict_get username "")
  /\ _is_valid_instagram_username (dict_get username "") = true.
Proof.
  intros H. apply usable_valid in H as [Ht Hv]. split; [|exact Hv].
  destruct username as [h|]; [reflexivity | discriminate Ht].
Qed.

Lemma valid_profile_url (username : string) :
  _is_valid_instagram_username username = true ->
  existsb (String.eqb (lower username)) reserved_pages = false ->
  _extract_username_from_url (profile_url username) = Some username.
Proof.
  intros Hvalid Hfree. apply profile_url_extracted; [|exact Hfree].
  now apply valid_sound in Hvalid.
Qed.

Section Agree.

Context {platform : Platform}.

Lemma scan_links_site (anchors : list Anchor) (page_url : string)
    (info : Info) :
  scan_links anchors page_url = Ok (Some info) ->
  i_status info = "found_in_site" ->
  _extract_username_from_url (i_url info) = Some (i_username info).
Proof.
  induction anchors as [|link rest IH]; [discriminate|].
  cbn [scan_links].
  set (in_text := if usable (_extract_username_from_text (link_text link))
                  then _ else _).
  assert (Htext : in_text = Ok (Some info) ->
                  i_status info = "found_in_site" ->
                  _extract_username_from_url (i_url info)
                  = Some (i_username info)).
  { unfold in_text.
    destruct (usable (_extract_username_from_text (link_text link)));
      [|exact IH].
    intros [= <-]. discriminate. }
  destruct (_is_direct_instagram_url (strip (href link))); [|exact Htext].
  destruct (_normalize_url (strip (href link)) page_url) as [url|e];
    [|discriminate].
  destruct (usable (_extract_username_from_url url)) eqn:Hu; [|exact Htext].
  intros [= <-] _. cbn [found i_url i_username].
  now apply usable_some in Hu.
Qed.

Lemma scan_metas_status (metas : list MetaTag) (info : Info) :
  scan_metas metas = Some info -> i_status info = "found_in_meta_tag".
Proof.
  induction metas as [|meta rest IH]; [discriminate|].
  cbn [scan_metas].
  destruct (negb (String.eqb (content meta) "")); [|exact IH].
  destruct (usable (_extract_username_from_text (content meta))); [|exact IH].
  now intros [= <-].
Qed.

Lemma scan_selectors_status (soup : Soup) (selectors : list string)
    (info : Info) :
  scan_selectors soup selectors = Some info ->
  i_status info = "found_in_social_section".
Proof.
  induction selectors as [|selector rest IH]; [discriminate|].
  cbn [scan_selectors].
  destruct (scan_elements selector (select soup selector)) as [found_info|]
    eqn:He; [|exact IH].
  intros [= <-]. clear IH. revert He.
  induction (select soup selector) as [|element_text elements IH];
    [discriminate|].
  cbn [scan_elements].
  destruct (usable (_extract_username_from_text element_text)); [|exact IH].
  now intros [= <-].
Qed.

Lemma page_scan_site (html page_url : string) (info : Info) :
  _find_instagram_in_page html page_url = Ok (Some info) ->
  i_status info = "found_in_site" ->
  _extract_username_from_url (i_url info) = Some (i_username info).
Proof.
  unfold _find_instagram_in_page.
  destruct (scan_links _ page_url) as [[found_info|]|e] eqn:Hl; [| |discriminate].
  - intros [= <-].
    now apply (scan_links_site (find_all_a (BeautifulSoup html)) page_url).
  - destruct (usable (_extract_username_from_text _)).
    + intros [= <-]. discriminate.
    + destruct (scan_metas _) as [found_info|] eqn:Hm.
      * intros [= <-] Hs. apply scan_metas_status in Hm. congruence.
      * intros H Hs.
        assert (Hsel : scan_selectors (BeautifulSoup html) social_selectors
                       = Some info) by (injection H as H; exact H).
        apply scan_selectors_status in Hsel. congruence.
Qed.

End Agree.

(** X23. The URL and the username of a find agree: when the status is
    one of the [found_*] kinds and the username is no reserved page
    name, [_extract_username_from_url] reads the reported username
    from the reported URL. *)
Theorem found_url_names_the_username {platform : Platform}
    (self : AdvancedInstagramExtractor) (url : string) (w : World)
    (o : Outcome) :
  snd (extract_instagram_info self url w) = Ok o ->
  In (status o) found_kinds ->
  existsb (String.eqb (lower (instagram_username o))) reserved_pages = false ->
  _extract_username_from_url (instagram_url o) = Some (instagram_username o).
Proof.
  unfold extract_instagram_info.
  destruct (String.eqb url "" || String.eqb (strip url) "").
  { intros [= <-] Hin. not_in_list Hin. }
  set (url_str := remove_spaces (strip url)).
  destruct (_is_direct_instagram_url url_str).
  - destruct (_normalize_instagram_url url_str) as [normalized_url|e];
      [|discriminate].
    destruct (usable (_extract_username_from_url normalized_url)) eqn:Hu.
    { intros [= <-] _ _. now apply usable_some in Hu. }
    destruct (truthy (_extract_username_from_url normalized_url));
      intros [= <-] Hin; not_in_list Hin.
  - destruct (truthy (_extract_username_from_text url_str)).
    + destruct (_is_valid_instagram_username _) eqn:Hvalid.
      * intros [= <-] _ Hfree. now apply valid_profile_url.
      * intros [= <-] Hin. not_in_list Hin.
    + unfold crawl_and_report, _crawl_site_for_instagram.
      set (start := initial _ w).
      pose proof (crawl_loop_scanned self start) as Hscan.
      destruct (crawl_loop self start) as [st [info|]]; cbn [snd] in *.
      2: { intros [= <-] Hin. not_in_list Hin. }
      destruct (Hscan info eq_refl)
        as (found_info & n & html & page_url & Hpage & ->).
      destruct (find_instagram_in_page_result _ _ _ Hpage) as [Hvalid Hkind].
      cbn [stamp i_username i_url i_status i_notes i_pages_scanned
           i_found_on_page dict_get].
      rewrite Hvalid. intros [= <-] _ Hfree.
      cbn [set_found_on_page set_pages_scanned set_notes set_status
           set_instagram_username set_instagram_url instagram_url
           instagram_username] in *.
      destruct Hkind as [Hsite|[_ Hurl]].
      * now apply (page_scan_site html page_url).
      * rewrite Hurl. now apply valid_profile_url.
Qed.

Lemma found_url_names_the_username_witness :
  snd (extract_instagram_info (platform := scripted acme) defaults
         "acme.test" tt) = Ok acme_outcome
  /\ In (status acme_outcome) found_kinds
  /\ existsb (String.eqb (lower (instagram_username acme_outcome)))
       reserved_pages = false
  /\ _extract_username_from_url (instagram_url acme_outcome)
     = Some (instagram_username acme_outcome).
Proof.
  assert (Hin : In (status acme_outcome) found_kinds)
    by (unfold found_kinds; simpl; pick_in_list).
  split; [exact acme_found|]. split; [exact Hin|]. split; [reflexivity|].
  exact (found_url_names_the_username (platform := scripted acme) defaults
           "acme.test" tt acme_outcome acme_found Hin eq_refl).
Defined.
